(** * Agent simulation on a surface (A4/agent_builder.py, A4/agent_simulator.py)

    A shallow embedding of the agent pipeline of the portfolio's assignment 4
    and the properties its specification states about it.

    Numbers.  Python floats are modelled by the real numbers [R] (exact
    arithmetic, no rounding, no NaN); integers ([age], [max_age],
    [max_neighbors], the seed) by [Z].  Where a property depends on the
    rounding of the vector helpers, the decision stage is taken over any
    implementation of them that is accurate to a relative error (the last
    section of the definitions).

    Objects.  Agent objects live in a heap, a [list Agent] in allocation
    order; a Python reference to an agent is its index in the heap.  Objects
    are never freed.  The list [self.agents] of the component is a list of
    references, and so is every [neighbors] list.  A method that mutates
    [self] reads the object from the heap and writes it back.

    Geometry.  The calls into rhinoscriptsyntax ([rs.*]) are not part of the
    repository.  Vector helpers are defined with their documented meaning;
    the surface is a record of functions (the geometry oracle).

    Randomness.  [random.random()] reads the next sample of the tape the
    seed selects; [uuid.uuid4()] reads an entropy source that the seed does
    not control.

    Errors.  A Python exception that leaves a function is the result [None]
    of the model ([option]); a reference that is not in the heap gives
    [None] as well. *)

From Stdlib Require Import Reals Lra Lia ZArith List.
From stdpp Require Import base option list.

Local Open Scope R_scope.

(** ** 3D points and vectors, and the rhinoscriptsyntax vector helpers *)

Record V3 : Type := mkV3 { X : R; Y : R; Z3 : R }.

Definition V3_zero : V3 := mkV3 0 0 0.

(** [rs.PointAdd(point1, point2)] *)
Definition PointAdd (p v : V3) : V3 :=
  mkV3 (X p + X v) (Y p + Y v) (Z3 p + Z3 v).

(** [rs.VectorAdd(vector1, vector2)] *)
Definition VectorAdd (a b : V3) : V3 :=
  mkV3 (X a + X b) (Y a + Y b) (Z3 a + Z3 b).

(** [rs.VectorScale(vector, scale)] *)
Definition VectorScale (v : V3) (s : R) : V3 :=
  mkV3 (X v * s) (Y v * s) (Z3 v * s).

(** [rs.VectorCreate(to_point, from_point)]: the vector [to_point - from_point]. *)
Definition VectorCreate (to_point from_point : V3) : V3 :=
  mkV3 (X to_point - X from_point) (Y to_point - Y from_point)
       (Z3 to_point - Z3 from_point).

(** [rs.VectorLength(vector)] *)
Definition VectorLength (v : V3) : R :=
  sqrt (X v * X v + Y v * Y v + Z3 v * Z3 v).

(** [rs.VectorUnitize(vector)]: the vector scaled to length one; it yields
    [None] for a vector of length zero (and [rs.VectorScale(None, _)] then
    raises). *)
Definition VectorUnitize (v : V3) : option V3 :=
  if Rlt_dec 0 (VectorLength v)
  then Some (VectorScale v (/ VectorLength v))
  else None.

(** [rs.Distance(point1, point2)] *)
Definition Distance (p q : V3) : R := VectorLength (VectorCreate q p).

(** [np.array - np.array] in [sample_slope] *)
Definition V3_sub (a b : V3) : V3 := VectorCreate a b.

(** ** The surface: the geometry oracle behind [rs.Surface*] *)

Definition UV : Type := (R * R)%type.

(** What [sample_curvature] reads of the result of [rs.SurfaceCurvature]:
    [curv[2]], [curv[3]] (numbers or [None]) and [curv[4]] (a vector or
    [None]). *)
Record CurvatureData : Type := mkCurv {
  curv2 : option R;
  curv3 : option R;
  curv4 : option V3
}.

(** A surface object ([rs.IsSurface] holds for it).  [rs.EvaluateSurface]
    yields a point for every parameter pair, as [evaluate(u, v) -> Point3] of
    the consumed interface does, so the tests [if not p0 ...] of
    [sample_slope] and [pt if pt else None] of
    [generate_random_point_on_surface] never fire; [rs.SurfaceClosestPoint]
    may fail.  A missing surface (the input is [None]) is [None : option
    Surface]. *)
Record Surface : Type := mkSurface {
  SurfaceDomain : bool -> R * R;          (* direction 0 = false, 1 = true *)
  EvaluateSurface : R -> R -> V3;
  SurfaceClosestPoint : V3 -> option UV;  (* None: no projection *)
  (* None: no result, a result shorter than five entries, or an exception *)
  SurfaceCurvature : UV -> option CurvatureData
}.

(** ** The pseudorandom generator of module [random] *)

Record Rng : Type := mkRng { tape : nat -> R; drawn : nat }.

(** [random.random()] *)
Definition random (g : Rng) : R * Rng :=
  (tape g (drawn g), mkRng (tape g) (S (drawn g))).

(** [random.uniform(a, b)] is [a + (b - a) * random()] *)
Definition uniform (a b : R) (g : Rng) : R * Rng :=
  let '(x, g') := random g in (a + (b - a) * x, g').

(** ** Agents *)

(** A reference to an agent object: its index in the heap. *)
Abbreviation Ref := nat (only parsing).

Record Agent : Type := mkAgent {
  id : N;                          (* uuid.uuid4().hex, a 128-bit value *)
  position : V3;
  velocity : V3;
  age : Z;
  is_alive : bool;
  path : list V3;
  uv : option UV;
  curvature_mean : R;
  curvature_dir : V3;
  slope_vector : V3;
  slope_magnitude : R;
  neighbors : list (Ref * R)
}.

Abbreviation Heap := (list Agent) (only parsing).

(** Assignments to the attributes of an agent. *)
Definition set_position (a : Agent) (p : V3) : Agent :=
  mkAgent (id a) p (velocity a) (age a) (is_alive a) (path a) (uv a)
    (curvature_mean a) (curvature_dir a) (slope_vector a) (slope_magnitude a)
    (neighbors a).
Definition set_velocity (a : Agent) (v : V3) : Agent :=
  mkAgent (id a) (position a) v (age a) (is_alive a) (path a) (uv a)
    (curvature_mean a) (curvature_dir a) (slope_vector a) (slope_magnitude a)
    (neighbors a).
Definition set_age (a : Agent) (n : Z) : Agent :=
  mkAgent (id a) (position a) (velocity a) n (is_alive a) (path a) (uv a)
    (curvature_mean a) (curvature_dir a) (slope_vector a) (slope_magnitude a)
    (neighbors a).
Definition set_is_alive (a : Agent) (b : bool) : Agent :=
  mkAgent (id a) (position a) (velocity a) (age a) b (path a) (uv a)
    (curvature_mean a) (curvature_dir a) (slope_vector a) (slope_magnitude a)
    (neighbors a).
Definition set_path (a : Agent) (l : list V3) : Agent :=
  mkAgent (id a) (position a) (velocity a) (age a) (is_alive a) l (uv a)
    (curvature_mean a) (curvature_dir a) (slope_vector a) (slope_magnitude a)
    (neighbors a).
Definition set_uv (a : Agent) (c : option UV) : Agent :=
  mkAgent (id a) (position a) (velocity a) (age a) (is_alive a) (path a) c
    (curvature_mean a) (curvature_dir a) (slope_vector a) (slope_magnitude a)
    (neighbors a).
Definition set_curvature (a : Agent) (m : R) (d : V3) : Agent :=
  mkAgent (id a) (position a) (velocity a) (age a) (is_alive a) (path a) (uv a)
    m d (slope_vector a) (slope_magnitude a) (neighbors a).
Definition set_slope (a : Agent) (v : V3) (m : R) : Agent :=
  mkAgent (id a) (position a) (velocity a) (age a) (is_alive a) (path a) (uv a)
    (curvature_mean a) (curvature_dir a) v m (neighbors a).
Definition set_neighbors (a : Agent) (l : list (Ref * R)) : Agent :=
  mkAgent (id a) (position a) (velocity a) (age a) (is_alive a) (path a) (uv a)
    (curvature_mean a) (curvature_dir a) (slope_vector a) (slope_magnitude a) l.

(** [Agent.__init__(self, position, velocity)], with the uuid it draws. *)
Definition Agent_init (uuid : N) (pos vel : V3) : Agent :=
  mkAgent uuid pos vel 0%Z true [pos] None 0 V3_zero V3_zero 0 [].

(** ** Helper functions of agent_builder.py *)

(** [get_uv(surface, point)] *)
Definition get_uv (surface : option Surface) (point : V3) : option UV :=
  match surface with
  | None => None
  | Some s => SurfaceClosestPoint s point
  end.

(** [x or 0.0] for a number or [None] *)
Definition or_zero (x : option R) : R :=
  match x with Some r => r | None => 0 end.

(** [sample_curvature(surface, uv)] *)
Definition sample_curvature (surface : option Surface) (c : option UV) : R * V3 :=
  match surface, c with
  | Some s, Some p =>
      match SurfaceCurvature s p with
      | None => (0, V3_zero)
      | Some curv =>
          let k1 := or_zero (curv2 curv) in
          let k2 := or_zero (curv3 curv) in
          let mean_c := 0.5 * (k1 + k2) in
          let dir1 := match curv4 curv with Some d => d | None => V3_zero end in
          (mean_c, dir1)
      end
  | _, _ => (0, V3_zero)
  end.

(** [sample_slope(surface, uv, step=1e-3)] *)
Definition sample_slope (surface : option Surface) (c : option UV) (step : R)
  : V3 * R :=
  match surface, c with
  | Some s, Some (u, v) =>
      let p0 := EvaluateSurface s u v in
      let pu := EvaluateSurface s (u + step) v in
      let pv := EvaluateSurface s u (v + step) in
      let slope_vec := VectorAdd (V3_sub pu p0) (V3_sub pv p0) in
      let slope_mag := VectorLength slope_vec in
      (slope_vec, slope_mag)
  | _, _ => (V3_zero, 0)
  end.

(** ** [Agent.sense] *)

(** The loop [for other in agents] of [sense]: the neighbours in the order
    of [agents]. *)
Fixpoint scan_neighbors (h : Heap) (self : Agent) (vision_radius : R)
    (agents : list Ref) : option (list (Ref * R)) :=
  match agents with
  | [] => Some []
  | o :: rest =>
      match h !! o with
      | None => None
      | Some other =>
          match scan_neighbors h self vision_radius rest with
          | None => None
          | Some tl =>
              if N.eqb (id other) (id self) then Some tl
              else
                let d := Distance (position self) (position other) in
                if Rle_dec d vision_radius then Some ((o, d) :: tl)
                else Some tl
          end
      end
  end.

(** The geometric part of [sense] (lines 141-144). *)
Definition sense_geometry (self : Agent) (surface : option Surface) : Agent :=
  let c := get_uv surface (position self) in
  let a := set_uv self c in
  match c with
  | Some _ =>
      let '(m, d) := sample_curvature surface c in
      let '(sv, sm) := sample_slope surface c 1e-3 in
      set_slope (set_curvature a m d) sv sm
  | None => a
  end.

(** [Agent.sense(self, agents, surface, vision_radius)]; [vision_radius] is
    [None] when the input is unset. *)
Definition sense (h : Heap) (self : Agent) (agents : list Ref)
    (surface : option Surface) (vision_radius : option R) : option Agent :=
  let a := set_neighbors (sense_geometry self surface) [] in
  match vision_radius with
  | None => Some a
  | Some r =>
      match scan_neighbors h a r agents with
      | None => None
      | Some nb => Some (set_neighbors a nb)
      end
  end.

(** ** [Agent.decide] *)

(** Slope resistance (lines 166-167); [if max_slope] is false for [0]. *)
Definition slope_resistance (self : Agent) (max_slope : R) : R :=
  let slope_mag := slope_magnitude self in
  if Req_dec_T max_slope 0 then 1
  else Rmax 0.2 (1 - slope_mag / max_slope).

(** Curvature alignment (lines 171-174). *)
Definition curvature_alignment (self : Agent) (alignment_weight : R) (v : V3)
  : option V3 :=
  if Rgt_dec (VectorLength (curvature_dir self)) 1e-6 then
    let align_w :=
      alignment_weight *
      (if Rlt_dec (Rabs (curvature_mean self)) 0.1 then 4 else 1) in
    match VectorUnitize (curvature_dir self) with
    | None => None
    | Some c_dir => Some (VectorAdd v (VectorScale c_dir align_w))
    end
  else Some v.

(** The loop over [self.neighbors] of the separation term (lines 179-182),
    from the accumulator [away]. *)
Fixpoint accumulate_away (h : Heap) (self : Agent) (nbs : list (Ref * R))
    (away : V3) : option V3 :=
  match nbs with
  | [] => Some away
  | (o, dist) :: rest =>
      match h !! o with
      | None => None
      | Some other =>
          let vec := VectorCreate (position self) (position other) in
          if Rgt_dec (VectorLength vec) 1e-9 then
            match VectorUnitize vec with
            | None => None
            | Some u =>
                accumulate_away h self rest
                  (VectorAdd away (VectorScale u (1 / Rmax dist 1e-6)))
            end
          else accumulate_away h self rest away
      end
  end.

(** Separation (lines 177-187). *)
Definition separation (h : Heap) (self : Agent) (separation_weight : R) (v : V3)
  : option V3 :=
  match neighbors self with
  | [] => Some v
  | _ :: _ =>
      match accumulate_away h self (neighbors self) V3_zero with
      | None => None
      | Some away =>
          if Rgt_dec (VectorLength away) 1e-9 then
            match VectorUnitize away with
            | None => None
            | Some u => Some (VectorAdd v (VectorScale u separation_weight))
            end
          else Some v
      end
  end.

(** Speed clamp (lines 190-192). *)
Definition clamp_speed (max_speed : R) (v : V3) : option V3 :=
  let speed := VectorLength v in
  if Rgt_dec speed max_speed then
    match VectorUnitize v with
    | None => None
    | Some u => Some (VectorScale u max_speed)
    end
  else Some v.

(** Jitter if stuck (lines 195-199). *)
Definition jitter_if_stuck (jitter : R) (v : V3) (g : Rng) : V3 * Rng :=
  if Rlt_dec (VectorLength v) 1e-4 then
    let '(jx, g1) := uniform (- jitter) jitter g in
    let '(jy, g2) := uniform (- jitter) jitter g1 in
    (VectorAdd v (mkV3 jx jy 0), g2)
  else (v, g).

(** [Agent.decide(self, max_speed, max_slope, alignment_weight,
    separation_weight, jitter)].  The other agents are read from the heap. *)
Definition decide (h : Heap) (self : Agent)
    (max_speed max_slope alignment_weight separation_weight jitter : R)
    (g : Rng) : option (Agent * Rng) :=
  if negb (is_alive self) then Some (self, g)
  else
    let v1 := VectorScale (velocity self) (slope_resistance self max_slope) in
    match curvature_alignment self alignment_weight v1 with
    | None => None
    | Some v2 =>
        match separation h self separation_weight v2 with
        | None => None
        | Some v3 =>
            match clamp_speed max_speed v3 with
            | None => None
            | Some v4 =>
                let '(v5, g') := jitter_if_stuck jitter v4 g in
                Some (set_velocity self v5, g')
            end
        end
    end.

(** ** [Agent.move] *)

Definition move (self : Agent) (surface : option Surface) : Agent :=
  if negb (is_alive self) then self
  else
    let new_pos := PointAdd (position self) (velocity self) in
    let p :=
      match surface with
      | Some s =>
          match SurfaceClosestPoint s new_pos with
          | Some (u, v) => EvaluateSurface s u v
          | None => new_pos
          end
      | None => new_pos
      end in
    set_path (set_position self p) (path self ++ [p]).

(** ** [spawn_agent_near] *)

(** [spawn_agent_near(agent, surface, offset=0.2)].  Without a surface
    [rs.SurfaceClosestPoint] raises after the two offsets are drawn, and the
    [except] clause returns [None]. *)
Definition spawn_agent_near (uuid : N) (agent : Agent)
    (surface : option Surface) (offset : R) (g : Rng) : option Agent * Rng :=
  let '(jx, g1) := uniform (- offset) offset g in
  let '(jy, g2) := uniform (- offset) offset g1 in
  let new_pos := PointAdd (position agent) (mkV3 jx jy 0) in
  match surface with
  | None => (None, g2)
  | Some s =>
      let new_pos' :=
        match SurfaceClosestPoint s new_pos with
        | Some (u, v) => EvaluateSurface s u v
        | None => new_pos
        end in
      let '(vx, g3) := uniform (-0.05) 0.05 g2 in
      let '(vy, g4) := uniform (-0.05) 0.05 g3 in
      (Some (Agent_init uuid new_pos' (mkV3 vx vy 0)), g4)
  end.

(** ** [Agent.update] *)

(** The keyword parameters of [update]. *)
Record Params : Type := mkParams {
  vision_radius : option R;
  max_speed : R;
  max_slope : R;
  alignment_weight : R;
  separation_weight : R;
  jitter : R;
  max_age : Z;
  slope_kill : R;
  curvature_spawn : R;
  spawn_chance : R;
  max_neighbors : Z
}.

(** The defaults of the signature of [update]. *)
Definition default_params : Params :=
  mkParams (Some 1) 0.5 0.8 0.05 0.12 0.01 200%Z 1.2 0.15 0.02 6%Z.

(** The global state the methods act on: the objects and the generator. *)
Record World : Type := mkWorld { heap : Heap; rng : Rng }.

(** Death rule (line 226). *)
Definition dies (p : Params) (a : Agent) : bool :=
  (max_age p <? age a)%Z
  || (if Rgt_dec (slope_magnitude a) (slope_kill p) then true else false).

(** Spawn probability (lines 231-235). *)
Definition spawn_probability (p : Params) (a : Agent) : R :=
  let prob := spawn_chance p in
  let prob :=
    if Rgt_dec (Rabs (curvature_mean a)) (curvature_spawn p)
    then prob * 3 else prob in
  if (max_neighbors p <? Z.of_nat (length (neighbors a)))%Z then 0 else prob.

Section Simulation.

(** The uuid the k-th constructed agent draws.  Every constructed agent is
    kept in the heap, so k is the length of the heap at construction. *)
Variable uuid4 : nat -> N.

(** The tape [random.seed(seed)] selects. *)
Variable random_seed : Z -> nat -> R.

(** [Agent.update(self, agents, surface, ...)]: the reference of the spawned
    agent, if any, and the new world.  The object [self] is held in a local
    value from [sense] on and written to the heap when the method returns:
    nothing reads it through the heap in between ([sense] skips it by its
    id, and a neighbour list never holds it). *)
Definition update (self : Ref) (agents : list Ref) (surface : option Surface)
    (p : Params) (w : World) : option (option Ref * World) :=
  match heap w !! self with
  | None => None
  | Some a =>
      if negb (is_alive a) then Some (None, w)
      else
        match sense (heap w) a agents surface (vision_radius p) with
        | None => None
        | Some a1 =>
            match decide (heap w) a1 (max_speed p) (max_slope p)
                    (alignment_weight p) (separation_weight p) (jitter p)
                    (rng w) with
            | None => None
            | Some (a2, g2) =>
                let a3 := move a2 surface in
                let a4 := set_age a3 (age a3 + 1) in
                if dies p a4 then
                  Some (None,
                        mkWorld (<[self := set_is_alive a4 false]> (heap w)) g2)
                else
                  let prob := spawn_probability p a4 in
                  let '(x, g3) := random g2 in
                  if Rlt_dec x prob then
                    let '(child, g4) :=
                      spawn_agent_near (uuid4 (length (heap w))) a4 surface
                        0.2 g3 in
                    match child with
                    | Some c =>
                        Some (Some (length (heap w)),
                              mkWorld (<[self := a4]> (heap w) ++ [c]) g4)
                    | None =>
                        Some (None, mkWorld (<[self := a4]> (heap w)) g4)
                    end
                  else Some (None, mkWorld (<[self := a4]> (heap w)) g3)
            end
        end
  end.

(** ** The component of agent_builder.py *)

(** [seed_everything(seed)], for the seeds [np.random.seed] accepts: none,
    or an integer from 0 to 2^32 - 1 (for any other it raises). *)
Definition seed_everything (seed : option Z) (g : Rng) : Rng :=
  match seed with
  | Some s => mkRng (random_seed s) 0
  | None => g
  end.

(** The body of the loop of [build_agents]; [made] are the agents appended
    so far. *)
Fixpoint build_agents_loop (n : nat) (s : Surface) (w : World)
    (made : list Ref) : list Ref * World :=
  match n with
  | O => (made, w)
  | S n' =>
      let '(u, g1) :=
        uniform (fst (SurfaceDomain s false)) (snd (SurfaceDomain s false))
          (rng w) in
      let '(v, g2) :=
        uniform (fst (SurfaceDomain s true)) (snd (SurfaceDomain s true)) g1 in
      let pos := EvaluateSurface s u v in
      let '(vx, g3) := uniform (-0.05) 0.05 g2 in
      let '(vy, g4) := uniform (-0.05) 0.05 g3 in
      let a := Agent_init (uuid4 (length (heap w))) pos (mkV3 vx vy 0) in
      build_agents_loop n' s (mkWorld (heap w ++ [a]) g4)
        (made ++ [length (heap w)])
  end.

(** [build_agents(num_agents, start_surface)] *)
Definition build_agents (num_agents : Z) (start_surface : option Surface)
    (w : World) : list Ref * World :=
  match start_surface with
  | None => ([], w)
  | Some s => build_agents_loop (Z.to_nat num_agents) s w []
  end.

(** The loop of [RunScript] (lines 282-291) over the rest [todo] of
    [self.agents]; [all] is [self.agents]. *)
Fixpoint RunScript_loop (all todo : list Ref) (surface : option Surface)
    (p : Params) (w : World) (active_agents new_agents : list Ref)
  : option (list Ref * list Ref * World) :=
  match todo with
  | [] => Some (active_agents, new_agents, w)
  | agent :: rest =>
      match update agent all surface p w with
      | None => None
      | Some (spawned, w') =>
          match heap w' !! agent with
          | None => None
          | Some a =>
              let active_agents' :=
                if is_alive a then active_agents ++ [agent]
                else active_agents in
              let new_agents' :=
                match spawned with
                | Some c => new_agents ++ [c]
                | None => new_agents
                end in
              RunScript_loop all rest surface p w' active_agents' new_agents'
          end
      end
  end.

(** The state of the component between two calls: the world and the
    attribute [self.agents] ([None] when it is missing or [None]). *)
Record State : Type := mkState { world : World; self_agents : option (list Ref) }.

(** The parameters [RunScript] passes to [update]; the others keep the
    defaults. *)
Definition RunScript_params (vision_radius : option R)
    (max_speed max_slope alignment_weight separation_weight jitter : R)
  : Params :=
  mkParams vision_radius max_speed max_slope alignment_weight
    separation_weight jitter (max_age default_params)
    (slope_kill default_params) (curvature_spawn default_params)
    (spawn_chance default_params) (max_neighbors default_params).

(** [MyComponent.RunScript(self, seed, N, reset, start_surface, ...)] *)
Definition RunScript (seed : option Z) (N : Z) (reset : bool)
    (start_surface : option Surface) (vision_radius : option R)
    (max_speed max_slope alignment_weight separation_weight jitter : R)
    (st : State) : option State :=
  let w0 := mkWorld (heap (world st)) (seed_everything seed (rng (world st))) in
  let '(agents, w1) :=
    match self_agents st with
    | Some l => if reset then build_agents N start_surface w0 else (l, w0)
    | None => build_agents N start_surface w0
    end in
  match RunScript_loop agents agents start_surface
          (RunScript_params vision_radius max_speed max_slope alignment_weight
             separation_weight jitter) w1 [] [] with
  | None => None
  | Some (active_agents, new_agents, w2) =>
      Some (mkState w2 (Some (active_agents ++ new_agents)))
  end.

(** ** The step of agent_simulator.py *)

(** The loop of lines 17-21 over the rest [todo] of [agents]. *)
Fixpoint simulator_loop (all todo : list Ref) (start_surface : option Surface)
    (w : World) (new_agents : list Ref) : option (list Ref * World) :=
  match todo with
  | [] => Some (new_agents, w)
  | agent :: rest =>
      match update agent all start_surface default_params w with
      | None => None
      | Some (spawned, w') =>
          let new_agents' :=
            match spawned with
            | Some c => new_agents ++ [c]
            | None => new_agents
            end in
          simulator_loop all rest start_surface w' new_agents'
      end
  end.

(** Lines 8-23: the local list [agents] after the step.  The attribute
    [x.agents] of the upstream component is not assigned. *)
Definition simulator_step (start_surface : option Surface) (st : State)
  : option (list Ref * State) :=
  let agents := match self_agents st with Some l => l | None => [] end in
  match simulator_loop agents agents start_surface (world st) [] with
  | None => None
  | Some (new_agents, w') =>
      Some (agents ++ new_agents, mkState w' (self_agents st))
  end.

End Simulation.


(** ** Concrete populations used in the examples *)

(** Two agents at the same point (the origin), with different ids. *)
Definition twin0 : Agent := Agent_init 1%N V3_zero V3_zero.
Definition twin1 : Agent := Agent_init 2%N V3_zero V3_zero.
Definition twin_heap : list Agent := [twin0; twin1].

(** Two agents three units apart. *)
Definition apart0 : Agent := Agent_init 1%N V3_zero V3_zero.
Definition apart1 : Agent := Agent_init 2%N (mkV3 3 0 0) V3_zero.
Definition apart_heap : list Agent := [apart0; apart1].

(** A surface on which no point projects and no curvature is defined. *)
Definition no_projection : Surface :=
  mkSurface (fun _ => (0, 1)) (fun u v => mkV3 u v 0) (fun _ => None)
    (fun _ => None).

(** An agent that was projected to [(1, 2)] in an earlier step. *)
Definition projected_agent : Agent :=
  mkAgent 1%N (mkV3 1 2 0) V3_zero 3%Z true [mkV3 1 2 0] (Some (1, 2))
    0.3 (mkV3 1 0 0) (mkV3 0 1 0) 1 [].

(** ** Vocabulary of the statements *)

(** Every reference of [l] is an object of the heap. *)
Definition refs_valid (h : Heap) (l : list Ref) : Prop :=
  Forall (fun r => (r < length h)%nat) l.

(** The references of a neighbour list are objects of the heap. *)
Definition neighbors_valid (h : Heap) (nbs : list (Ref * R)) : Prop :=
  Forall (fun nb => (fst nb < length h)%nat) nbs.

(** In [update]: the agent after sensing, decision, motion and the age
    increment (line 223), from the agent [a2] the decision leaves. *)
Definition aged (a2 : Agent) (surface : option Surface) : Agent :=
  set_age (move a2 surface) (age (move a2 surface) + 1).

Arguments aged : simpl never.

(** In [update]: the spawn rules (lines 231-238) for a surviving agent [a4]
    from the generator [g2]: the spawned agent, if any, and the generator
    afterwards. *)
Definition spawn_step (uuid4 : nat -> N) (h : Heap) (a4 : Agent)
    (surface : option Surface) (p : Params) (g2 : Rng) : option Agent * Rng :=
  let '(x, g3) := random g2 in
  if Rlt_dec x (spawn_probability p a4)
  then spawn_agent_near (uuid4 (length h)) a4 surface 0.2 g3
  else (None, g3).

(** The path of an agent ends at its position. *)
Definition path_ok (a : Agent) : Prop := last (path a) = Some (position a).

(** A generator whose every sample is 0. *)
Definition zero_tape : Rng := mkRng (fun _ => 0) 0.

(** The uuid source of the examples. *)
Definition example_uuid4 (k : nat) : N := N.of_nat (100 + k).

(** An object of the heap carries the uuid of its allocation. *)
Definition heap_ids_ok (uuid4 : nat -> N) (h : Heap) : Prop :=
  forall r a, h !! r = Some a -> id a = uuid4 r.

(** [normalize(v)]: the vector divided by its length. *)
Definition V3_normalize (v : V3) : V3 := VectorScale v (/ VectorLength v).

(** The sum of a list of vectors. *)
Definition V3_sum (l : list V3) : V3 := fold_right VectorAdd V3_zero l.

(** The terms the separation loop of [decide] adds up: for each neighbour
    whose offset [position - other.position] is longer than [1e-9], the
    normalized offset times [1 / max(dist, 1e-6)]. *)
Fixpoint away_terms (h : Heap) (self : Agent) (nbs : list (Ref * R))
  : list V3 :=
  match nbs with
  | [] => []
  | (o, dist) :: rest =>
      match h !! o with
      | Some other =>
          let vec := VectorCreate (position self) (position other) in
          if Rgt_dec (VectorLength vec) 1e-9
          then VectorScale (V3_normalize vec) (1 / Rmax dist 1e-6)
               :: away_terms h self rest
          else away_terms h self rest
      | None => away_terms h self rest
      end
  end.

(** The accumulated vector in the words of the specification: the sum over
    the neighbours of [normalize(other.position - position)] times
    [1 / max(distance, 1e-6)]. *)
Definition away_as_specified (h : Heap) (self : Agent)
    (nbs : list (Ref * R)) : V3 :=
  V3_sum
    (map (fun nb : Ref * R =>
            match h !! fst nb with
            | Some other =>
                VectorScale
                  (V3_normalize
                     (VectorCreate (position other) (position self)))
                  (1 / Rmax (snd nb) 1e-6)
            | None => V3_zero
            end) nbs).

(** The first agent of [apart_heap] after it sensed the second one, three
    units away. *)
Definition apart0_sensed : Agent := set_neighbors apart0 [(1%nat, 3)].

(** The plane z = 0, parametrised by (x, y), with no principal direction. *)
Definition flat_plane : Surface :=
  mkSurface (fun _ => (-10, 10)) (fun u v => mkV3 u v 0)
    (fun p => Some (X p, Y p))
    (fun _ => Some (mkCurv (Some 0) (Some 0) None)).

(** Two agents at rest on the plane, a little more than one unit apart. *)
Definition near0 : Agent := Agent_init 1%N V3_zero V3_zero.
Definition near1 : Agent := Agent_init 2%N (mkV3 (-1.005) 0 0) V3_zero.
Definition near_state : State :=
  mkState (mkWorld [near0; near1] zero_tape) (Some [0; 1]%nat).

(** A seeding under which every tape is the zero tape. *)
Definition zero_seed : Z -> nat -> R := fun _ _ => 0.

(** An agent at the origin that has lived 200 steps, and a young one three
    units away: the population the simulator receives from the builder. *)
Definition elder : Agent :=
  mkAgent 1%N V3_zero V3_zero 200%Z true [V3_zero] None 0 V3_zero V3_zero 0 [].
Definition aging_state : State :=
  mkState (mkWorld [elder; apart1] zero_tape) (Some [0; 1]%nat).

(** ** Runs of the simulation *)

(** The component before the first call: no attribute [agents]; the import
    of the module has seeded the generator with 42 (line 42). *)
Definition fresh_component (random_seed : Z -> nat -> R) : State :=
  mkState (mkWorld [] (mkRng (random_seed 42%Z) 0)) None.

(** [steps] calls of [RunScript] with the same inputs. *)
Fixpoint run (uuid4 : nat -> N) (random_seed : Z -> nat -> R)
    (seed : option Z) (N : Z) (reset : bool) (start_surface : option Surface)
    (vision_radius : option R)
    (max_speed max_slope alignment_weight separation_weight jitter : R)
    (steps : nat) (st : State) : option State :=
  match steps with
  | O => Some st
  | S n =>
      match RunScript uuid4 random_seed seed N reset start_surface
              vision_radius max_speed max_slope alignment_weight
              separation_weight jitter st with
      | None => None
      | Some st' =>
          run uuid4 random_seed seed N reset start_surface vision_radius
            max_speed max_slope alignment_weight separation_weight jitter n st'
      end
  end.

(** The agents of the population, in population order. *)
Definition population (st : State) : list (option Agent) :=
  match self_agents st with
  | Some l => map (fun r => heap (world st) !! r) l
  | None => []
  end.

Definition final_positions (st : State) : list (option V3) :=
  map (option_map position) (population st).

Definition final_velocities (st : State) : list (option V3) :=
  map (option_map velocity) (population st).

Definition population_size (st : State) : nat := length (population st).

(** The agent with another id, and the heap in which the object at index
    [r] carries the id [u r]. *)
Definition set_id (a : Agent) (i : N) : Agent :=
  mkAgent i (position a) (velocity a) (age a) (is_alive a) (path a) (uv a)
    (curvature_mean a) (curvature_dir a) (slope_vector a) (slope_magnitude a)
    (neighbors a).

Definition reheap (u : nat -> N) (h : Heap) : Heap :=
  imap (fun r a => set_id a (u r)) h.

(** The state of the component when the population is a list of objects of
    the heap. *)
Definition state_ok (st : State) : Prop :=
  match self_agents st with
  | Some l => refs_valid (heap (world st)) l
  | None => True
  end.

(** The world and the state of the component with the ids of the uuid
    source [u]. *)
Definition reworld (u : nat -> N) (w : World) : World :=
  mkWorld (reheap u (heap w)) (rng w).

Definition restate (u : nat -> N) (st : State) : State :=
  mkState (reworld u (world st)) (self_agents st).

(** Another uuid source. *)
Definition other_uuid4 (k : nat) : N := N.of_nat (7 * k + 3).

(** The population is a list of distinct objects of the heap. *)
Definition population_ok (st : State) : Prop :=
  match self_agents st with
  | Some l => NoDup l /\ refs_valid (heap (world st)) l
  | None => True
  end.

(** ** The decision stage in floating-point arithmetic

    The vector helpers above are exact.  The helpers [Agent.decide] calls
    round their results; the decision stage is therefore also given over any
    implementation of them, of which the exact one is an instance. *)

(** The vector helpers of rhinoscriptsyntax that [Agent.decide] calls. *)
Record VectorOps : Type := mkVectorOps {
  vlength : V3 -> R;            (* rs.VectorLength *)
  vunitize : V3 -> option V3;   (* rs.VectorUnitize *)
  vscale : V3 -> R -> V3;       (* rs.VectorScale *)
  vadd : V3 -> V3 -> V3;        (* rs.VectorAdd *)
  vcreate : V3 -> V3 -> V3      (* rs.VectorCreate *)
}.

(** The helpers without rounding. *)
Definition exact_ops : VectorOps :=
  mkVectorOps VectorLength VectorUnitize VectorScale VectorAdd VectorCreate.

(** The helpers are accurate to the relative error [eps]: the length is
    within [eps] of the true length, relative to it; the unitized vector is
    within [eps] of the true unit vector, and only the zero vector has none;
    a scaled vector and a sum are within [eps] of the true one, relative to
    its length.  IEEE doubles meet this with an [eps] of a few units in the
    last place wherever no intermediate result overflows or underflows. *)
Record accurate (eps : R) (o : VectorOps) : Prop := mkAccurate {
  vlength_accurate : forall v,
    Rabs (vlength o v - VectorLength v) <= eps * VectorLength v;
  vunitize_defined : forall v,
    vunitize o v = None <-> VectorLength v = 0;
  vunitize_accurate : forall v u,
    vunitize o v = Some u ->
    VectorLength (VectorCreate u (V3_normalize v)) <= eps;
  vscale_accurate : forall v s,
    VectorLength (VectorCreate (vscale o v s) (VectorScale v s))
    <= eps * VectorLength (VectorScale v s);
  vadd_accurate : forall a b,
    VectorLength (VectorCreate (vadd o a b) (VectorAdd a b))
    <= eps * VectorLength (VectorAdd a b)
}.

Section DecideWith.

Variable o : VectorOps.

(** Curvature alignment (lines 171-174). *)
Definition curvature_alignment_with (self : Agent) (alignment_weight : R)
    (v : V3) : option V3 :=
  if Rgt_dec (vlength o (curvature_dir self)) 1e-6 then
    let align_w :=
      alignment_weight *
      (if Rlt_dec (Rabs (curvature_mean self)) 0.1 then 4 else 1) in
    match vunitize o (curvature_dir self) with
    | None => None
    | Some c_dir => Some (vadd o v (vscale o c_dir align_w))
    end
  else Some v.

(** The loop of the separation term (lines 179-182). *)
Fixpoint accumulate_away_with (h : Heap) (self : Agent)
    (nbs : list (Ref * R)) (away : V3) : option V3 :=
  match nbs with
  | [] => Some away
  | (r, dist) :: rest =>
      match h !! r with
      | None => None
      | Some other =>
          let vec := vcreate o (position self) (position other) in
          if Rgt_dec (vlength o vec) 1e-9 then
            match vunitize o vec with
            | None => None
            | Some u =>
                accumulate_away_with h self rest
                  (vadd o away (vscale o u (1 / Rmax dist 1e-6)))
            end
          else accumulate_away_with h self rest away
      end
  end.

(** Separation (lines 177-187). *)
Definition separation_with (h : Heap) (self : Agent) (separation_weight : R)
    (v : V3) : option V3 :=
  match neighbors self with
  | [] => Some v
  | _ :: _ =>
      match accumulate_away_with h self (neighbors self) V3_zero with
      | None => None
      | Some away =>
          if Rgt_dec (vlength o away) 1e-9 then
            match vunitize o away with
            | None => None
            | Some u => Some (vadd o v (vscale o u separation_weight))
            end
          else Some v
      end
  end.

(** Speed clamp (lines 190-192). *)
Definition clamp_speed_with (max_speed : R) (v : V3) : option V3 :=
  let speed := vlength o v in
  if Rgt_dec speed max_speed then
    match vunitize o v with
    | None => None
    | Some u => Some (vscale o u max_speed)
    end
  else Some v.

(** Jitter if stuck (lines 195-199). *)
Definition jitter_if_stuck_with (jitter : R) (v : V3) (g : Rng) : V3 * Rng :=
  if Rlt_dec (vlength o v) 1e-4 then
    let '(jx, g1) := uniform (- jitter) jitter g in
    let '(jy, g2) := uniform (- jitter) jitter g1 in
    (vadd o v (mkV3 jx jy 0), g2)
  else (v, g).

(** [Agent.decide] (lines 159-199). *)
Definition decide_with (h : Heap) (self : Agent)
    (max_speed max_slope alignment_weight separation_weight jitter : R)
    (g : Rng) : option (Agent * Rng) :=
  if negb (is_alive self) then Some (self, g)
  else
    let v1 := vscale o (velocity self) (slope_resistance self max_slope) in
    match curvature_alignment_with self alignment_weight v1 with
    | None => None
    | Some v2 =>
        match separation_with h self separation_weight v2 with
        | None => None
        | Some v3 =>
            match clamp_speed_with max_speed v3 with
            | None => None
            | Some v4 =>
                let '(v5, g') := jitter_if_stuck_with jitter v4 g in
                Some (set_velocity self v5, g')
            end
        end
    end.

End DecideWith.

(** Helpers that round: every scaled vector is a thousandth too long. *)
Definition long_ops : VectorOps :=
  mkVectorOps VectorLength VectorUnitize
    (fun v s => VectorScale v (s * (1 + / 1000))) VectorAdd VectorCreate.

(** An agent moving along x at speed 3. *)
Definition runner : Agent := Agent_init 1%N V3_zero (mkV3 3 0 0).

(** ** The rest of agent_builder.py and agent_simulator.py *)

(** [generate_random_point_on_surface(surface)] (lines 49-57), which
    [build_agents] calls once for every agent. *)
Definition generate_random_point_on_surface (surface : option Surface)
    (g : Rng) : option V3 * Rng :=
  match surface with
  | None => (None, g)
  | Some s =>
      let '(u, g1) :=
        uniform (fst (SurfaceDomain s false)) (snd (SurfaceDomain s false)) g in
      let '(v, g2) :=
        uniform (fst (SurfaceDomain s true)) (snd (SurfaceDomain s true)) g1 in
      (Some (EvaluateSurface s u v), g2)
  end.

(** The objects a list of references denotes ([None] if one is not in the
    heap). *)
Fixpoint deref (h : Heap) (l : list Ref) : option (list Agent) :=
  match l with
  | [] => Some []
  | r :: rest =>
      match h !! r, deref h rest with
      | Some a, Some objs => Some (a :: objs)
      | _, _ => None
      end
  end.

(** [if agent.path] (line 46): the path is not empty. *)
Definition path_nonempty (a : Agent) : bool :=
  match path a with [] => false | _ :: _ => true end.

(** The object is alive. *)
Definition alive_in (h : Heap) (r : Ref) : bool :=
  match h !! r with Some a => is_alive a | None => false end.

(** The samples [random.random()] returns lie in the unit interval. *)
Definition unit_tape (g : Rng) : Prop := forall n, 0 <= tape g n <= 1.

Section SimulatorOutputs.

(** [rs.AddLine(start, end)]: the id of the line added to the document, or
    [None] when the call raises (the [except] clause of line 42 then appends
    [None]). *)
Variable AddLine : V3 -> V3 -> option N.

Variable uuid4 : nat -> N.
Variable random_seed : Z -> nat -> R.

(** Lines 39-43 for one agent. *)
Definition output_vector (a : Agent) : option N :=
  AddLine (position a) (PointAdd (position a) (velocity a)).

(** The outputs of the script. *)
Record Outputs : Type := mkOutputs {
  out_agents : list Ref;
  out_points : list V3;
  out_vectors : list (option N);
  out_paths : list (list V3)
}.

(** Lines 30-57: the visualisation of the list [agents]. *)
Definition simulator_outputs (h : Heap) (agents : list Ref) : option Outputs :=
  match deref h agents with
  | None => None
  | Some objs =>
      Some (mkOutputs agents (map position objs) (map output_vector objs)
              (map path (List.filter path_nonempty objs)))
  end.

(** agent_simulator.py as a whole: the step, then the outputs. *)
Definition simulator_script (start_surface : option Surface) (st : State)
  : option (Outputs * State) :=
  match simulator_step uuid4 start_surface st with
  | None => None
  | Some (agents, st') =>
      match simulator_outputs (heap (world st')) agents with
      | None => None
      | Some out => Some (out, st')
      end
  end.

(** One recompute of the Grasshopper definition: the builder component,
    then the simulator component downstream of it. *)
Definition recompute (seed : option Z) (N : Z) (reset : bool)
    (start_surface : option Surface) (vision_radius : option R)
    (max_speed max_slope alignment_weight separation_weight jitter : R)
    (simulator_surface : option Surface) (st : State)
  : option (Outputs * State) :=
  match RunScript uuid4 random_seed seed N reset start_surface vision_radius
          max_speed max_slope alignment_weight separation_weight jitter st with
  | None => None
  | Some st1 => simulator_script simulator_surface st1
  end.

End SimulatorOutputs.

(** The age of an object counts the steps of its path, and an object is
    older than [max_age] only by the step that killed it. *)
Definition age_ok (p : Params) (a : Agent) : Prop :=
  (0 <= age a)%Z /\ Z.of_nat (length (path a)) = (age a + 1)%Z /\
  (age a <= Z.max 0 (max_age p) + (if is_alive a then 0 else 1))%Z.

(** The cached slope magnitude is the length of the cached slope vector. *)
Definition slope_ok (a : Agent) : Prop :=
  slope_magnitude a = VectorLength (slope_vector a).

(** The population [RunScript] steps and the world it starts from (lines
    278-281): the population kept from the last call, or a new one. *)
Definition RunScript_start (uuid4 : nat -> N) (random_seed : Z -> nat -> R)
    (seed : option Z) (N : Z) (reset : bool) (start_surface : option Surface)
    (st : State) : list Ref * World :=
  let w0 := mkWorld (heap (world st))
              (seed_everything random_seed seed (rng (world st))) in
  match self_agents st with
  | Some l => if reset then build_agents uuid4 N start_surface w0 else (l, w0)
  | None => build_agents uuid4 N start_surface w0
  end.

(** A population with a dead agent at the origin and a living one three
    units away. *)
Definition fallen : Agent := set_is_alive apart0 false.
Definition fallen_state : State :=
  mkState (mkWorld [fallen; apart1] zero_tape) (Some [0; 1]%nat).

(** An agent as [build_agents] makes it: a new agent at a point of the
    surface whose parameters lie in the domain, with a velocity of at most
    0.05 along x and along y and none along z. *)
Definition built_on (s : Surface) (a : Agent) : Prop :=
  exists u v vx vy,
    a = Agent_init (id a) (EvaluateSurface s u v) (mkV3 vx vy 0) /\
    fst (SurfaceDomain s false) <= u <= snd (SurfaceDomain s false) /\
    fst (SurfaceDomain s true) <= v <= snd (SurfaceDomain s true) /\
    Rabs vx <= 0.05 /\ Rabs vy <= 0.05.

(** The seeds [seed_everything] accepts: [np.random.seed(seed)] (line 40)
    raises for an integer below 0 or above 2^32 - 1. *)
Definition seed_in_range (seed : option Z) : Prop :=
  match seed with
  | Some s => (0 <= s < 2 ^ 32)%Z
  | None => True
  end.
(** * Properties *)

(** ** Vectors *)

Lemma sum_squares_nonneg (v : V3) : 0 <= X v * X v + Y v * Y v + Z3 v * Z3 v.
Proof. nra. Qed.

Lemma VectorLength_nonneg (v : V3) : 0 <= VectorLength v.
Proof. apply sqrt_pos. Qed.

Lemma VectorLength_zero : VectorLength V3_zero = 0.
Proof.
  unfold VectorLength, V3_zero; simpl.
  replace (0 * 0 + 0 * 0 + 0 * 0) with 0 by lra. apply sqrt_0.
Qed.

Lemma VectorLength_eq_0 (v : V3) : VectorLength v = 0 -> v = V3_zero.
Proof.
  unfold VectorLength. intros H.
  apply sqrt_eq_0 in H; [|apply sum_squares_nonneg].
  destruct v as [x y z]; simpl in *. unfold V3_zero.
  assert (x = 0) by nra. assert (y = 0) by nra. assert (z = 0) by nra.
  congruence.
Qed.

Lemma VectorLength_sqr (v : V3) :
  VectorLength v * VectorLength v = X v * X v + Y v * Y v + Z3 v * Z3 v.
Proof. apply sqrt_sqrt, sum_squares_nonneg. Qed.

(** The length of a vector from its squared length. *)
Lemma VectorLength_val (v : V3) (l : R) :
  0 <= l -> X v * X v + Y v * Y v + Z3 v * Z3 v = l * l -> VectorLength v = l.
Proof.
  intros Hl H. unfold VectorLength. rewrite H. now apply sqrt_square.
Qed.

Lemma VectorLength_scale (v : V3) (s : R) :
  VectorLength (VectorScale v s) = Rabs s * VectorLength v.
Proof.
  apply VectorLength_val.
  - apply Rmult_le_pos; [apply Rabs_pos | apply VectorLength_nonneg].
  - simpl.
    replace (Rabs s * VectorLength v * (Rabs s * VectorLength v))
      with ((Rabs s * Rabs s) * (VectorLength v * VectorLength v)) by ring.
    rewrite VectorLength_sqr.
    replace (Rabs s * Rabs s) with (s * s).
    + ring.
    + unfold Rabs. destruct (Rcase_abs s); ring.
Qed.

Lemma VectorUnitize_length (v u : V3) :
  VectorUnitize v = Some u -> VectorLength u = 1.
Proof.
  unfold VectorUnitize. destruct (Rlt_dec 0 (VectorLength v)) as [Hpos|]; [|discriminate].
  intros [= <-]. rewrite VectorLength_scale.
  rewrite Rabs_pos_eq by (left; now apply Rinv_0_lt_compat).
  field. lra.
Qed.

Lemma VectorUnitize_pos (v : V3) :
  0 < VectorLength v -> VectorUnitize v = Some (VectorScale v (/ VectorLength v)).
Proof.
  intros H. unfold VectorUnitize. destruct (Rlt_dec 0 (VectorLength v)); [reflexivity|contradiction].
Qed.

Lemma Distance_nonneg (p q : V3) : 0 <= Distance p q.
Proof. apply VectorLength_nonneg. Qed.

Lemma Distance_eq_0 (p q : V3) : Distance p q = 0 <-> p = q.
Proof.
  unfold Distance. split.
  - intros H. apply VectorLength_eq_0 in H.
    destruct p as [a b c], q as [d e f]. unfold VectorCreate, V3_zero in H.
    simpl in H. injection H as H1 H2 H3.
    f_equal; lra.
  - intros ->. apply VectorLength_val; [lra|]. simpl. ring.
Qed.

(** ** Sensing *)

Lemma scan_neighbors_total (h : Heap) (self : Agent) (r : R) (agents : list Ref) :
  refs_valid h agents -> exists nb, scan_neighbors h self r agents = Some nb.
Proof.
  induction 1 as [|o rest Ho _ IH]; cbn [scan_neighbors]; [eauto|].
  destruct (lookup_lt_is_Some_2 h o Ho) as [other ->].
  destruct IH as [tl ->].
  destruct (N.eqb _ _); [eauto|].
  destruct (Rle_dec _ _); eauto.
Qed.

Lemma sense_total (h : Heap) (self : Agent) (agents : list Ref)
    (surface : option Surface) (vr : option R) :
  refs_valid h agents -> exists a, sense h self agents surface vr = Some a.
Proof.
  intros Hv. unfold sense. destruct vr as [r|]; [|eauto].
  destruct (scan_neighbors_total h (set_neighbors (sense_geometry self surface) []) r agents Hv)
    as [nb ->]. eauto.
Qed.

(** What the scan records: the other agents (by id) within the radius, with
    their distance, in the order of [agents]. *)
Lemma scan_neighbors_elem (h : Heap) (self : Agent) (r : R) (agents : list Ref)
    (nb : list (Ref * R)) (o : Ref) (d : R) :
  scan_neighbors h self r agents = Some nb ->
  In (o, d) nb ->
  In o agents /\
  exists other, h !! o = Some other /\ id other <> id self /\
    d = Distance (position self) (position other) /\ d <= r.
Proof.
  revert nb. induction agents as [|o' rest IH]; cbn [scan_neighbors]; intros nb Hs Hin.
  - injection Hs as <-. destruct Hin.
  - destruct (h !! o') as [other|] eqn:Ho; [|discriminate].
    destruct (scan_neighbors h self r rest) as [tl|]; [|discriminate].
    destruct (N.eqb (id other) (id self)) eqn:Hid.
    + injection Hs as <-. destruct (IH tl eq_refl Hin) as [? ?].
      split; [now right | assumption].
    + apply N.eqb_neq in Hid.
      destruct (Rle_dec _ _) as [Hle|Hgt]; injection Hs as <-.
      * destruct Hin as [Heq|Hin].
        -- injection Heq as <- <-. split; [now left|]. exists other. auto.
        -- destruct (IH tl eq_refl Hin) as [? ?].
           split; [now right | assumption].
      * destruct (IH tl eq_refl Hin) as [? ?].
        split; [now right | assumption].
Qed.

Lemma scan_neighbors_none_within (h : Heap) (self : Agent) (r : R)
    (agents : list Ref) (nb : list (Ref * R)) :
  scan_neighbors h self r agents = Some nb ->
  (forall o other, In o agents -> h !! o = Some other ->
     id other <> id self -> r < Distance (position self) (position other)) ->
  nb = [].
Proof.
  intros Hs Hfar. destruct nb as [|[o d] tl]; [reflexivity|].
  destruct (scan_neighbors_elem _ _ _ _ _ o d Hs (or_introl eq_refl))
    as (Hin & other & Ho & Hid & -> & Hle).
  specialize (Hfar o other Hin Ho Hid). lra.
Qed.

Lemma sense_geometry_position (a : Agent) (surface : option Surface) :
  position (sense_geometry a surface) = position a.
Proof.
  unfold sense_geometry. destruct (get_uv surface (position a)); [|reflexivity].
  destruct (sample_curvature _ _), (sample_slope _ _ _). reflexivity.
Qed.

Lemma sense_geometry_id (a : Agent) (surface : option Surface) :
  id (sense_geometry a surface) = id a.
Proof.
  unfold sense_geometry. destruct (get_uv surface (position a)); [|reflexivity].
  destruct (sample_curvature _ _), (sample_slope _ _ _). reflexivity.
Qed.

(** Evaluation of the comparisons of real numbers in a goal whose operands
    are known. *)
Ltac Rdecide :=
  repeat match goal with
  | |- context [Rle_dec ?a ?b] =>
      destruct (Rle_dec a b) as [?|?]; try (exfalso; lra)
  | |- context [Rlt_dec ?a ?b] =>
      destruct (Rlt_dec a b) as [?|?]; try (exfalso; lra)
  | |- context [Rgt_dec ?a ?b] =>
      destruct (Rgt_dec a b) as [?|?]; try (exfalso; lra)
  | |- context [Req_dec_T ?a ?b] =>
      destruct (Req_dec_T a b) as [?|?]; try (exfalso; lra)
  end.

(** C9 as stated fails: with [vision_radius = 0] an agent at the same point
    as the sensing agent is at distance [0 <= 0] and is recorded as a
    neighbour. *)
Lemma sense_radius_zero_coincident :
  exists a', sense twin_heap twin0 [0; 1]%nat None (Some 0) = Some a' /\
             neighbors a' = [(1%nat, 0)].
Proof.
  eexists. unfold sense, twin_heap. cbn.
  rewrite (proj2 (Distance_eq_0 V3_zero V3_zero) eq_refl).
  Rdecide. split; reflexivity.
Qed.

(** C9 (amended): an unset vision radius gives no neighbours; with
    [vision_radius = 0] the neighbours are other agents at distance 0, that
    is at the very position of the sensing agent, and there are none when
    no other agent of the population is at that position. *)
Theorem sense_radius_zero (h : list Agent) (self : Agent) (agents : list nat)
    (surface : option Surface) :
  refs_valid h agents ->
  (exists a', sense h self agents surface None = Some a' /\ neighbors a' = []) /\
  (exists a', sense h self agents surface (Some 0) = Some a' /\
     (forall o d, In (o, d) (neighbors a') ->
        d = 0 /\ In o agents /\
        exists other, h !! o = Some other /\ id other <> id self /\
                      position other = position self) /\
     ((forall o other, In o agents -> h !! o = Some other ->
         id other <> id self -> position other <> position self) ->
      neighbors a' = [])).
Proof.
  intros Hv. split.
  - eexists. split; reflexivity.
  - unfold sense.
    set (a := set_neighbors (sense_geometry self surface) []).
    assert (Hpos : position a = position self) by apply sense_geometry_position.
    assert (Hid : id a = id self) by apply sense_geometry_id.
    destruct (scan_neighbors_total h a 0 agents Hv) as [nb Hnb]. rewrite Hnb.
    eexists. split; [reflexivity|]. cbn [neighbors set_neighbors]. split.
    + intros o d Hin.
      destruct (scan_neighbors_elem _ _ _ _ _ _ _ Hnb Hin)
        as (Hino & other & Ho & Hne & Hd & Hle).
      pose proof (Distance_nonneg (position a) (position other)) as Hge.
      assert (d = 0) as -> by lra.
      split; [reflexivity|]. split; [assumption|].
      exists other. rewrite <- Hid, <- Hpos. repeat split; try assumption.
      symmetry. now apply Distance_eq_0.
    + intros Hfar. apply (scan_neighbors_none_within _ _ _ _ _ Hnb).
      intros o other Hino Ho Hne.
      pose proof (Distance_nonneg (position a) (position other)) as Hge.
      destruct (Req_dec_T (Distance (position a) (position other)) 0) as [H0|H0];
        [|lra].
      apply Distance_eq_0 in H0. exfalso.
      apply (Hfar o other Hino Ho); congruence.
Qed.

Lemma sense_radius_zero_witness :
  refs_valid apart_heap [0; 1]%nat /\
  exists a', sense apart_heap apart0 [0; 1]%nat None (Some 0) = Some a' /\
             neighbors a' = [].
Proof.
  assert (Hv : refs_valid apart_heap [0; 1]%nat).
  { repeat constructor. }
  split; [exact Hv|].
  destruct (sense_radius_zero apart_heap apart0 [0; 1]%nat None Hv)
    as [_ (a' & Hs & _ & Hempty)].
  exists a'. split; [exact Hs|]. apply Hempty.
  intros o other Hin Ho Hne Hpos.
  destruct o as [|[|o]]; cbn in Ho; try discriminate;
    injection Ho as <-; cbn in Hne, Hpos.
  - now apply Hne.
  - injection Hpos as Hx. lra.
Defined.

(** C10 as stated fails for [surfaceCoord]: sensing assigns the result of
    the projection to [uv] before testing it, so a failed projection
    replaces the coordinate of an earlier step by [None]. *)
Lemma sense_failed_projection_clears_uv :
  get_uv (Some no_projection) (position projected_agent) = None /\
  uv projected_agent = Some (1, 2) /\
  exists a', sense [projected_agent] projected_agent [0%nat]
               (Some no_projection) (Some 1) = Some a' /\
             uv a' = None.
Proof.
  split; [reflexivity|]. split; [reflexivity|].
  eexists. unfold sense. cbn. split; reflexivity.
Qed.

(** ** The decision stage never fails on a well-formed agent *)

Lemma VectorUnitize_gt (v : V3) (eps : R) :
  0 <= eps -> VectorLength v > eps -> exists u, VectorUnitize v = Some u.
Proof.
  intros He Hgt. rewrite VectorUnitize_pos by lra. eauto.
Qed.

Lemma curvature_alignment_total (self : Agent) (w : R) (v : V3) :
  exists v', curvature_alignment self w v = Some v'.
Proof.
  unfold curvature_alignment.
  destruct (Rgt_dec (VectorLength (curvature_dir self)) 1e-6) as [Hgt|]; [|eauto].
  destruct (VectorUnitize_gt (curvature_dir self) 1e-6) as [u ->]; [lra|exact Hgt|].
  eauto.
Qed.

Lemma accumulate_away_total (h : list Agent) (self : Agent)
    (nbs : list (nat * R)) (away : V3) :
  neighbors_valid h nbs -> exists v, accumulate_away h self nbs away = Some v.
Proof.
  intros Hv. revert away.
  induction Hv as [|[o dist] rest Ho _ IH]; intros away;
    cbn [accumulate_away]; [eauto|].
  destruct (lookup_lt_is_Some_2 h o Ho) as [other ->].
  destruct (Rgt_dec _ _) as [Hgt|]; [|apply IH].
  destruct (VectorUnitize_gt _ 1e-9 ltac:(lra) Hgt) as [u ->]. apply IH.
Qed.

Lemma separation_total (h : list Agent) (self : Agent) (w : R) (v : V3) :
  neighbors_valid h (neighbors self) -> exists v', separation h self w v = Some v'.
Proof.
  intros Hv. unfold separation.
  destruct (neighbors self) as [|nb rest] eqn:Hn; [eauto|].
  destruct (accumulate_away_total h self (nb :: rest) V3_zero Hv) as [away ->].
  destruct (Rgt_dec _ _) as [Hgt|]; [|eauto].
  destruct (VectorUnitize_gt _ 1e-9 ltac:(lra) Hgt) as [u ->]. eauto.
Qed.

Lemma clamp_speed_total (max_speed : R) (v : V3) :
  0 <= max_speed -> exists v', clamp_speed max_speed v = Some v'.
Proof.
  intros Hm. unfold clamp_speed.
  destruct (Rgt_dec _ _) as [Hgt|]; [|eauto].
  destruct (VectorUnitize_gt v max_speed Hm Hgt) as [u ->]. eauto.
Qed.

Lemma decide_total (h : list Agent) (self : Agent)
    (max_speed max_slope alignment_weight separation_weight jitter : R)
    (g : Rng) :
  neighbors_valid h (neighbors self) -> 0 <= max_speed ->
  exists a' g', decide h self max_speed max_slope alignment_weight
                  separation_weight jitter g = Some (a', g').
Proof.
  intros Hv Hm. unfold decide. destruct (negb (is_alive self)); [eauto|].
  destruct (curvature_alignment_total self alignment_weight
              (VectorScale (velocity self) (slope_resistance self max_slope)))
    as [v2 ->].
  destruct (separation_total h self separation_weight v2 Hv) as [v3 ->].
  destruct (clamp_speed_total max_speed v3 Hm) as [v4 ->].
  destruct (jitter_if_stuck jitter v4 g). eauto.
Qed.

(** [decide] assigns [velocity] and nothing else. *)
Lemma decide_sets_velocity (h : list Agent) (self a' : Agent)
    (max_speed max_slope alignment_weight separation_weight jitter : R)
    (g g' : Rng) :
  decide h self max_speed max_slope alignment_weight separation_weight jitter g
    = Some (a', g') ->
  exists v, a' = set_velocity self v.
Proof.
  unfold decide. destruct (negb (is_alive self)).
  - intros [= <- <-]. exists (velocity self). now destruct self.
  - destruct (curvature_alignment _ _ _) as [v2|]; [|discriminate].
    destruct (separation _ _ _ _) as [v3|]; [|discriminate].
    destruct (clamp_speed _ _) as [v4|]; [|discriminate].
    destruct (jitter_if_stuck _ _ _) as [v5 g5]. intros [= <- <-]. eauto.
Qed.

(** [sense] keeps the identity, the kinematic state and the path. *)
Lemma sense_geometry_frame (a : Agent) (surface : option Surface) :
  let a' := sense_geometry a surface in
  id a' = id a /\ position a' = position a /\ velocity a' = velocity a /\
  age a' = age a /\ is_alive a' = is_alive a /\ path a' = path a /\
  neighbors a' = neighbors a.
Proof.
  unfold sense_geometry. destruct (get_uv surface (position a)); cbn.
  - destruct (sample_curvature _ _), (sample_slope _ _ _). cbn. tauto.
  - tauto.
Qed.

Lemma sense_inv (h : list Agent) (a a1 : Agent) (agents : list nat)
    (surface : option Surface) (vr : option R) :
  sense h a agents surface vr = Some a1 ->
  exists nb, a1 = set_neighbors (sense_geometry a surface) nb /\
    match vr with
    | None => nb = []
    | Some r =>
        scan_neighbors h (set_neighbors (sense_geometry a surface) []) r agents
        = Some nb
    end.
Proof.
  unfold sense. destruct vr as [r|].
  - destruct (scan_neighbors _ _ _ _) as [nb|] eqn:Hs; [|discriminate].
    intros [= <-]. eauto.
  - intros [= <-]. eauto.
Qed.

Lemma scan_neighbors_valid (h : list Agent) (self : Agent) (r : R)
    (agents : list nat) (nb : list (nat * R)) :
  scan_neighbors h self r agents = Some nb -> neighbors_valid h nb.
Proof.
  intros Hs. apply Forall_forall. intros [o d] Hin. cbn.
  apply list_elem_of_In in Hin.
  destruct (scan_neighbors_elem _ _ _ _ _ _ _ Hs Hin) as (_ & other & Ho & _).
  now apply lookup_lt_Some in Ho.
Qed.

Lemma sense_neighbors_valid (h : list Agent) (a a1 : Agent) (agents : list nat)
    (surface : option Surface) (vr : option R) :
  sense h a agents surface vr = Some a1 -> neighbors_valid h (neighbors a1).
Proof.
  intros Hs. destruct (sense_inv _ _ _ _ _ _ Hs) as (nb & -> & Hnb).
  cbn. destruct vr.
  - eapply scan_neighbors_valid; eauto.
  - subst nb. constructor.
Qed.

(** ** Motion *)

Lemma move_alive (a : Agent) (surface : option Surface) :
  is_alive a = true ->
  exists p, move a surface = set_path (set_position a p) (path a ++ [p]).
Proof. intros Ha. unfold move. rewrite Ha. cbn. eauto. Qed.

Lemma move_dead (a : Agent) (surface : option Surface) :
  is_alive a = false -> move a surface = a.
Proof. intros Ha. unfold move. now rewrite Ha. Qed.

(** ** One update of one agent *)

Section UpdateFacts.

Variable uuid4 : nat -> N.

Lemma update_dead (self : nat) (agents : list nat) (surface : option Surface)
    (p : Params) (w : World) (a : Agent) :
  heap w !! self = Some a -> is_alive a = false ->
  update uuid4 self agents surface p w = Some (None, w).
Proof. intros Hl Ha. unfold update. now rewrite Hl, Ha. Qed.

Lemma update_alive_inv (self : nat) (agents : list nat)
    (surface : option Surface) (p : Params) (w w' : World) (a : Agent)
    (res : option nat) :
  heap w !! self = Some a -> is_alive a = true ->
  update uuid4 self agents surface p w = Some (res, w') ->
  exists a1 a2 g2,
    sense (heap w) a agents surface (vision_radius p) = Some a1 /\
    decide (heap w) a1 (max_speed p) (max_slope p) (alignment_weight p)
      (separation_weight p) (jitter p) (rng w) = Some (a2, g2) /\
    let a4 := aged a2 surface in
    if dies p a4 then
      res = None /\
      w' = mkWorld (<[self := set_is_alive a4 false]> (heap w)) g2
    else
      match spawn_step uuid4 (heap w) a4 surface p g2 with
      | (Some c, g') =>
          res = Some (length (heap w)) /\
          w' = mkWorld (<[self := a4]> (heap w) ++ [c]) g'
      | (None, g') =>
          res = None /\ w' = mkWorld (<[self := a4]> (heap w)) g'
      end.
Proof.
  intros Hl Ha. unfold update. rewrite Hl, Ha. cbn [negb].
  destruct (sense _ _ _ _ _) as [a1|] eqn:Hs; [|discriminate].
  destruct (decide _ _ _ _ _ _ _ _) as [[a2 g2]|] eqn:Hd; [|discriminate].
  intros Hu. exists a1, a2, g2. split; [reflexivity|]. split; [exact Hd|].
  cbn zeta. fold (aged a2 surface) in Hu.
  destruct (dies p (aged a2 surface)).
  - injection Hu as <- <-. split; reflexivity.
  - unfold spawn_step. destruct (random g2) as [x g3].
    destruct (Rlt_dec x _).
    + destruct (spawn_agent_near _ _ _ _ _) as [[c|] g4];
        injection Hu as <- <-; split; reflexivity.
    + injection Hu as <- <-. split; reflexivity.
Qed.

Lemma update_total (self : nat) (agents : list nat) (surface : option Surface)
    (p : Params) (w : World) :
  (self < length (heap w))%nat -> refs_valid (heap w) agents ->
  0 <= max_speed p ->
  exists res w', update uuid4 self agents surface p w = Some (res, w').
Proof.
  intros Hs Hv Hm. unfold update.
  destruct (lookup_lt_is_Some_2 _ _ Hs) as [a ->].
  destruct (negb (is_alive a)); [eauto|].
  destruct (sense_total (heap w) a agents surface (vision_radius p) Hv)
    as [a1 Hs1]. rewrite Hs1.
  destruct (decide_total (heap w) a1 (max_speed p) (max_slope p)
              (alignment_weight p) (separation_weight p) (jitter p) (rng w))
    as (a2 & g2 & ->); [eapply sense_neighbors_valid; eauto | exact Hm |].
  cbn zeta. destruct (dies _ _); [eauto|].
  destruct (random g2) as [x g3]. destruct (Rlt_dec _ _); [|eauto].
  destruct (spawn_agent_near _ _ _ _ _) as [[c|] g4]; eauto.
Qed.

End UpdateFacts.

(** The attributes of the agent after sensing, decision, motion and the age
    increment, from the agent [a] the update started with. *)
Lemma aged_fields (h : list Agent) (a a1 a2 : Agent) (agents : list nat)
    (surface : option Surface) (p : Params) (g g2 : Rng) :
  is_alive a = true ->
  sense h a agents surface (vision_radius p) = Some a1 ->
  decide h a1 (max_speed p) (max_slope p) (alignment_weight p)
    (separation_weight p) (jitter p) g = Some (a2, g2) ->
  let a4 := aged a2 surface in
  id a4 = id a /\ age a4 = (age a + 1)%Z /\ is_alive a4 = true /\
  path a4 = path a ++ [position a4] /\
  velocity a4 = velocity a2 /\
  uv a4 = uv (sense_geometry a surface) /\
  curvature_mean a4 = curvature_mean (sense_geometry a surface) /\
  curvature_dir a4 = curvature_dir (sense_geometry a surface) /\
  slope_vector a4 = slope_vector (sense_geometry a surface) /\
  slope_magnitude a4 = slope_magnitude (sense_geometry a surface) /\
  neighbors a4 = neighbors a1.
Proof.
  intros Ha Hs Hd.
  destruct (sense_inv _ _ _ _ _ _ Hs) as (nb & -> & _).
  destruct (decide_sets_velocity _ _ _ _ _ _ _ _ _ _ Hd) as (v & ->).
  destruct (sense_geometry_frame a surface) as (Hid & Hpos & Hvel & Hage & Hal & Hpath & _).
  cbn zeta. unfold aged.
  destruct (move_alive (set_velocity (set_neighbors (sense_geometry a surface) nb) v) surface)
    as [q ->]; [cbn; congruence|].
  cbn. rewrite Hid, Hage, Hal, Hpath, Ha. tauto.
Qed.

(** The agent [update] leaves at [self], for an agent that was alive. *)
Lemma update_alive_result (uuid4 : nat -> N) (self : nat) (agents : list nat)
    (surface : option Surface) (p : Params) (w w' : World) (a : Agent)
    (res : option nat) :
  heap w !! self = Some a -> is_alive a = true ->
  update uuid4 self agents surface p w = Some (res, w') ->
  exists a1 a2 g2,
    sense (heap w) a agents surface (vision_radius p) = Some a1 /\
    decide (heap w) a1 (max_speed p) (max_slope p) (alignment_weight p)
      (separation_weight p) (jitter p) (rng w) = Some (a2, g2) /\
    heap w' !! self =
      Some (set_is_alive (aged a2 surface) (negb (dies p (aged a2 surface)))).
Proof.
  intros Hl Ha Hu.
  destruct (update_alive_inv _ _ _ _ _ _ _ _ _ Hl Ha Hu)
    as (a1 & a2 & g2 & Hs & Hd & Hcase).
  exists a1, a2, g2. split; [exact Hs|]. split; [exact Hd|].
  destruct (aged_fields _ _ _ _ _ _ _ _ _ Ha Hs Hd) as (_ & _ & Hal & _).
  pose proof (lookup_lt_Some _ _ _ Hl) as Hlt.
  cbn zeta in Hcase. destruct (dies p (aged a2 surface)).
  - destruct Hcase as [_ ->]. cbn. now rewrite list_lookup_insert_eq.
  - assert (Heta : set_is_alive (aged a2 surface) (negb false) = aged a2 surface).
    { cbn. rewrite <- Hal. now destruct (aged a2 surface). }
    rewrite Heta.
    destruct (spawn_step _ _ _ _ _ _) as [[c|] g']; destruct Hcase as [_ ->]; cbn.
    + rewrite lookup_app_l by now rewrite length_insert.
      now rewrite list_lookup_insert_eq.
    + now rewrite list_lookup_insert_eq.
Qed.

(** C6: an agent that is alive when its update starts is dead after the
    update exactly when its incremented age exceeds [max_age] or the slope
    magnitude it sensed exceeds [slope_kill]; a sensed slope above
    [slope_kill] kills whatever the age. *)
Theorem update_death_rule (uuid4 : nat -> N) (self : nat) (agents : list nat)
    (surface : option Surface) (p : Params) (w : World) (a : Agent) :
  heap w !! self = Some a -> is_alive a = true ->
  refs_valid (heap w) agents -> 0 <= max_speed p ->
  exists res w' a',
    update uuid4 self agents surface p w = Some (res, w') /\
    heap w' !! self = Some a' /\
    age a' = (age a + 1)%Z /\
    slope_magnitude a' = slope_magnitude (sense_geometry a surface) /\
    (is_alive a' = false <->
     (max_age p < age a')%Z \/ slope_magnitude a' > slope_kill p) /\
    (slope_magnitude (sense_geometry a surface) > slope_kill p ->
     is_alive a' = false).
Proof.
  intros Hl Ha Hv Hm.
  destruct (update_total uuid4 self agents surface p w) as (res & w' & Hu);
    [eapply lookup_lt_Some; eauto | assumption | assumption |].
  destruct (update_alive_result _ _ _ _ _ _ _ _ _ Hl Ha Hu)
    as (a1 & a2 & g2 & Hs & Hd & Hl').
  destruct (aged_fields _ _ _ _ _ _ _ _ _ Ha Hs Hd)
    as (_ & Hage & _ & _ & _ & _ & _ & _ & _ & Hslope & _).
  exists res, w', (set_is_alive (aged a2 surface) (negb (dies p (aged a2 surface)))).
  split; [exact Hu|]. split; [exact Hl'|]. cbn.
  split; [exact Hage|]. split; [exact Hslope|].
  assert (Hiff : negb (dies p (aged a2 surface)) = false <->
                 (max_age p < age (aged a2 surface))%Z \/
                 slope_magnitude (aged a2 surface) > slope_kill p).
  { unfold dies. destruct (Rgt_dec _ _) as [Hgt|Hle];
      destruct (Z.ltb_spec (max_age p) (age (aged a2 surface)));
      cbn [negb orb]; intuition (try discriminate; try lia; try lra). }
  split; [exact Hiff|].
  intros Hgt. apply Hiff. right. now rewrite Hslope.
Qed.

Lemma update_death_rule_witness :
  let w := mkWorld [projected_agent] (mkRng (fun _ => 0) 0) in
  heap w !! 0%nat = Some projected_agent /\
  is_alive projected_agent = true /\
  refs_valid (heap w) [0%nat] /\ 0 <= max_speed default_params /\
  exists res w' a',
    update (fun k => N.of_nat k) 0 [0%nat] None default_params w
      = Some (res, w') /\
    heap w' !! 0%nat = Some a' /\ age a' = 4%Z.
Proof.
  cbn zeta.
  assert (Hv : refs_valid [projected_agent] [0%nat]) by (repeat constructor).
  assert (Hm : 0 <= max_speed default_params) by (cbn; lra).
  split; [reflexivity|]. split; [reflexivity|]. split; [exact Hv|].
  split; [exact Hm|].
  destruct (update_death_rule (fun k => N.of_nat k) 0 [0%nat] None default_params
              (mkWorld [projected_agent] (mkRng (fun _ => 0) 0))
              projected_agent eq_refl eq_refl Hv Hm)
    as (res & w' & a' & Hu & Hl & Hage & _).
  exists res, w', a'. split; [exact Hu|]. split; [exact Hl|]. exact Hage.
Defined.

(** ** Failed projection *)

Lemma sense_geometry_failed (a : Agent) (surface : option Surface) :
  get_uv surface (position a) = None -> sense_geometry a surface = set_uv a None.
Proof. intros H. unfold sense_geometry. now rewrite H. Qed.

(** C10 (amended): when the projection of the position fails, sensing raises
    no error and leaves [curvature_mean], [curvature_dir], [slope_vector] and
    [slope_magnitude] as they were, while [uv] (the surface coordinate)
    becomes [None]; the whole update of the agent then completes (for a
    non-negative [max_speed]) and the agent it leaves still carries these
    four values. *)
Theorem failed_projection_keeps_cached_geometry (uuid4 : nat -> N) (self : nat)
    (agents : list nat) (surface : option Surface) (p : Params) (w : World)
    (a : Agent) :
  heap w !! self = Some a -> is_alive a = true ->
  refs_valid (heap w) agents -> 0 <= max_speed p ->
  get_uv surface (position a) = None ->
  (exists a1,
     sense (heap w) a agents surface (vision_radius p) = Some a1 /\
     uv a1 = None /\
     curvature_mean a1 = curvature_mean a /\
     curvature_dir a1 = curvature_dir a /\
     slope_vector a1 = slope_vector a /\
     slope_magnitude a1 = slope_magnitude a) /\
  (exists res w' a',
     update uuid4 self agents surface p w = Some (res, w') /\
     heap w' !! self = Some a' /\
     uv a' = None /\
     curvature_mean a' = curvature_mean a /\
     curvature_dir a' = curvature_dir a /\
     slope_vector a' = slope_vector a /\
     slope_magnitude a' = slope_magnitude a).
Proof.
  intros Hl Ha Hv Hm Hfail.
  pose proof (sense_geometry_failed a surface Hfail) as Hg.
  split.
  - destruct (sense_total (heap w) a agents surface (vision_radius p) Hv)
      as [a1 Hs].
    exists a1. split; [exact Hs|].
    destruct (sense_inv _ _ _ _ _ _ Hs) as (nb & -> & _).
    rewrite Hg. cbn. tauto.
  - destruct (update_total uuid4 self agents surface p w) as (res & w' & Hu);
      [eapply lookup_lt_Some; eauto | assumption | assumption |].
    destruct (update_alive_result _ _ _ _ _ _ _ _ _ Hl Ha Hu)
      as (a1 & a2 & g2 & Hs & Hd & Hl').
    destruct (aged_fields _ _ _ _ _ _ _ _ _ Ha Hs Hd)
      as (_ & _ & _ & _ & _ & Huv & Hcm & Hcd & Hsv & Hsm & _).
    rewrite Hg in Huv, Hcm, Hcd, Hsv, Hsm.
    eexists res, w', _. split; [exact Hu|]. split; [exact Hl'|].
    cbn [uv curvature_mean curvature_dir slope_vector slope_magnitude
         set_is_alive].
    cbn in Huv, Hcm, Hcd, Hsv, Hsm. tauto.
Qed.

Lemma failed_projection_keeps_cached_geometry_witness :
  let w := mkWorld [projected_agent] (mkRng (fun _ => 0) 0) in
  heap w !! 0%nat = Some projected_agent /\
  is_alive projected_agent = true /\
  refs_valid (heap w) [0%nat] /\
  0 <= max_speed default_params /\
  get_uv (Some no_projection) (position projected_agent) = None /\
  exists res w' a',
    update (fun k => N.of_nat k) 0 [0%nat] (Some no_projection)
      default_params w = Some (res, w') /\
    heap w' !! 0%nat = Some a' /\
    uv a' = None /\ curvature_mean a' = 0.3 /\ slope_magnitude a' = 1.
Proof.
  cbn zeta.
  assert (Hv : refs_valid [projected_agent] [0%nat]) by (repeat constructor).
  assert (Hm : 0 <= max_speed default_params) by (cbn; lra).
  split; [reflexivity|]. split; [reflexivity|]. split; [exact Hv|].
  split; [exact Hm|]. split; [reflexivity|].
  destruct (failed_projection_keeps_cached_geometry (fun k => N.of_nat k) 0
              [0%nat] (Some no_projection) default_params
              (mkWorld [projected_agent] (mkRng (fun _ => 0) 0))
              projected_agent eq_refl eq_refl Hv Hm eq_refl)
    as [_ (res & w' & a' & Hu & Hl & Huv & Hcm & _ & _ & Hsm)].
  exists res, w', a'. repeat split; assumption.
Defined.

(** ** The heap across one update *)

Section HeapFacts.

Variable uuid4 : nat -> N.

(** An update writes the object [self], appends at most one new object and
    leaves every other object as it was. *)
Lemma update_heap_shape (self : nat) (agents : list nat)
    (surface : option Surface) (p : Params) (w w' : World) (res : option nat) :
  update uuid4 self agents surface p w = Some (res, w') ->
  exists a a' new,
    heap w !! self = Some a /\
    heap w' = <[self := a']> (heap w) ++ new /\
    (new = [] /\ res = None \/
     exists c, new = [c] /\ res = Some (length (heap w)) /\
               is_alive a = true /\ is_alive a' = true).
Proof.
  intros Hu.
  destruct (heap w !! self) as [a|] eqn:Hl;
    [|unfold update in Hu; rewrite Hl in Hu; discriminate].
  destruct (is_alive a) eqn:Ha.
  - destruct (update_alive_inv _ _ _ _ _ _ _ _ _ Hl Ha Hu)
      as (a1 & a2 & g2 & Hs & Hd & Hcase).
    destruct (aged_fields _ _ _ _ _ _ _ _ _ Ha Hs Hd) as (_ & _ & Hal & _).
    cbn zeta in Hcase. destruct (dies p (aged a2 surface)).
    + destruct Hcase as [-> ->]. eexists a, _, []. cbn [heap].
      rewrite app_nil_r. split; [reflexivity|]. split; [reflexivity|]. now left.
    + destruct (spawn_step _ _ _ _ _ _) as [[c|] g']; destruct Hcase as [-> ->];
        cbn [heap].
      * eexists a, _, [c]. split; [reflexivity|]. split; [reflexivity|].
        right. exists c. repeat split; assumption.
      * eexists a, _, []. rewrite app_nil_r.
        split; [reflexivity|]. split; [reflexivity|]. now left.
  - rewrite (update_dead _ _ _ _ _ _ _ Hl Ha) in Hu. injection Hu as <- <-.
    exists a, a, []. rewrite app_nil_r, list_insert_id by exact Hl.
    split; [reflexivity|]. split; [reflexivity|]. now left.
Qed.

Lemma update_length (self : nat) (agents : list nat)
    (surface : option Surface) (p : Params) (w w' : World) (res : option nat) :
  update uuid4 self agents surface p w = Some (res, w') ->
  (length (heap w) <= length (heap w'))%nat.
Proof.
  intros Hu. destruct (update_heap_shape _ _ _ _ _ _ _ Hu)
    as (a & a' & new & _ & -> & _).
  rewrite length_app, length_insert. lia.
Qed.

Lemma update_frame (self : nat) (agents : list nat)
    (surface : option Surface) (p : Params) (w w' : World) (res : option nat)
    (r : nat) :
  update uuid4 self agents surface p w = Some (res, w') ->
  r <> self -> (r < length (heap w))%nat ->
  heap w' !! r = heap w !! r.
Proof.
  intros Hu Hne Hlt. destruct (update_heap_shape _ _ _ _ _ _ _ Hu)
    as (a & a' & new & _ & -> & _).
  rewrite lookup_app_l by now rewrite length_insert.
  now apply list_lookup_insert_ne.
Qed.

Lemma update_self_valid (self : nat) (agents : list nat)
    (surface : option Surface) (p : Params) (w w' : World) (res : option nat) :
  update uuid4 self agents surface p w = Some (res, w') ->
  (self < length (heap w))%nat.
Proof.
  intros Hu. destruct (update_heap_shape _ _ _ _ _ _ _ Hu)
    as (a & _ & _ & Hl & _). eapply lookup_lt_Some; eauto.
Qed.

(** A spawned agent is the object appended at the end of the heap. *)
Lemma update_spawned (self : nat) (agents : list nat)
    (surface : option Surface) (p : Params) (w w' : World) (c : nat) :
  update uuid4 self agents surface p w = Some (Some c, w') ->
  c = length (heap w) /\ length (heap w') = S (length (heap w)).
Proof.
  intros Hu. destruct (update_heap_shape _ _ _ _ _ _ _ Hu)
    as (a & a' & new & _ & -> & [[_ [=]]|(c' & -> & [= ->] & _)]).
  split; [reflexivity|]. rewrite length_app, length_insert. cbn. lia.
Qed.

Lemma update_not_spawned (self : nat) (agents : list nat)
    (surface : option Surface) (p : Params) (w w' : World) :
  update uuid4 self agents surface p w = Some (None, w') ->
  length (heap w') = length (heap w).
Proof.
  intros Hu. destruct (update_heap_shape _ _ _ _ _ _ _ Hu)
    as (a & a' & new & _ & -> & [[-> _]|(c' & _ & [=] & _)]).
  rewrite length_app, length_insert. cbn. lia.
Qed.

End HeapFacts.

(** ** The loop of [RunScript] *)

Section LoopFacts.

Variable uuid4 : nat -> N.

(** The loop over a concatenation runs the loop over the first part, then
    the loop over the second part from the state the first part leaves. *)
Lemma RunScript_loop_app (all l1 l2 : list nat) (surface : option Surface)
    (p : Params) (w : World) (act new : list nat) :
  RunScript_loop uuid4 all (l1 ++ l2) surface p w act new =
  match RunScript_loop uuid4 all l1 surface p w act new with
  | None => None
  | Some (act1, new1, w1) => RunScript_loop uuid4 all l2 surface p w1 act1 new1
  end.
Proof.
  revert w act new. induction l1 as [|x l1 IH]; intros w act new;
    cbn [RunScript_loop app]; [reflexivity|].
  destruct (update uuid4 x all surface p w) as [[spawned w1]|]; [|reflexivity].
  destruct (heap w1 !! x) as [a|]; [|reflexivity]. apply IH.
Qed.

Lemma RunScript_loop_length (all todo : list nat) (surface : option Surface)
    (p : Params) (w w' : World) (act new act' new' : list nat) :
  RunScript_loop uuid4 all todo surface p w act new = Some (act', new', w') ->
  (length (heap w) <= length (heap w'))%nat.
Proof.
  revert w act new. induction todo as [|x todo IH]; intros w act new;
    cbn [RunScript_loop].
  - intros [= _ _ <-]. lia.
  - destruct (update uuid4 x all surface p w) as [[spawned w1]|] eqn:Hu;
      [|discriminate].
    destruct (heap w1 !! x) as [a|]; [|discriminate]. intros Hloop.
    apply update_length in Hu. apply IH in Hloop. lia.
Qed.

(** An object that is not updated in the rest of the loop stays as it is. *)
Lemma RunScript_loop_frame (all todo : list nat) (surface : option Surface)
    (p : Params) (w w' : World) (act new act' new' : list nat) (r : nat) :
  RunScript_loop uuid4 all todo surface p w act new = Some (act', new', w') ->
  ~ In r todo -> (r < length (heap w))%nat ->
  heap w' !! r = heap w !! r.
Proof.
  revert w act new. induction todo as [|x todo IH]; intros w act new;
    cbn [RunScript_loop].
  - intros [= _ _ <-]. reflexivity.
  - destruct (update uuid4 x all surface p w) as [[spawned w1]|] eqn:Hu;
      [|discriminate].
    destruct (heap w1 !! x) as [a|]; [|discriminate]. intros Hloop Hnin Hlt.
    rewrite (IH _ _ _ Hloop).
    + eapply update_frame; eauto. intros ->. apply Hnin. now left.
    + intros Hin. apply Hnin. now right.
    + apply update_length in Hu. lia.
Qed.

(** The loop succeeds on a population of valid references. *)
Lemma RunScript_loop_total (all todo : list nat) (surface : option Surface)
    (p : Params) (w : World) (act new : list nat) :
  refs_valid (heap w) all -> refs_valid (heap w) todo -> 0 <= max_speed p ->
  exists act' new' w',
    RunScript_loop uuid4 all todo surface p w act new = Some (act', new', w').
Proof.
  intros Hall Htodo Hm. revert w act new Hall Htodo.
  induction todo as [|x todo IH]; intros w act new Hall Htodo;
    cbn [RunScript_loop]; [eauto|].
  inversion Htodo as [|? ? Hx Hrest]; subst.
  destruct (update_total uuid4 x all surface p w Hx Hall Hm)
    as (spawned & w1 & Hu). rewrite Hu.
  pose proof (update_length _ _ _ _ _ _ _ _ Hu) as Hlen.
  destruct (lookup_lt_is_Some_2 (heap w1) x ltac:(lia)) as [a ->].
  apply IH; (eapply Forall_impl; [eassumption|]; cbn; intros; lia).
Qed.

End LoopFacts.

Section PopulationFacts.

Variable uuid4 : nat -> N.

(** The spawned agents of a loop are the objects appended to the heap, in
    the order of their allocation. *)
Lemma RunScript_loop_new (all todo : list nat) (surface : option Surface)
    (p : Params) (w w' : World) (act new act' new' : list nat) :
  RunScript_loop uuid4 all todo surface p w act new = Some (act', new', w') ->
  new' = new ++ seq (length (heap w)) (length (heap w') - length (heap w)).
Proof.
  revert w act new. induction todo as [|x todo IH]; intros w act new;
    cbn [RunScript_loop].
  - intros [= _ <- <-]. rewrite Nat.sub_diag. cbn. now rewrite app_nil_r.
  - destruct (update uuid4 x all surface p w) as [[spawned w1]|] eqn:Hu;
      [|discriminate].
    destruct (heap w1 !! x) as [a|]; [|discriminate]. intros Hloop.
    pose proof (RunScript_loop_length _ _ _ _ _ _ _ _ _ _ _ Hloop) as Hlen.
    rewrite (IH _ _ _ Hloop). destruct spawned as [c|].
    + destruct (update_spawned _ _ _ _ _ _ _ _ Hu) as [-> Hl1].
      rewrite Hl1, <- app_assoc. f_equal.
      replace (length (heap w') - length (heap w))%nat
        with (S (length (heap w') - S (length (heap w)))) by lia.
      reflexivity.
    + now rewrite (update_not_spawned _ _ _ _ _ _ _ Hu).
Qed.

(** The active agents of a loop are agents of the loop, in their order. *)
Lemma RunScript_loop_active (all todo : list nat) (surface : option Surface)
    (p : Params) (w w' : World) (act new act' new' : list nat) :
  RunScript_loop uuid4 all todo surface p w act new = Some (act', new', w') ->
  exists act1, act' = act ++ act1 /\ sublist act1 todo.
Proof.
  revert w act new. induction todo as [|x todo IH]; intros w act new;
    cbn [RunScript_loop].
  - intros [= <- _ _]. exists []. now rewrite app_nil_r.
  - destruct (update uuid4 x all surface p w) as [[spawned w1]|] eqn:Hu;
      [|discriminate].
    destruct (heap w1 !! x) as [a|]; [|discriminate]. intros Hloop.
    destruct (IH _ _ _ Hloop) as (act1 & -> & Hsub).
    destruct (is_alive a).
    + exists (x :: act1). rewrite <- app_assoc. split; [reflexivity|].
      now apply sublist_skip.
    + exists act1. split; [reflexivity|]. now apply sublist_cons.
Qed.

(** With no reference twice in the loop, the active agents are those that
    are alive when the loop ends. *)
Lemma RunScript_loop_active_alive (all todo : list nat)
    (surface : option Surface) (p : Params) (w w' : World)
    (act new act' new' : list nat) (r : nat) :
  RunScript_loop uuid4 all todo surface p w act new = Some (act', new', w') ->
  NoDup todo ->
  (In r act' <->
   In r act \/ In r todo /\ exists a, heap w' !! r = Some a /\ is_alive a = true).
Proof.
  revert w act new. induction todo as [|x todo IH]; intros w act new;
    cbn [RunScript_loop].
  - intros [= <- _ _] _. cbn. firstorder.
  - destruct (update uuid4 x all surface p w) as [[spawned w1]|] eqn:Hu;
      [|discriminate].
    destruct (heap w1 !! x) as [a|] eqn:Hx; [|discriminate].
    intros Hloop Hnd. apply NoDup_cons in Hnd as [Hnin Hnd].
    rewrite list_elem_of_In in Hnin.
    assert (Hfin : heap w' !! x = Some a).
    { rewrite (RunScript_loop_frame _ _ _ _ _ _ _ _ _ _ _ _ Hloop Hnin);
        [exact Hx|]. eapply lookup_lt_Some; eauto. }
    rewrite (IH _ _ _ Hloop Hnd). cbn [In].
    destruct (is_alive a) eqn:Hal.
    + rewrite in_app_iff. cbn [In]. split.
      * intros [[H|[H|[]]]|[H1 H2]]; [tauto| |tauto].
        subst. right. split; [now left|]. eauto.
      * intros [H|[[H|H] H2]]; [tauto| |tauto]. subst. tauto.
    + split.
      * intros [H|[H1 H2]]; tauto.
      * intros [H|[[H|H] H2]]; [tauto| |tauto].
        subst. destruct H2 as (a' & Ha' & Hal'). congruence.
Qed.

End PopulationFacts.

(** ** Paths *)

Lemma Agent_init_path_ok (u : N) (pos vel : V3) : path_ok (Agent_init u pos vel).
Proof. reflexivity. Qed.

Lemma spawn_agent_near_init (u : N) (a c : Agent) (surface : option Surface)
    (offset : R) (g g' : Rng) :
  spawn_agent_near u a surface offset g = (Some c, g') ->
  exists pos vel, c = Agent_init u pos vel.
Proof.
  unfold spawn_agent_near.
  destruct (uniform (- offset) offset g) as [jx g1].
  destruct (uniform (- offset) offset g1) as [jy g2].
  destruct surface as [s|]; [|discriminate].
  destruct (uniform (-0.05) 0.05 g2) as [vx g3].
  destruct (uniform (-0.05) 0.05 g3) as [vy g4].
  intros [= <- _]. eauto.
Qed.

Lemma spawn_step_init (uuid4 : nat -> N) (h : list Agent) (a c : Agent)
    (surface : option Surface) (p : Params) (g g' : Rng) :
  spawn_step uuid4 h a surface p g = (Some c, g') ->
  exists pos vel, c = Agent_init (uuid4 (length h)) pos vel.
Proof.
  unfold spawn_step. destruct (random g) as [x g3].
  destruct (Rlt_dec _ _); [|discriminate]. apply spawn_agent_near_init.
Qed.

Section PathFacts.

Variable uuid4 : nat -> N.
Variable random_seed : Z -> nat -> R.

Lemma update_path (self : nat) (agents : list nat) (surface : option Surface)
    (p : Params) (w w' : World) (a : Agent) (res : option nat) :
  heap w !! self = Some a -> Forall path_ok (heap w) ->
  update uuid4 self agents surface p w = Some (res, w') ->
  Forall path_ok (heap w') /\
  exists a', heap w' !! self = Some a' /\
    length (path a') =
    (length (path a) + (if is_alive a then 1 else 0))%nat.
Proof.
  intros Hl Hok Hu. destruct (is_alive a) eqn:Ha.
  - destruct (update_alive_result _ _ _ _ _ _ _ _ _ Hl Ha Hu)
      as (a1 & a2 & g2 & Hs & Hd & Hl').
    destruct (aged_fields _ _ _ _ _ _ _ _ _ Ha Hs Hd)
      as (_ & _ & _ & Hpath & _).
    assert (Hok4 : forall b, path_ok (set_is_alive (aged a2 surface) b)).
    { intros b. unfold path_ok. cbn [path position set_is_alive].
      rewrite Hpath. apply last_snoc. }
    split.
    + destruct (update_alive_inv _ _ _ _ _ _ _ _ _ Hl Ha Hu)
        as (a1' & a2' & g2' & Hs' & Hd' & Hcase).
      assert (a2' = a2) as -> by congruence.
      cbn zeta in Hcase.
      assert (Heta : set_is_alive (aged a2 surface) true = aged a2 surface).
      { destruct (aged_fields _ _ _ _ _ _ _ _ _ Ha Hs Hd) as (_ & _ & Hal & _).
        cbn. rewrite <- Hal. now destruct (aged a2 surface). }
      destruct (dies p (aged a2 surface)).
      * destruct Hcase as [_ ->]. cbn [heap]. now apply Forall_insert.
      * destruct (spawn_step _ _ _ _ _ _) as [[c|] g'] eqn:Hsp;
          destruct Hcase as [_ ->]; cbn [heap].
        -- apply Forall_app. split.
           ++ apply Forall_insert; [assumption|]. rewrite <- Heta. apply Hok4.
           ++ destruct (spawn_step_init _ _ _ _ _ _ _ _ Hsp) as (pos & vel & ->).
              repeat constructor.
        -- apply Forall_insert; [assumption|]. rewrite <- Heta. apply Hok4.
    + eexists. split; [exact Hl'|]. cbn [path set_is_alive].
      rewrite Hpath, length_app. reflexivity.
  - rewrite (update_dead _ _ _ _ _ _ _ Hl Ha) in Hu. injection Hu as <- <-.
    split; [assumption|]. exists a. split; [assumption|lia].
Qed.

Lemma RunScript_loop_path (all todo : list nat) (surface : option Surface)
    (p : Params) (w w' : World) (act new act' new' : list nat) :
  NoDup todo -> Forall path_ok (heap w) ->
  RunScript_loop uuid4 all todo surface p w act new = Some (act', new', w') ->
  Forall path_ok (heap w') /\
  forall r a, In r todo -> heap w !! r = Some a ->
    exists a', heap w' !! r = Some a' /\
      length (path a') =
      (length (path a) + (if is_alive a then 1 else 0))%nat.
Proof.
  revert w act new. induction todo as [|x todo IH]; intros w act new Hnd Hok;
    cbn [RunScript_loop].
  - intros [= _ _ <-]. split; [assumption|]. intros r a [].
  - destruct (update uuid4 x all surface p w) as [[spawned w1]|] eqn:Hu;
      [|discriminate].
    destruct (heap w1 !! x) as [ax|] eqn:Hx; [|discriminate]. intros Hloop.
    apply NoDup_cons in Hnd as [Hnin Hnd]. rewrite list_elem_of_In in Hnin.
    destruct (heap w !! x) as [a0|] eqn:Hx0;
      [|apply update_self_valid in Hu; apply lookup_ge_None in Hx0; lia].
    destruct (update_path _ _ _ _ _ _ _ _ Hx0 Hok Hu) as (Hok1 & a' & Ha' & Hlen).
    destruct (IH _ _ _ Hnd Hok1 Hloop) as (Hok' & Hrest).
    split; [assumption|]. intros r a [<-|Hin] Hr.
    + exists a'. split.
      * rewrite (RunScript_loop_frame _ _ _ _ _ _ _ _ _ _ _ _ Hloop Hnin);
          [exact Ha'|]. eapply lookup_lt_Some; eauto.
      * rewrite Hx0 in Hr. injection Hr as <-. exact Hlen.
    + apply Hrest; [assumption|].
      rewrite (update_frame _ _ _ _ _ _ _ _ _ Hu); [assumption| |].
      * intros ->. contradiction.
      * eapply lookup_lt_Some; eauto.
Qed.

(** The update of a living agent appends its new position to its path and
    keeps the points before it; the update of a dead agent keeps the path. *)
Lemma update_path_append (self : nat) (agents : list nat)
    (surface : option Surface) (p : Params) (w w' : World) (a : Agent)
    (res : option nat) :
  heap w !! self = Some a ->
  update uuid4 self agents surface p w = Some (res, w') ->
  exists a', heap w' !! self = Some a' /\
    path a' = path a ++ (if is_alive a then [position a'] else []).
Proof.
  intros Hl Hu. destruct (is_alive a) eqn:Ha.
  - destruct (update_alive_result _ _ _ _ _ _ _ _ _ Hl Ha Hu)
      as (a1 & a2 & g2 & Hs & Hd & Hl').
    destruct (aged_fields _ _ _ _ _ _ _ _ _ Ha Hs Hd)
      as (_ & _ & _ & Hpath & _).
    eexists. split; [exact Hl'|]. cbn [path position set_is_alive].
    exact Hpath.
  - rewrite (update_dead _ _ _ _ _ _ _ Hl Ha) in Hu. injection Hu as <- <-.
    exists a. split; [assumption|]. now rewrite app_nil_r.
Qed.

Lemma RunScript_loop_path_append (all todo : list nat)
    (surface : option Surface) (p : Params) (w w' : World)
    (act new act' new' : list nat) :
  NoDup todo ->
  RunScript_loop uuid4 all todo surface p w act new = Some (act', new', w') ->
  forall r a, In r todo -> heap w !! r = Some a ->
    exists a', heap w' !! r = Some a' /\
      path a' = path a ++ (if is_alive a then [position a'] else []).
Proof.
  revert w act new. induction todo as [|x todo IH]; intros w act new Hnd;
    cbn [RunScript_loop].
  - intros _ r a [].
  - destruct (update uuid4 x all surface p w) as [[spawned w1]|] eqn:Hu;
      [|discriminate].
    destruct (heap w1 !! x) as [ax|] eqn:Hx; [|discriminate]. intros Hloop.
    apply NoDup_cons in Hnd as [Hnin Hnd]. rewrite list_elem_of_In in Hnin.
    intros r a [<-|Hin] Hr.
    + destruct (update_path_append _ _ _ _ _ _ _ _ Hr Hu) as (a' & Ha' & Happ).
      exists a'. split; [|exact Happ].
      rewrite (RunScript_loop_frame _ _ _ _ _ _ _ _ _ _ _ _ Hloop Hnin);
        [exact Ha'|]. eapply lookup_lt_Some; eauto.
    + eapply IH; [exact Hnd|exact Hloop|exact Hin|].
      rewrite (update_frame _ _ _ _ _ _ _ _ _ Hu); [assumption| |].
      * intros ->. contradiction.
      * eapply lookup_lt_Some; eauto.
Qed.

(** C8: the path of a new agent is the singleton of its position; a step
    ([RunScript] on an existing population) keeps every path ending at the
    position of its agent; the path of every agent of the population that is
    alive is its path before the step with exactly one point appended, the
    new position, and the path of a dead agent stays as it is. *)
Theorem RunScript_path (seed : option Z) (N : Z)
    (surface : option Surface) (vr : option R)
    (max_speed max_slope alignment_weight separation_weight jitter : R)
    (st : State) (agents : list nat) :
  self_agents st = Some agents ->
  NoDup agents -> refs_valid (heap (world st)) agents ->
  Forall path_ok (heap (world st)) -> 0 <= max_speed ->
  (forall u pos vel, path (Agent_init u pos vel) = [pos] /\
                     position (Agent_init u pos vel) = pos) /\
  exists st',
    RunScript uuid4 random_seed seed N false surface vr max_speed max_slope
      alignment_weight separation_weight jitter st = Some st' /\
    Forall path_ok (heap (world st')) /\
    forall r a, In r agents -> heap (world st) !! r = Some a ->
      exists a', heap (world st') !! r = Some a' /\
        path a' = path a ++ (if is_alive a then [position a'] else []) /\
        length (path a') =
        (length (path a) + (if is_alive a then 1 else 0))%nat.
Proof.
  intros Hag Hnd Hv Hok Hm. split; [intros; split; reflexivity|].
  unfold RunScript. rewrite Hag.
  set (w0 := mkWorld (heap (world st)) (seed_everything random_seed seed (rng (world st)))).
  set (p := RunScript_params vr max_speed max_slope alignment_weight
              separation_weight jitter).
  destruct (RunScript_loop_total uuid4 agents agents surface p w0 [] [])
    as (act' & new' & w' & Hloop); [exact Hv | exact Hv | exact Hm |].
  rewrite Hloop. eexists. split; [reflexivity|]. cbn [world].
  destruct (RunScript_loop_path agents agents surface p w0 w' [] [] act' new'
              Hnd Hok Hloop) as (Hok' & _).
  split; [exact Hok'|]. intros r a Hin Hr.
  destruct (RunScript_loop_path_append agents agents surface p w0 w' [] []
              act' new' Hnd Hloop r a Hin Hr) as (a' & Ha' & Happ).
  exists a'. split; [exact Ha'|]. split; [exact Happ|].
  rewrite Happ, length_app. now destruct (is_alive a).
Qed.

End PathFacts.

Lemma RunScript_path_witness :
  let st := mkState (mkWorld apart_heap (mkRng (fun _ => 0) 0))
              (Some [0; 1]%nat) in
  self_agents st = Some [0; 1]%nat /\
  NoDup [0; 1]%nat /\ refs_valid (heap (world st)) [0; 1]%nat /\
  Forall path_ok (heap (world st)) /\ 0 <= 0.5 /\
  exists st',
    RunScript (fun k => N.of_nat k) (fun _ _ => 0) (Some 7%Z) 2 false None
      (Some 1) 0.5 0.8 0.05 0.12 0.01 st = Some st' /\
    exists a', heap (world st') !! 1%nat = Some a' /\
      path a' = [mkV3 3 0 0; position a'] /\ length (path a') = 2%nat.
Proof.
  cbn zeta.
  assert (Hnd : NoDup [0; 1]%nat).
  { apply NoDup_cons. split; [|apply NoDup_singleton].
    intros H. apply list_elem_of_In in H. destruct H as [H|[]]. discriminate. }
  assert (Hv : refs_valid apart_heap [0; 1]%nat) by (repeat constructor).
  assert (Hok : Forall path_ok apart_heap) by (repeat constructor).
  assert (Hm : 0 <= 0.5) by lra.
  split; [reflexivity|]. split; [exact Hnd|]. split; [exact Hv|].
  split; [exact Hok|]. split; [exact Hm|].
  destruct (RunScript_path (fun k => N.of_nat k) (fun _ _ => 0) (Some 7%Z) 2 None
              (Some 1) 0.5 0.8 0.05 0.12 0.01
              (mkState (mkWorld apart_heap (mkRng (fun _ => 0) 0))
                 (Some [0; 1]%nat))
              [0; 1]%nat eq_refl Hnd Hv Hok Hm)
    as (_ & st' & Hrun & _ & Hlen).
  exists st'. split; [exact Hrun|].
  destruct (Hlen 1%nat apart1 (or_intror (or_introl eq_refl)) eq_refl)
    as (a' & Ha' & Happ & Hl).
  exists a'. split; [exact Ha'|]. split; [exact Happ|exact Hl].
Defined.

(** ** Spawning *)

Lemma uniform_tape (a b : R) (g : Rng) : tape (snd (uniform a b g)) = tape g.
Proof. reflexivity. Qed.

Lemma jitter_if_stuck_tape (j : R) (v : V3) (g : Rng) :
  tape (snd (jitter_if_stuck j v g)) = tape g.
Proof. unfold jitter_if_stuck. now destruct (Rlt_dec _ _). Qed.

Lemma decide_tape (h : list Agent) (self a' : Agent)
    (max_speed max_slope alignment_weight separation_weight jitter : R)
    (g g' : Rng) :
  decide h self max_speed max_slope alignment_weight separation_weight jitter g
    = Some (a', g') ->
  tape g' = tape g.
Proof.
  unfold decide. destruct (negb (is_alive self)); [now intros [= _ <-]|].
  destruct (curvature_alignment _ _ _) as [v2|]; [|discriminate].
  destruct (separation _ _ _ _) as [v3|]; [|discriminate].
  destruct (clamp_speed _ _) as [v4|]; [|discriminate].
  pose proof (jitter_if_stuck_tape jitter v4 g) as Ht.
  destruct (jitter_if_stuck _ _ _) as [v5 g5]. now intros [= _ <-].
Qed.

(** Without a surface [spawn_agent_near] returns [None]. *)
Lemma spawn_step_no_surface (uuid4 : nat -> N) (h : list Agent) (a : Agent)
    (p : Params) (g : Rng) :
  fst (spawn_step uuid4 h a None p g) = None.
Proof.
  unfold spawn_step. destruct (random g) as [x g3].
  destruct (Rlt_dec _ _); reflexivity.
Qed.

(** With a surface, the spawn step yields a child exactly when the sample
    is below the spawn probability. *)
Lemma spawn_step_surface (uuid4 : nat -> N) (h : list Agent) (a : Agent)
    (s : Surface) (p : Params) (g : Rng) :
  is_Some (fst (spawn_step uuid4 h a (Some s) p g)) <->
  fst (random g) < spawn_probability p a.
Proof.
  unfold spawn_step. destruct (random g) as [x g3]. cbn [fst].
  destruct (Rlt_dec _ _) as [Hlt|Hge].
  - unfold spawn_agent_near. cbn.
    split; [intros _; exact Hlt | intros _; eexists; reflexivity].
  - cbn. split; [intros [c [=]] | contradiction].
Qed.

(** C7 as stated fails: without a surface ([start_surface] is [None])
    [rs.SurfaceClosestPoint] raises inside [spawn_agent_near], the [except]
    clause returns [None], and a surviving agent whose sample is below the
    spawn probability emits no child. *)
Lemma update_no_surface_no_child :
  let w := mkWorld [apart0] zero_tape in
  exists a1 a2 g2 w',
    sense (heap w) apart0 [0%nat] None (vision_radius default_params)
      = Some a1 /\
    decide (heap w) a1 0.5 0.8 0.05 0.12 0.01 (rng w) = Some (a2, g2) /\
    dies default_params (aged a2 None) = false /\
    fst (random g2) < spawn_probability default_params (aged a2 None) /\
    update example_uuid4 0 [0%nat] None default_params w = Some (None, w').
Proof.
  cbn zeta.
  assert (Hv : refs_valid [apart0] [0%nat]) by (repeat constructor).
  destruct (update_total example_uuid4 0 [0%nat] None default_params
              (mkWorld [apart0] zero_tape)) as (res & w' & Hu);
    [cbn; lia | exact Hv | cbn; lra |].
  destruct (update_alive_inv example_uuid4 0 [0%nat] None default_params
              (mkWorld [apart0] zero_tape) w' apart0 res eq_refl eq_refl Hu)
    as (a1 & a2 & g2 & Hs & Hd & Hcase).
  destruct (aged_fields [apart0] apart0 a1 a2 [0%nat] None default_params
              zero_tape g2 eq_refl Hs Hd)
    as (_ & Hage & _ & _ & _ & _ & Hcm & _ & _ & Hsm & Hnb).
  destruct (sense_inv _ _ _ _ _ _ Hs) as (nb & Ha1 & Hscan).
  cbn in Hscan. injection Hscan as <-. rewrite Ha1 in Hnb. cbn in Hnb, Hcm, Hsm, Hage.
  assert (Hdies : dies default_params (aged a2 None) = false).
  { unfold dies. rewrite Hage, Hsm. cbn. Rdecide. reflexivity. }
  assert (Hprob : spawn_probability default_params (aged a2 None) = 0.02).
  { unfold spawn_probability. rewrite Hcm, Hnb. cbn.
    rewrite Rabs_R0. Rdecide. reflexivity. }
  assert (Hx : fst (random g2) = 0).
  { unfold random. cbn. now rewrite (decide_tape _ _ _ _ _ _ _ _ _ _ Hd). }
  exists a1, a2, g2, w'. split; [exact Hs|]. split; [exact Hd|].
  split; [exact Hdies|]. split; [rewrite Hx, Hprob; lra|].
  rewrite Hu. cbn zeta in Hcase. rewrite Hdies in Hcase.
  pose proof (spawn_step_no_surface example_uuid4 [apart0] (aged a2 None)
                default_params g2) as Hnone.
  cbn [heap] in Hcase.
  destruct (spawn_step _ _ _ _ _ _) as [[c|] g']; [discriminate|].
  now destruct Hcase as [-> _].
Qed.

(** C7 (amended): for an agent that survives its update the spawn
    probability is [spawn_chance], times 3 when [|curvature_mean|] exceeds
    [curvature_spawn], and 0 when the agent has more than [max_neighbors]
    neighbours; one sample is drawn, and a child is emitted exactly when the
    sample is below the probability and there is a surface to place the
    child on.  The child is the one object added to the heap; it carries the
    next uuid (different from the id of every existing object when uuids do
    not repeat), age 0, is alive, and its path is the singleton of its
    position. *)
Theorem update_spawn_rule (uuid4 : nat -> N) (self : nat) (agents : list nat)
    (surface : option Surface) (p : Params) (w : World) (a : Agent) :
  heap w !! self = Some a -> is_alive a = true ->
  refs_valid (heap w) agents -> 0 <= max_speed p ->
  exists a1 a2 g2 res w' a',
    sense (heap w) a agents surface (vision_radius p) = Some a1 /\
    decide (heap w) a1 (max_speed p) (max_slope p) (alignment_weight p)
      (separation_weight p) (jitter p) (rng w) = Some (a2, g2) /\
    update uuid4 self agents surface p w = Some (res, w') /\
    heap w' !! self = Some a' /\
    (is_alive a' = false -> res = None) /\
    (is_alive a' = true ->
     let prob :=
       if (max_neighbors p <? Z.of_nat (length (neighbors a')))%Z then 0
       else if Rgt_dec (Rabs (curvature_mean a')) (curvature_spawn p)
            then spawn_chance p * 3
            else spawn_chance p in
     let sample := tape g2 (drawn g2) in
     (is_Some res <-> sample < prob /\ surface <> None) /\
     (res = None -> length (heap w') = length (heap w)) /\
     (forall c, res = Some c ->
        c = length (heap w) /\ length (heap w') = S (length (heap w)) /\
        exists child,
          heap w' !! c = Some child /\
          id child = uuid4 (length (heap w)) /\
          age child = 0%Z /\ is_alive child = true /\
          path child = [position child] /\
          (heap_ids_ok uuid4 (heap w) ->
           (forall i j, uuid4 i = uuid4 j -> i = j) ->
           forall r b, heap w !! r = Some b -> id b <> id child))).
Proof.
  intros Hl Ha Hv Hm.
  destruct (update_total uuid4 self agents surface p w) as (res & w' & Hu);
    [eapply lookup_lt_Some; eauto | assumption | assumption |].
  destruct (update_alive_inv _ _ _ _ _ _ _ _ _ Hl Ha Hu)
    as (a1 & a2 & g2 & Hs & Hd & Hcase).
  destruct (update_alive_result _ _ _ _ _ _ _ _ _ Hl Ha Hu)
    as (a1' & a2' & g2' & Hs' & Hd' & Hl').
  assert (a2' = a2) as -> by congruence. clear a1' g2' Hs' Hd'.
  exists a1, a2, g2, res, w',
    (set_is_alive (aged a2 surface) (negb (dies p (aged a2 surface)))).
  split; [exact Hs|]. split; [exact Hd|]. split; [exact Hu|].
  split; [exact Hl'|].
  cbn zeta in Hcase. cbn [is_alive set_is_alive neighbors curvature_mean].
  destruct (dies p (aged a2 surface)) eqn:Hdies; cbn [negb].
  - split; [intros _; apply Hcase | discriminate].
  - split; [discriminate|]. intros _.
    assert (Hprob :
      (if (max_neighbors p <? Z.of_nat (length (neighbors (aged a2 surface))))%Z
       then 0
       else if Rgt_dec (Rabs (curvature_mean (aged a2 surface))) (curvature_spawn p)
            then spawn_chance p * 3 else spawn_chance p)
      = spawn_probability p (aged a2 surface)).
    { unfold spawn_probability.
      destruct (_ <? _)%Z; [reflexivity|]. now destruct (Rgt_dec _ _). }
    rewrite Hprob. clear Hprob.
    change (tape g2 (drawn g2)) with (fst (random g2)).
    destruct surface as [s|].
    + pose proof (spawn_step_surface uuid4 (heap w) (aged a2 (Some s)) s p g2)
        as Hiff.
      destruct (spawn_step uuid4 (heap w) (aged a2 (Some s)) (Some s) p g2)
        as [[c|] g'] eqn:Hsp; destruct Hcase as [-> ->]; cbn [fst] in Hiff.
      * split; [|split; [discriminate|]].
        -- split; [intros _; split; [now apply Hiff|discriminate]|eauto].
        -- intros c' [= <-]. split; [reflexivity|]. cbn [heap].
           split; [rewrite length_app, length_insert; cbn; lia|].
           destruct (spawn_step_init _ _ _ _ _ _ _ _ Hsp) as (pos & vel & ->).
           eexists. split.
           { rewrite lookup_app_r by (rewrite length_insert; lia).
             rewrite length_insert, Nat.sub_diag. reflexivity. }
           cbn. repeat split.
           intros Hids Hinj r b Hr Heq. rewrite (Hids r b Hr) in Heq.
           apply Hinj in Heq. apply lookup_lt_Some in Hr. lia.
      * split; [|split; [intros _; cbn; now rewrite length_insert|discriminate]].
        split; [intros [c [=]]|]. intros [Hlt _]. apply Hiff in Hlt.
        destruct Hlt as [c [=]].
    + pose proof (spawn_step_no_surface uuid4 (heap w) (aged a2 None) p g2)
        as Hnone.
      destruct (spawn_step uuid4 (heap w) (aged a2 None) None p g2)
        as [[c|] g']; [discriminate|]. destruct Hcase as [-> ->].
      split; [|split; [intros _; cbn; now rewrite length_insert|discriminate]].
      split; [intros [c [=]]|]. intros [_ Hs0]. now contradiction Hs0.
Qed.

Lemma update_spawn_rule_witness :
  let w := mkWorld [apart0] zero_tape in
  heap w !! 0%nat = Some apart0 /\ is_alive apart0 = true /\
  refs_valid (heap w) [0%nat] /\ 0 <= max_speed default_params /\
  exists res w',
    update example_uuid4 0 [0%nat] (Some no_projection) default_params w
      = Some (res, w') /\
    (length (heap w') <= 2)%nat.
Proof.
  cbn zeta.
  assert (Hv : refs_valid [apart0] [0%nat]) by (repeat constructor).
  assert (Hm : 0 <= max_speed default_params) by (cbn; lra).
  split; [reflexivity|]. split; [reflexivity|]. split; [exact Hv|].
  split; [exact Hm|].
  destruct (update_spawn_rule example_uuid4 0 [0%nat] (Some no_projection)
              default_params (mkWorld [apart0] zero_tape) apart0
              eq_refl eq_refl Hv Hm)
    as (a1 & a2 & g2 & res & w' & a' & _ & _ & Hu & _ & Hdead & Halive).
  exists res, w'. split; [exact Hu|].
  destruct (is_alive a') eqn:Hal.
  - destruct (Halive eq_refl) as (_ & Hnone & Hsome).
    destruct res as [c|].
    + destruct (Hsome c eq_refl) as (_ & -> & _). cbn. lia.
    + rewrite (Hnone eq_refl). cbn. lia.
  - pose proof (update_not_spawned example_uuid4 0 [0%nat] (Some no_projection)
                  default_params (mkWorld [apart0] zero_tape) w') as Hlen.
    rewrite (Hdead eq_refl) in Hu. rewrite (Hlen Hu). cbn. lia.
Defined.

(** ** The speed clamp and the jitter *)

Lemma VectorLength_lower (v : V3) (l : R) :
  0 <= l -> l * l <= X v * X v + Y v * Y v + Z3 v * Z3 v -> l <= VectorLength v.
Proof.
  intros Hl H. unfold VectorLength.
  rewrite <- (sqrt_square l Hl). apply sqrt_le_1_alt. exact H.
Qed.

(** What the jitter does: nothing at speed [1e-4] or more, otherwise it adds
    two uniform draws from [-jitter, jitter] to the x and y components. *)
Lemma jitter_if_stuck_spec (jitter : R) (v : V3) (g : Rng) :
  (1e-4 <= VectorLength v /\ jitter_if_stuck jitter v g = (v, g)) \/
  (VectorLength v < 1e-4 /\
   jitter_if_stuck jitter v g =
   (VectorAdd v
      (mkV3 (- jitter + (jitter - - jitter) * tape g (drawn g))
            (- jitter + (jitter - - jitter) * tape g (S (drawn g))) 0),
    mkRng (tape g) (S (S (drawn g))))).
Proof.
  unfold jitter_if_stuck. destruct (Rlt_dec (VectorLength v) 1e-4) as [Hlt|Hge].
  - right. split; [exact Hlt|reflexivity].
  - left. split; [lra|reflexivity].
Qed.

(** A uniform draw from [-j, j] with a sample in [0, 1] is at most [|j|] in
    absolute value. *)
Lemma uniform_symmetric_bound (j x : R) :
  0 <= x <= 1 -> Rabs (- j + (j - - j) * x) <= Rabs j.
Proof.
  intros Hx. unfold Rabs.
  destruct (Rcase_abs (- j + (j - - j) * x)), (Rcase_abs j); nra.
Qed.

(** Unfolding of the attribute accesses and vector operations on explicit
    records. *)
Ltac fields :=
  cbn [id position velocity age is_alive path uv curvature_mean curvature_dir
       slope_vector slope_magnitude neighbors set_position set_velocity set_age
       set_is_alive set_path set_uv set_curvature set_slope set_neighbors
       Agent_init X Y Z3 V3_zero VectorAdd VectorScale VectorCreate PointAdd
       fst snd heap rng tape drawn negb random uniform].

(** The stages of the decision on the simplest inputs. *)
Lemma slope_resistance_flat (a : Agent) (max_slope : R) :
  slope_magnitude a = 0 -> slope_resistance a max_slope = 1.
Proof.
  intros H. unfold slope_resistance. rewrite H.
  destruct (Req_dec_T max_slope 0); [reflexivity|].
  unfold Rdiv. rewrite Rmult_0_l. unfold Rmax. Rdecide; lra.
Qed.

Lemma VectorScale_1 (v : V3) : VectorScale v 1 = v.
Proof. destruct v. unfold VectorScale. cbn. f_equal; lra. Qed.

Lemma curvature_alignment_none (a : Agent) (w : R) (v : V3) :
  curvature_dir a = V3_zero -> curvature_alignment a w v = Some v.
Proof.
  intros H. unfold curvature_alignment. rewrite H, VectorLength_zero.
  destruct (Rgt_dec 0 1e-6); [lra|reflexivity].
Qed.

Lemma separation_nil (h : list Agent) (a : Agent) (w : R) (v : V3) :
  neighbors a = [] -> separation h a w v = Some v.
Proof. intros H. unfold separation. now rewrite H. Qed.

Lemma clamp_speed_below (m : R) (v : V3) :
  VectorLength v <= m -> clamp_speed m v = Some v.
Proof.
  intros H. unfold clamp_speed.
  destruct (Rgt_dec (VectorLength v) m); [lra|reflexivity].
Qed.

(** C4 as stated fails: the jitter is applied after the clamp.  An agent at
    rest with [max_speed = 0.5] and [jitter = 1] leaves the decision stage
    with velocity (-1, -1, 0), of length above 0.5. *)
Lemma decide_jitter_exceeds_max_speed :
  exists a' g',
    decide [apart0] apart0 0.5 0.8 0.05 0.12 1 zero_tape = Some (a', g') /\
    velocity a' = VectorAdd V3_zero (mkV3 (- (1) + (1 - - (1)) * 0)
                                          (- (1) + (1 - - (1)) * 0) 0) /\
    VectorLength (velocity a') > 0.5.
Proof.
  unfold decide. cbn [is_alive apart0 Agent_init negb velocity].
  rewrite slope_resistance_flat, VectorScale_1 by reflexivity.
  rewrite curvature_alignment_none, separation_nil by reflexivity.
  rewrite clamp_speed_below by (rewrite VectorLength_zero; lra).
  destruct (jitter_if_stuck_spec 1 V3_zero zero_tape) as [[H _]|[_ ->]];
    [rewrite VectorLength_zero in H; lra|].
  eexists _, _. split; [reflexivity|]. split; [reflexivity|]. fields.
  apply Rlt_gt. eapply Rlt_le_trans; [|apply (VectorLength_lower _ 1); [lra|]].
  - lra.
  - fields. unfold zero_tape. fields. lra.
Qed.

(** ** The separation term *)

Lemma V3_eq (a b : V3) : X a = X b -> Y a = Y b -> Z3 a = Z3 b -> a = b.
Proof. destruct a, b. cbn. now intros -> -> ->. Qed.

Lemma VectorAdd_assoc (a b c : V3) :
  VectorAdd (VectorAdd a b) c = VectorAdd a (VectorAdd b c).
Proof. apply V3_eq; cbn; ring. Qed.

Lemma VectorAdd_zero_r (a : V3) : VectorAdd a V3_zero = a.
Proof. apply V3_eq; cbn; ring. Qed.

Lemma VectorAdd_zero_l (a : V3) : VectorAdd V3_zero a = a.
Proof. apply V3_eq; cbn; ring. Qed.

Lemma VectorUnitize_normalize (v u : V3) :
  VectorUnitize v = Some u -> u = V3_normalize v.
Proof.
  unfold VectorUnitize. destruct (Rlt_dec _ _); [|discriminate]. now intros [= <-].
Qed.

Lemma accumulate_away_sum (h : list Agent) (self : Agent)
    (nbs : list (nat * R)) (acc : V3) :
  neighbors_valid h nbs ->
  accumulate_away h self nbs acc =
  Some (VectorAdd acc (V3_sum (away_terms h self nbs))).
Proof.
  intros Hv. revert acc.
  induction Hv as [|[o dist] rest Ho _ IH]; intros acc;
    cbn [accumulate_away away_terms].
  - cbn. now rewrite VectorAdd_zero_r.
  - cbn [fst] in Ho. destruct (lookup_lt_is_Some_2 h o Ho) as [other ->].
    destruct (Rgt_dec _ _) as [Hgt|Hle]; [|apply IH].
    destruct (VectorUnitize_gt _ 1e-9 ltac:(lra) Hgt) as [u Hu]. rewrite Hu.
    rewrite IH. apply VectorUnitize_normalize in Hu. subst u.
    cbn [V3_sum fold_right]. now rewrite VectorAdd_assoc.
Qed.

Lemma apart_offset_length :
  VectorLength (VectorCreate (position apart0_sensed) (position apart1)) = 3.
Proof. apply VectorLength_val; [lra|]. cbn. ring. Qed.

(** C2 as stated fails on the direction: [rs.VectorCreate(self.position,
    other.position)] is [position - other.position].  For an agent at the
    origin with one neighbour at (3, 0, 0) the accumulated vector is
    (-1/3, 0, 0), the opposite of the sum the claim states, and the velocity
    is pushed away from the neighbour. *)
Lemma separation_points_away_from_neighbor :
  exists away v,
    accumulate_away apart_heap apart0_sensed (neighbors apart0_sensed) V3_zero
      = Some away /\
    X away = - (1 / 3) /\
    X (away_as_specified apart_heap apart0_sensed (neighbors apart0_sensed))
      = 1 / 3 /\
    separation apart_heap apart0_sensed 0.12 V3_zero = Some v /\
    X v = - 0.12.
Proof.
  assert (Hv : neighbors_valid apart_heap (neighbors apart0_sensed)).
  { repeat constructor. }
  pose proof apart_offset_length as Hlen.
  assert (Hterms : away_terms apart_heap apart0_sensed (neighbors apart0_sensed)
                   = [VectorScale (V3_normalize (VectorCreate (position apart0_sensed) (position apart1))) (1 / Rmax 3 1e-6)]).
  { cbn [away_terms neighbors apart0_sensed set_neighbors apart_heap lookup list_lookup].
    rewrite Hlen. destruct (Rgt_dec 3 1e-9); [reflexivity|lra]. }
  assert (Hmax : Rmax 3 1e-6 = 3) by (unfold Rmax; Rdecide; lra).
  assert (Haway : accumulate_away apart_heap apart0_sensed (neighbors apart0_sensed) V3_zero
          = Some (mkV3 (- (1/3)) 0 0)).
  { rewrite accumulate_away_sum by exact Hv. rewrite Hterms. f_equal.
    unfold V3_normalize. rewrite Hlen, Hmax. apply V3_eq; cbn; field. }
  exists (mkV3 (- (1/3)) 0 0). eexists.
  split; [exact Haway|]. split; [reflexivity|]. split.
  - unfold away_as_specified.
    cbn [neighbors apart0_sensed set_neighbors map fst snd apart_heap lookup list_lookup V3_sum fold_right].
    unfold V3_normalize.
    rewrite (VectorLength_val _ 3) by (cbn; lra). rewrite Hmax.
    cbn [X Y Z3 VectorAdd VectorScale VectorCreate V3_zero position apart0_sensed apart0 apart1 set_neighbors Agent_init]. lra.
  - unfold separation. rewrite Haway.
    cbn [neighbors apart0_sensed set_neighbors].
    assert (Hl : VectorLength (mkV3 (- (1/3)) 0 0) = 1/3).
    { apply VectorLength_val; [lra|]. cbn. field. }
    rewrite Hl. destruct (Rgt_dec (1/3) 1e-9); [|lra].
    rewrite VectorUnitize_pos by (rewrite Hl; lra). rewrite Hl.
    split; [reflexivity|]. cbn [X Y Z3 VectorAdd VectorScale V3_zero]. lra.
Qed.

(** C2 (amended): for a non-empty neighbour list the loop accumulates the
    sum, over the neighbours whose offset is longer than [1e-9], of
    [normalize(position - other.position) * (1 / max(dist, 1e-6))], a vector
    that points away from the neighbours; when its length exceeds [1e-9] the
    velocity is incremented by [normalize(away) * separation_weight], and
    otherwise it is left as it is. *)
Theorem separation_sum (h : list Agent) (self : Agent) (w : R) (v : V3) :
  neighbors self <> [] -> neighbors_valid h (neighbors self) ->
  exists away,
    accumulate_away h self (neighbors self) V3_zero = Some away /\
    away = V3_sum (away_terms h self (neighbors self)) /\
    (VectorLength away > 1e-9 ->
     separation h self w v
     = Some (VectorAdd v (VectorScale (V3_normalize away) w))) /\
    (~ VectorLength away > 1e-9 -> separation h self w v = Some v).
Proof.
  intros Hne Hv.
  exists (V3_sum (away_terms h self (neighbors self))).
  assert (Hacc : accumulate_away h self (neighbors self) V3_zero
                 = Some (V3_sum (away_terms h self (neighbors self)))).
  { rewrite accumulate_away_sum by exact Hv. now rewrite VectorAdd_zero_l. }
  split; [exact Hacc|]. split; [reflexivity|].
  unfold separation. destruct (neighbors self) as [|nb rest] eqn:Hn;
    [contradiction|]. rewrite Hacc.
  destruct (Rgt_dec _ _) as [Hgt|Hle].
  - split; [|contradiction]. intros _.
    rewrite VectorUnitize_pos by lra. reflexivity.
  - split; [contradiction|reflexivity].
Qed.

Lemma separation_sum_witness :
  neighbors apart0_sensed <> [] /\
  neighbors_valid apart_heap (neighbors apart0_sensed) /\
  exists away,
    accumulate_away apart_heap apart0_sensed (neighbors apart0_sensed) V3_zero
    = Some away /\
    away = V3_sum (away_terms apart_heap apart0_sensed (neighbors apart0_sensed)).
Proof.
  assert (Hne : neighbors apart0_sensed <> []) by discriminate.
  assert (Hv : neighbors_valid apart_heap (neighbors apart0_sensed)).
  { repeat constructor. }
  split; [exact Hne|]. split; [exact Hv|].
  destruct (separation_sum apart_heap apart0_sensed 0.12 V3_zero Hne Hv)
    as (away & Hacc & Hsum & _).
  exists away. split; [exact Hacc|exact Hsum].
Defined.

(** ** The order of sensing and motion within a step *)

(** The scan reads the id and the position of the sensing agent only. *)
Lemma scan_neighbors_self_ext (h : list Agent) (a b : Agent) (r : R)
    (agents : list nat) :
  id a = id b -> position a = position b ->
  scan_neighbors h a r agents = scan_neighbors h b r agents.
Proof.
  intros Hid Hpos. induction agents as [|o rest IH]; cbn [scan_neighbors];
    [reflexivity|].
  destruct (h !! o) as [other|]; [|reflexivity].
  now rewrite IH, Hid, Hpos.
Qed.

Section SequentialSensing.

Variable uuid4 : nat -> N.
Variable random_seed : Z -> nat -> R.

(** The neighbours an agent has after its update are those the scan finds
    in the heap the update started from. *)
Lemma update_neighbors (self : nat) (agents : list nat)
    (surface : option Surface) (p : Params) (w w' : World) (a : Agent)
    (res : option nat) :
  heap w !! self = Some a -> is_alive a = true ->
  update uuid4 self agents surface p w = Some (res, w') ->
  exists a', heap w' !! self = Some a' /\
    match vision_radius p with
    | None => neighbors a' = []
    | Some radius => scan_neighbors (heap w) a radius agents = Some (neighbors a')
    end.
Proof.
  intros Hl Ha Hu.
  destruct (update_alive_result _ _ _ _ _ _ _ _ _ Hl Ha Hu)
    as (a1 & a2 & g2 & Hs & Hd & Hl').
  destruct (aged_fields _ _ _ _ _ _ _ _ _ Ha Hs Hd)
    as (_ & _ & _ & _ & _ & _ & _ & _ & _ & _ & Hnb).
  eexists. split; [exact Hl'|]. cbn [neighbors set_is_alive]. rewrite Hnb.
  destruct (sense_inv _ _ _ _ _ _ Hs) as (nb & -> & Hscan).
  cbn [neighbors set_neighbors]. destruct (vision_radius p) as [radius|].
  - rewrite <- Hscan. apply scan_neighbors_self_ext.
    + cbn. symmetry. apply sense_geometry_id.
    + cbn. symmetry. apply sense_geometry_position.
  - exact Hscan.
Qed.

(** The heap [h_r] an agent [r] senses during [RunScript]: the agents before
    [r] in the population are in it as the step leaves them, [r] and the
    agents after it as the step found them. *)
Lemma RunScript_sensing_order (seed : option Z) (N : Z)
    (surface : option Surface) (vr : option R)
    (max_speed max_slope alignment_weight separation_weight jitter : R)
    (st : State) (pre post : list nat) (r : nat) (a : Agent) :
  self_agents st = Some (pre ++ r :: post) ->
  NoDup (pre ++ r :: post) ->
  refs_valid (heap (world st)) (pre ++ r :: post) ->
  0 <= max_speed ->
  heap (world st) !! r = Some a -> is_alive a = true ->
  exists st' h_r a',
    RunScript uuid4 random_seed seed N false surface vr max_speed max_slope
      alignment_weight separation_weight jitter st = Some st' /\
    (forall q, In q pre -> h_r !! q = heap (world st') !! q) /\
    (forall q, In q (r :: post) -> h_r !! q = heap (world st) !! q) /\
    heap (world st') !! r = Some a' /\
    match vr with
    | None => neighbors a' = []
    | Some radius =>
        scan_neighbors h_r a radius (pre ++ r :: post) = Some (neighbors a')
    end.
Proof.
  intros Hag Hnd Hv Hm Hr Ha. unfold RunScript. rewrite Hag.
  set (w0 := mkWorld (heap (world st))
               (seed_everything random_seed seed (rng (world st)))).
  set (p := RunScript_params vr max_speed max_slope alignment_weight
              separation_weight jitter).
  set (all := pre ++ r :: post) in *.
  destruct (RunScript_loop_total uuid4 all all surface p w0 [] [])
    as (act' & new' & w' & Hloop); [exact Hv | exact Hv | exact Hm |].
  rewrite Hloop.
  unfold all at 2 in Hloop. rewrite RunScript_loop_app in Hloop.
  destruct (RunScript_loop uuid4 all pre surface p w0 [] [])
    as [[[act1 new1] w_pre]|] eqn:Hpre; [|discriminate].
  cbn [RunScript_loop] in Hloop.
  destruct (update uuid4 r all surface p w_pre) as [[res w_r]|] eqn:Hu;
    [|discriminate].
  destruct (heap w_r !! r) as [a_r|] eqn:Hr'; [|discriminate].
  apply NoDup_app in Hnd as (Hnd_pre & Hdisj & Hnd_post).
  apply NoDup_cons in Hnd_post as [Hr_post Hnd_post].
  rewrite list_elem_of_In in Hr_post.
  assert (Hr_pre : ~ In r pre).
  { intros Hin. apply list_elem_of_In in Hin. apply (Hdisj r Hin). left. }
  assert (Hlt : forall q, In q all -> (q < length (heap w0))%nat).
  { intros q Hq. unfold refs_valid in Hv. rewrite Forall_forall in Hv.
    apply Hv. now apply list_elem_of_In. }
  assert (Hlen_pre : (length (heap w0) <= length (heap w_pre))%nat)
    by (eapply RunScript_loop_length; eauto).
  assert (Hlen_r : (length (heap w_pre) <= length (heap w_r))%nat)
    by (eapply update_length; eauto).
  assert (Hr_wpre : heap w_pre !! r = Some a).
  { rewrite (RunScript_loop_frame _ _ _ _ _ _ _ _ _ _ _ _ Hpre Hr_pre);
      [exact Hr|]. apply Hlt. unfold all. apply in_or_app. right. now left. }
  destruct (update_neighbors _ _ _ _ _ _ _ _ Hr_wpre Ha Hu)
    as (a' & Ha' & Hscan).
  assert (a_r = a') as -> by congruence.
  eexists _, (heap w_pre), a'. split; [reflexivity|]. cbn [world].
  split; [|split; [|split]].
  - intros q Hq.
    assert (Hq_all : In q all) by (unfold all; apply in_or_app; now left).
    assert (Hqr : q <> r) by (intros ->; contradiction).
    rewrite (RunScript_loop_frame _ _ _ _ _ _ _ _ _ _ _ _ Hloop).
    + symmetry. eapply update_frame; eauto.
      specialize (Hlt q Hq_all). lia.
    + intros Hin. apply (Hdisj q); [now apply list_elem_of_In|].
      right. now apply list_elem_of_In.
    + specialize (Hlt q Hq_all). lia.
  - intros q Hq.
    apply (RunScript_loop_frame _ _ _ _ _ _ _ _ _ _ _ _ Hpre).
    + intros Hin. apply (Hdisj q); now apply list_elem_of_In.
    + apply Hlt. unfold all. apply in_or_app. now right.
  - rewrite (RunScript_loop_frame _ _ _ _ _ _ _ _ _ _ _ _ Hloop Hr_post);
      [exact Ha'|]. apply lookup_lt_Some in Ha'. exact Ha'.
  - exact Hscan.
Qed.

(** C1 (amended): within one step the agents are updated one after the
    other in population order, each sensing, deciding and moving before the
    next one senses.  The heap [h_r] an agent [r] senses holds every agent
    before it in the population in the state that agent has at the end of
    the step (its position already updated by its motion in this step), and
    [r] itself and every agent after it in their state from the start of the
    step. *)
Theorem RunScript_sequential_sensing (seed : option Z) (N : Z)
    (surface : option Surface) (vr : option R)
    (max_speed max_slope alignment_weight separation_weight jitter : R)
    (st : State) (pre post : list nat) (r : nat) (a : Agent) :
  self_agents st = Some (pre ++ r :: post) ->
  NoDup (pre ++ r :: post) ->
  refs_valid (heap (world st)) (pre ++ r :: post) ->
  0 <= max_speed ->
  heap (world st) !! r = Some a -> is_alive a = true ->
  exists st' h_r a',
    RunScript uuid4 random_seed seed N false surface vr max_speed max_slope
      alignment_weight separation_weight jitter st = Some st' /\
    (forall q, In q pre -> h_r !! q = heap (world st') !! q) /\
    (forall q, In q (r :: post) -> h_r !! q = heap (world st) !! q) /\
    heap (world st') !! r = Some a' /\
    match vr with
    | None => neighbors a' = []
    | Some radius =>
        scan_neighbors h_r a radius (pre ++ r :: post) = Some (neighbors a')
    end.
Proof. apply RunScript_sensing_order. Qed.

End SequentialSensing.

Lemma VectorLength_upper (v : V3) (l : R) :
  0 <= l -> X v * X v + Y v * Y v + Z3 v * Z3 v <= l * l -> VectorLength v <= l.
Proof.
  intros Hl H. unfold VectorLength.
  rewrite <- (sqrt_square l Hl). apply sqrt_le_1_alt. exact H.
Qed.

Lemma VectorLength_above (v : V3) (l : R) :
  0 <= l -> l * l < X v * X v + Y v * Y v + Z3 v * Z3 v -> l < VectorLength v.
Proof.
  intros Hl H. unfold VectorLength.
  rewrite <- (sqrt_square l Hl). apply sqrt_lt_1_alt. split; [nra|exact H].
Qed.



(** The decision of a living agent at rest, without curvature direction and
    without neighbours: only the jitter acts. *)
Lemma decide_at_rest (h : list Agent) (a : Agent)
    (max_speed max_slope alignment_weight separation_weight jitter : R)
    (g : Rng) :
  is_alive a = true -> velocity a = V3_zero -> curvature_dir a = V3_zero ->
  neighbors a = [] -> 0 <= max_speed ->
  decide h a max_speed max_slope alignment_weight separation_weight jitter g =
  Some (set_velocity a
          (VectorAdd (VectorScale V3_zero (slope_resistance a max_slope))
             (mkV3 (- jitter + (jitter - - jitter) * tape g (drawn g))
                   (- jitter + (jitter - - jitter) * tape g (S (drawn g))) 0)),
        mkRng (tape g) (S (S (drawn g)))).
Proof.
  intros Ha Hvel Hcd Hnb Hm. unfold decide. rewrite Ha, Hvel. cbn [negb].
  rewrite curvature_alignment_none, separation_nil by assumption.
  assert (Hlen : VectorLength (VectorScale V3_zero (slope_resistance a max_slope)) = 0)
    by (rewrite VectorLength_scale, VectorLength_zero; ring).
  rewrite clamp_speed_below by (rewrite Hlen; exact Hm).
  destruct (jitter_if_stuck_spec jitter
              (VectorScale V3_zero (slope_resistance a max_slope)) g)
    as [[H _]|[_ ->]]; [rewrite Hlen in H; lra|reflexivity].
Qed.

(** The update of the first agent of [near_state]: the jitter moves it. *)
Lemma near0_update :
  exists res w1 a0',
    update example_uuid4 0 [0; 1]%nat (Some flat_plane) default_params
      (mkWorld [near0; near1] zero_tape) = Some (res, w1) /\
    heap w1 !! 0%nat = Some a0' /\ heap w1 !! 1%nat = Some near1 /\
    id a0' = 1%N /\ X (position a0') = -0.01 /\ Y (position a0') = -0.01 /\
    Z3 (position a0') = 0.
Proof.
  set (w0 := mkWorld [near0; near1] zero_tape).
  set (p := default_params).
  assert (Hv : refs_valid (heap w0) [0; 1]%nat) by (repeat constructor).
  destruct (update_total example_uuid4 0 [0; 1]%nat (Some flat_plane) p w0)
    as (res & w1 & Hu); [cbn; lia | exact Hv | cbn; lra |].
  destruct (update_alive_result example_uuid4 0 [0; 1]%nat (Some flat_plane) p
              w0 w1 near0 res eq_refl eq_refl Hu)
    as (a1 & a2 & g2 & Hs & Hd & Hl').
  exists res, w1. eexists. split; [exact Hu|]. split; [exact Hl'|].
  split.
  { erewrite update_frame; [|exact Hu| |]; [reflexivity|lia|cbn; lia]. }
  destruct (aged_fields _ _ _ _ _ _ _ _ _ (eq_refl : is_alive near0 = true) Hs Hd)
    as (Hid & _ & _ & _ & Hvel & _).
  cbn [id position set_is_alive]. split; [exact Hid|].
  (* the neighbours of agent 0 *)
  destruct (sense_inv _ _ _ _ _ _ Hs) as (nb & Ha1 & Hscan).
  cbn [vision_radius p default_params] in Hscan.
  assert (nb = []) as ->.
  { apply (scan_neighbors_none_within _ _ _ _ _ Hscan).
    intros o other Hin Ho Hne.
    destruct Hin as [<-|[<-|[]]]; cbn in Ho; injection Ho as <-.
    - now contradiction Hne.
    - apply VectorLength_above; [lra|]. cbn. lra. }
  (* the decision of agent 0 *)
  subst a1.
  rewrite decide_at_rest in Hd; [|reflexivity..|cbn; lra].
  injection Hd as <- <-.
  unfold aged. cbn. lra.
Qed.

(** C1 as stated fails: the second agent senses the first one where the
    first one has moved to in the same step.  Against the positions of the
    start of the step the second agent has no neighbour within the radius 1
    (the first agent is 1.005 away); after [RunScript] its neighbour list
    holds the first agent, at its distance after the first agent's move. *)
Lemma RunScript_senses_moved_neighbor :
  scan_neighbors (heap (world near_state)) near1 1 [0; 1]%nat = Some [] /\
  exists st' a1' d,
    RunScript example_uuid4 zero_seed (Some 42%Z) 2 false (Some flat_plane)
      (Some 1) 0.5 0.8 0.05 0.12 0.01 near_state = Some st' /\
    heap (world st') !! 1%nat = Some a1' /\
    neighbors a1' = [(0%nat, d)] /\ d <= 1.
Proof.
  split.
  { cbn [scan_neighbors near_state world heap lookup list_lookup].
    change (N.eqb (id near1) (id near1)) with true.
    change (N.eqb (id near0) (id near1)) with false. cbn match.
    destruct (Rle_dec (Distance (position near1) (position near0)) 1) as [Hle|];
      [|reflexivity].
    exfalso. apply Rle_not_lt in Hle. apply Hle.
    apply VectorLength_above; [lra|]. cbn. lra. }
  destruct near0_update
    as (res0 & w1 & a0' & Hu0 & H0 & H1 & Hid & Hx & Hy & Hz).
  assert (Hlen1 : (2 <= length (heap w1))%nat).
  { apply lookup_lt_Some in H1. lia. }
  destruct (update_total example_uuid4 1 [0; 1]%nat (Some flat_plane)
              default_params w1) as (res1 & w2 & Hu1).
  { lia. } { repeat constructor; lia. } { cbn; lra. }
  destruct (update_neighbors example_uuid4 1 [0; 1]%nat (Some flat_plane)
              default_params w1 w2 near1 res1 H1 eq_refl Hu1)
    as (a1' & Ha1' & Hscan).
  cbn [vision_radius default_params] in Hscan.
  cbn [scan_neighbors] in Hscan. rewrite H0, H1 in Hscan.
  rewrite Hid in Hscan.
  change (N.eqb (id near1) (id near1)) with true in Hscan.
  change (N.eqb 1 (id near1)) with false in Hscan. cbn match in Hscan.
  assert (Hd : Distance (position near1) (position a0') <= 1).
  { apply VectorLength_upper; [lra|].
    cbn [VectorCreate X Y Z3 position near1 Agent_init].
    rewrite Hx, Hy, Hz. lra. }
  destruct (Rle_dec (Distance (position near1) (position a0')) 1); [|contradiction].
  injection Hscan as Hnb.
  assert (H0' : heap w2 !! 0%nat = Some a0').
  { erewrite update_frame; [exact H0|exact Hu1|lia|lia]. }
  assert (Hrun :
    RunScript example_uuid4 zero_seed (Some 42%Z) 2 false (Some flat_plane)
      (Some 1) 0.5 0.8 0.05 0.12 0.01 near_state =
    match RunScript_loop example_uuid4 [0; 1]%nat [0; 1]%nat (Some flat_plane)
            default_params (mkWorld [near0; near1] zero_tape) [] [] with
    | Some (active_agents, new_agents, w') =>
        Some (mkState w' (Some (active_agents ++ new_agents)))
    | None => None
    end) by reflexivity.
  rewrite Hrun. cbn [RunScript_loop]. rewrite Hu0, H0. rewrite Hu1, Ha1'.
  eexists _, a1', _. split; [reflexivity|]. cbn [world].
  split; [exact Ha1'|]. split; [symmetry; exact Hnb|exact Hd].
Qed.

Lemma RunScript_sequential_sensing_witness :
  self_agents near_state = Some ([0%nat] ++ 1%nat :: []) /\
  NoDup ([0%nat] ++ 1%nat :: []) /\
  refs_valid (heap (world near_state)) ([0%nat] ++ 1%nat :: []) /\
  0 <= 0.5 /\
  heap (world near_state) !! 1%nat = Some near1 /\ is_alive near1 = true /\
  exists st' h_r a',
    RunScript example_uuid4 zero_seed (Some 42%Z) 2 false (Some flat_plane)
      (Some 1) 0.5 0.8 0.05 0.12 0.01 near_state = Some st' /\
    h_r !! 0%nat = heap (world st') !! 0%nat /\
    heap (world st') !! 1%nat = Some a' /\
    scan_neighbors h_r near1 1 [0; 1]%nat = Some (neighbors a').
Proof.
  assert (Hnd : NoDup ([0%nat] ++ 1%nat :: [])).
  { cbn. apply NoDup_cons. split; [|apply NoDup_singleton].
    intros H. apply list_elem_of_In in H. destruct H as [H|[]]. discriminate. }
  assert (Hv : refs_valid (heap (world near_state)) ([0%nat] ++ 1%nat :: []))
    by (repeat constructor).
  assert (Hm : 0 <= 0.5) by lra.
  split; [reflexivity|]. split; [exact Hnd|]. split; [exact Hv|].
  split; [exact Hm|]. split; [reflexivity|]. split; [reflexivity|].
  destruct (RunScript_sequential_sensing example_uuid4 zero_seed (Some 42%Z) 2
              (Some flat_plane) (Some 1) 0.5 0.8 0.05 0.12 0.01 near_state
              [0%nat] [] 1%nat near1 eq_refl Hnd Hv Hm eq_refl eq_refl)
    as (st' & h_r & a' & Hrun & Hpre & _ & Ha' & Hscan).
  exists st', h_r, a'. split; [exact Hrun|].
  split; [apply Hpre; now left|]. split; [exact Ha'|exact Hscan].
Defined.

(** ** Dead agents *)

Section DeadAgents.

Variable uuid4 : nat -> N.
Variable random_seed : Z -> nat -> R.

(** An agent that dies in its update spawns nothing. *)
Lemma update_dying_no_spawn (self : nat) (agents : list nat)
    (surface : option Surface) (p : Params) (w w' : World) (a' : Agent)
    (res : option nat) :
  update uuid4 self agents surface p w = Some (res, w') ->
  heap w' !! self = Some a' -> is_alive a' = false -> res = None.
Proof.
  intros Hu Hl' Hdead.
  destruct (update_heap_shape _ _ _ _ _ _ _ _ Hu)
    as (a & a'' & new & Hl & Hh & [[_ ->]|(c & _ & _ & _ & Hal)]);
    [reflexivity|].
  rewrite Hh in Hl'. apply lookup_lt_Some in Hl.
  rewrite lookup_app_l in Hl' by now rewrite length_insert.
  rewrite list_lookup_insert_eq in Hl' by exact Hl. congruence.
Qed.

(** The builder: an agent of the population that is dead when [RunScript]
    returns is not in the next population. *)
Lemma RunScript_drops_dead (seed : option Z) (N : Z)
    (surface : option Surface) (vr : option R)
    (max_speed max_slope alignment_weight separation_weight jitter : R)
    (st st' : State) (agents : list nat) (r : nat) (a' : Agent) :
  self_agents st = Some agents -> NoDup agents ->
  refs_valid (heap (world st)) agents ->
  RunScript uuid4 random_seed seed N false surface vr max_speed max_slope
    alignment_weight separation_weight jitter st = Some st' ->
  In r agents -> heap (world st') !! r = Some a' -> is_alive a' = false ->
  exists agents', self_agents st' = Some agents' /\ ~ In r agents'.
Proof.
  intros Hag Hnd Hv Hrun Hin Hr Hdead. unfold RunScript in Hrun.
  rewrite Hag in Hrun.
  destruct (RunScript_loop _ _ _ _ _ _ _ _) as [[[act' new'] w']|] eqn:Hloop;
    [|discriminate].
  injection Hrun as <-. cbn [self_agents world] in *.
  eexists. split; [reflexivity|]. rewrite in_app_iff. intros [Hact|Hnew].
  - apply (RunScript_loop_active_alive _ _ _ _ _ _ _ _ _ _ _ r Hloop Hnd) in Hact.
    destruct Hact as [[]|[_ (b & Hb & Hal)]]. congruence.
  - rewrite (RunScript_loop_new _ _ _ _ _ _ _ _ _ _ _ Hloop) in Hnew.
    cbn [app heap] in Hnew. apply in_seq in Hnew.
    unfold refs_valid in Hv. rewrite Forall_forall in Hv.
    apply list_elem_of_In, Hv in Hin. lia.
Qed.

(** The simulator: the loop (as the loop of [RunScript] without the list of
    active agents). *)
Lemma simulator_loop_total (all todo : list nat) (surface : option Surface)
    (w : World) (new : list nat) :
  refs_valid (heap w) all -> refs_valid (heap w) todo ->
  exists new' w',
    simulator_loop uuid4 all todo surface w new = Some (new', w').
Proof.
  intros Hall Htodo. revert w new Hall Htodo.
  induction todo as [|x todo IH]; intros w new Hall Htodo;
    cbn [simulator_loop]; [eauto|].
  inversion Htodo as [|? ? Hx Hrest]; subst.
  destruct (update_total uuid4 x all surface default_params w Hx Hall)
    as (spawned & w1 & Hu); [cbn; lra|]. rewrite Hu.
  pose proof (update_length _ _ _ _ _ _ _ _ Hu) as Hlen.
  apply IH; (eapply Forall_impl; [eassumption|]; cbn; intros; lia).
Qed.

Lemma simulator_loop_length (all todo : list nat) (surface : option Surface)
    (w w' : World) (new new' : list nat) :
  simulator_loop uuid4 all todo surface w new = Some (new', w') ->
  (length (heap w) <= length (heap w'))%nat.
Proof.
  revert w new. induction todo as [|x todo IH]; intros w new;
    cbn [simulator_loop].
  - intros [= _ <-]. lia.
  - destruct (update uuid4 x all surface default_params w)
      as [[spawned w1]|] eqn:Hu; [|discriminate].
    intros Hloop. apply update_length in Hu. apply IH in Hloop. lia.
Qed.

Lemma simulator_loop_frame (all todo : list nat) (surface : option Surface)
    (w w' : World) (new new' : list nat) (r : nat) :
  simulator_loop uuid4 all todo surface w new = Some (new', w') ->
  ~ In r todo -> (r < length (heap w))%nat ->
  heap w' !! r = heap w !! r.
Proof.
  revert w new. induction todo as [|x todo IH]; intros w new;
    cbn [simulator_loop].
  - intros [= _ <-]. reflexivity.
  - destruct (update uuid4 x all surface default_params w)
      as [[spawned w1]|] eqn:Hu; [|discriminate].
    intros Hloop Hnin Hlt. rewrite (IH _ _ Hloop).
    + eapply update_frame; eauto. intros ->. apply Hnin. now left.
    + intros Hin. apply Hnin. now right.
    + apply update_length in Hu. lia.
Qed.

(** The simulator removes no agent: its list after the step holds every
    agent it received, alive or dead, and the attribute [agents] of the
    upstream component keeps them as well. *)
Lemma simulator_step_keeps_all (surface : option Surface) (st st' : State)
    (agents out : list nat) :
  self_agents st = Some agents ->
  simulator_step uuid4 surface st = Some (out, st') ->
  self_agents st' = Some agents /\ forall r, In r agents -> In r out.
Proof.
  intros Hag. unfold simulator_step. rewrite Hag.
  destruct (simulator_loop _ _ _ _ _ _) as [[new' w']|]; [|discriminate].
  intros [= <- <-]. split; [reflexivity|].
  intros r Hr. apply in_or_app. now left.
Qed.

(** A dead agent is not changed by the loop of [RunScript]. *)
Lemma RunScript_loop_dead_unchanged (all todo : list nat)
    (surface : option Surface) (p : Params) (w w' : World)
    (act new act' new' : list nat) (o : nat) (b : Agent) :
  heap w !! o = Some b -> is_alive b = false ->
  RunScript_loop uuid4 all todo surface p w act new = Some (act', new', w') ->
  heap w' !! o = Some b.
Proof.
  intros Ho Hdead. revert w act new Ho.
  induction todo as [|x todo IH]; intros w act new Ho; cbn [RunScript_loop].
  - intros [= _ _ <-]. exact Ho.
  - destruct (update uuid4 x all surface p w) as [[spawned w1]|] eqn:Hu;
      [|discriminate].
    destruct (heap w1 !! x) as [ax|]; [|discriminate].
    intros Hloop. eapply IH; [|exact Hloop].
    destruct (Nat.eq_dec x o) as [->|Hne].
    + rewrite (update_dead _ _ _ _ _ _ _ Ho Hdead) in Hu.
      now injection Hu as _ <-.
    + rewrite (update_frame _ _ _ _ _ _ _ _ _ Hu); [exact Ho|congruence|].
      eapply lookup_lt_Some; eauto.
Qed.

(** The scan records every other agent within the radius, alive or dead. *)
Lemma scan_neighbors_includes (h : list Agent) (a b : Agent) (radius : R)
    (agents : list nat) (nb : list (nat * R)) (o : nat) :
  scan_neighbors h a radius agents = Some nb ->
  In o agents -> h !! o = Some b -> id b <> id a ->
  Distance (position a) (position b) <= radius ->
  In (o, Distance (position a) (position b)) nb.
Proof.
  intros Hscan Hin Ho Hid Hdist. revert nb Hscan.
  induction agents as [|x l IH]; [destruct Hin|].
  intros nb. cbn [scan_neighbors].
  destruct (h !! x) as [other|] eqn:Hx; [|discriminate].
  destruct (scan_neighbors h a radius l) as [tl|] eqn:Htl; [|discriminate].
  destruct (Nat.eq_dec x o) as [->|Hne].
  - assert (other = b) as -> by congruence.
    apply N.eqb_neq in Hid. rewrite Hid.
    destruct (Rle_dec _ _); [|contradiction]. intros [= <-]. now left.
  - assert (IH' : In (o, Distance (position a) (position b)) tl).
    { apply IH; [|reflexivity]. destruct Hin; [contradiction|assumption]. }
    destruct (N.eqb _ _); [now intros [= <-]|].
    destruct (Rle_dec _ _); intros [= <-]; [now right|assumption].
Qed.

(** The builder senses a dead agent that is still in its population: an
    agent [r] of the population records every dead agent [o] of the
    population within the radius as a neighbour. *)
Lemma RunScript_senses_dead (seed : option Z) (N : Z)
    (surface : option Surface) (radius : R)
    (max_speed max_slope alignment_weight separation_weight jitter : R)
    (st : State) (pre post : list nat) (r o : nat) (a b : Agent) :
  self_agents st = Some (pre ++ r :: post) ->
  NoDup (pre ++ r :: post) ->
  refs_valid (heap (world st)) (pre ++ r :: post) ->
  0 <= max_speed ->
  heap (world st) !! r = Some a -> is_alive a = true ->
  In o (pre ++ r :: post) ->
  heap (world st) !! o = Some b -> is_alive b = false ->
  id b <> id a -> Distance (position a) (position b) <= radius ->
  exists st' a',
    RunScript uuid4 random_seed seed N false surface (Some radius) max_speed
      max_slope alignment_weight separation_weight jitter st = Some st' /\
    heap (world st') !! r = Some a' /\
    In (o, Distance (position a) (position b)) (neighbors a').
Proof.
  intros Hag Hnd Hv Hm Hr Ha Ho_in Ho Hdead Hid Hdist.
  destruct (RunScript_sensing_order uuid4 random_seed seed N surface
              (Some radius) max_speed max_slope alignment_weight
              separation_weight jitter st pre post r a Hag Hnd Hv Hm Hr Ha)
    as (st' & h_r & a' & Hrun & Hpre & Hpost & Ha' & Hscan).
  exists st', a'. split; [exact Hrun|]. split; [exact Ha'|].
  assert (Ho_hr : h_r !! o = Some b).
  { apply in_app_or in Ho_in as [Hin|Hin].
    - rewrite (Hpre o Hin).
      unfold RunScript in Hrun. rewrite Hag in Hrun.
      destruct (RunScript_loop _ _ _ _ _ _ _ _) as [[[act' new'] w']|] eqn:Hloop;
        [|discriminate].
      injection Hrun as <-. cbn [world].
      eapply RunScript_loop_dead_unchanged; [| |exact Hloop]; assumption.
    - rewrite (Hpost o Hin). exact Ho. }
  eapply scan_neighbors_includes; eauto.
Qed.

End DeadAgents.

(** ** The step of the simulator on an ageing population *)

Lemma spawn_agent_near_tape (u : N) (a : Agent) (surface : option Surface)
    (offset : R) (g : Rng) :
  tape (snd (spawn_agent_near u a surface offset g)) = tape g.
Proof. unfold spawn_agent_near. cbn. now destruct surface. Qed.

Lemma spawn_step_tape (uuid4 : nat -> N) (h : list Agent) (a : Agent)
    (surface : option Surface) (p : Params) (g : Rng) :
  tape (snd (spawn_step uuid4 h a surface p g)) = tape g.
Proof.
  unfold spawn_step. unfold random. destruct (Rlt_dec _ _); [|reflexivity].
  now rewrite spawn_agent_near_tape.
Qed.

(** An update reads the tape and leaves it as it is. *)
Lemma update_tape (uuid4 : nat -> N) (self : nat) (agents : list nat)
    (surface : option Surface) (p : Params) (w w' : World) (res : option nat) :
  update uuid4 self agents surface p w = Some (res, w') ->
  tape (rng w') = tape (rng w).
Proof.
  intros Hu. destruct (heap w !! self) as [a|] eqn:Hl;
    [|unfold update in Hu; rewrite Hl in Hu; discriminate].
  destruct (is_alive a) eqn:Ha.
  - destruct (update_alive_inv _ _ _ _ _ _ _ _ _ Hl Ha Hu)
      as (a1 & a2 & g2 & Hs & Hd & Hcase).
    apply decide_tape in Hd. cbn zeta in Hcase.
    destruct (dies p (aged a2 surface)).
    + destruct Hcase as [_ ->]. exact Hd.
    + pose proof (spawn_step_tape uuid4 (heap w) (aged a2 surface) surface p g2)
        as Ht.
      destruct (spawn_step _ _ _ _ _ _) as [[c|] g']; destruct Hcase as [_ ->];
        cbn [rng snd] in *; congruence.
  - rewrite (update_dead _ _ _ _ _ _ _ Hl Ha) in Hu. now injection Hu as _ <-.
Qed.

(** The slope sensed on the flat plane is small. *)
Lemma flat_plane_slope (a : Agent) :
  slope_magnitude (sense_geometry a (Some flat_plane)) <= 0.002.
Proof.
  unfold sense_geometry.
  cbn [get_uv flat_plane SurfaceClosestPoint sample_curvature SurfaceCurvature
       sample_slope EvaluateSurface slope_magnitude set_slope].
  apply VectorLength_upper; [lra|].
  cbn [X Y Z3 VectorAdd V3_sub VectorCreate].
  match goal with
  | |- ?l <= _ => replace l with (1e-3 * 1e-3 + 1e-3 * 1e-3) by ring
  end. lra.
Qed.

Lemma flat_plane_curvature_dir (a : Agent) :
  curvature_dir (sense_geometry a (Some flat_plane)) = V3_zero.
Proof. reflexivity. Qed.

(** The update, on the flat plane, of a living agent at rest with no other
    agent within its vision radius: the jitter alone moves it. *)
(** The update, on the flat plane, of a living agent at rest with no other
    agent within its vision radius: the jitter alone moves it. *)
Lemma update_at_rest_flat (uuid4 : nat -> N) (self : nat) (agents : list nat)
    (p : Params) (w : World) (a : Agent) (radius : R) :
  heap w !! self = Some a -> is_alive a = true -> velocity a = V3_zero ->
  refs_valid (heap w) agents -> 0 <= max_speed p ->
  vision_radius p = Some radius ->
  (forall o other, In o agents -> heap w !! o = Some other ->
     id other <> id a -> radius < Distance (position a) (position other)) ->
  0.002 <= slope_kill p ->
  exists res w' a',
    update uuid4 self agents (Some flat_plane) p w = Some (res, w') /\
    heap w' !! self = Some a' /\
    id a' = id a /\ age a' = (age a + 1)%Z /\
    X (position a') =
      X (position a) +
      (- jitter p + (jitter p - - jitter p) * tape (rng w) (drawn (rng w))) /\
    Y (position a') =
      Y (position a) +
      (- jitter p + (jitter p - - jitter p) * tape (rng w) (S (drawn (rng w)))) /\
    Z3 (position a') = 0 /\
    is_alive a' = negb (max_age p <? age a + 1)%Z.
Proof.
  intros Hl Ha Hvel Hv Hm Hvr Hfar Hkill.
  destruct (update_total uuid4 self agents (Some flat_plane) p w)
    as (res & w' & Hu); [eapply lookup_lt_Some; eauto | exact Hv | exact Hm |].
  destruct (update_alive_result uuid4 self agents (Some flat_plane) p
              w w' a res Hl Ha Hu)
    as (a1 & a2 & g2 & Hs & Hd & Hl').
  exists res, w'. eexists. split; [exact Hu|]. split; [exact Hl'|].
  destruct (aged_fields _ _ _ _ _ _ _ _ _ Ha Hs Hd)
    as (Hid & Hage & _ & _ & _ & _ & _ & _ & _ & Hsm & _).
  cbn [id age position is_alive set_is_alive].
  split; [exact Hid|]. split; [exact Hage|].
  assert (Hdies : dies p (aged a2 (Some flat_plane))
                  = (max_age p <? age a + 1)%Z).
  { unfold dies. rewrite Hage, Hsm.
    pose proof (flat_plane_slope a) as Hsl.
    destruct (Rgt_dec _ _); [lra|]. now rewrite orb_false_r. }
  rewrite Hdies.
  destruct (sense_inv _ _ _ _ _ _ Hs) as (nb & Ha1 & Hscan).
  rewrite Hvr in Hscan.
  assert (nb = []) as ->.
  { apply (scan_neighbors_none_within _ _ _ _ _ Hscan).
    intros o other Hin Ho Hne. cbn [id position set_neighbors] in *.
    rewrite sense_geometry_position. rewrite sense_geometry_id in Hne.
    now apply (Hfar o other). }
  subst a1.
  destruct (sense_geometry_frame a (Some flat_plane))
    as (_ & Hpos & Hvel' & _ & Hal' & _).
  rewrite decide_at_rest in Hd;
    [|cbn; congruence|cbn; congruence|reflexivity|reflexivity|exact Hm].
  injection Hd as <- <-.
  unfold aged, move. cbn [is_alive set_velocity set_neighbors]. rewrite Hal', Ha.
  cbn [negb]. cbn -[sense_geometry slope_resistance].
  rewrite Hpos. repeat split; try reflexivity; ring.
Qed.

Lemma NoDup_01 : NoDup [0; 1]%nat.
Proof.
  apply NoDup_cons. split; [|apply NoDup_singleton].
  intros H. apply list_elem_of_In in H. destruct H as [H|[]]. discriminate.
Qed.

(** C5, at the failing input: an agent that reaches age 201 in the step of
    agent_simulator.py dies in that step, and yet it is in the list of
    agents the simulator keeps and in the population of the builder; in the
    next step of the builder the other agent records the dead agent as a
    neighbour. *)
Theorem simulator_keeps_dead_agent :
  exists out st1 a0 a1,
    simulator_step example_uuid4 (Some flat_plane) aging_state
      = Some (out, st1) /\
    heap (world st1) !! 0%nat = Some a0 /\ is_alive a0 = false /\
    In 0%nat out /\ self_agents st1 = Some [0; 1]%nat /\
    heap (world st1) !! 1%nat = Some a1 /\ is_alive a1 = true /\
    exists st2 a1' d,
      RunScript example_uuid4 zero_seed (Some 42%Z) 2 false (Some flat_plane)
        (Some 5) 0.5 0.8 0.05 0.12 0.01 st1 = Some st2 /\
      heap (world st2) !! 1%nat = Some a1' /\
      In (0%nat, d) (neighbors a1').
Proof.
  set (w0 := mkWorld [elder; apart1] zero_tape).
  (* the update of the old agent *)
  destruct (update_at_rest_flat example_uuid4 0 [0; 1]%nat default_params w0
              elder 1) as (res0 & w1 & a0 & Hu0 & H0 & Hid0 & Hage0 & Hx0 & Hy0 & Hz0 & Hal0);
    [reflexivity | reflexivity | reflexivity | repeat constructor | cbn; lra
    | reflexivity | | cbn; lra |].
  { intros o other Hin Ho Hne.
    destruct Hin as [<-|[<-|[]]]; cbn in Ho; injection Ho as <-.
    - now contradiction Hne.
    - apply VectorLength_above; [lra|]. cbn. lra. }
  cbn in Hx0, Hy0, Hal0, Hid0.
  assert (H1 : heap w1 !! 1%nat = Some apart1).
  { erewrite update_frame; [|exact Hu0| |]; [reflexivity|lia|cbn; lia]. }
  assert (Ht1 : tape (rng w1) = fun _ => 0) by apply (update_tape _ _ _ _ _ _ _ _ Hu0).
  assert (Hlen1 : (2 <= length (heap w1))%nat).
  { apply lookup_lt_Some in H1. lia. }
  (* the update of the young agent *)
  destruct (update_at_rest_flat example_uuid4 1 [0; 1]%nat default_params w1
              apart1 1) as (res1 & w2 & a1 & Hu1 & H1' & Hid1 & Hage1 & Hx1 & Hy1 & Hz1 & Hal1);
    [exact H1 | reflexivity | reflexivity | repeat constructor; lia | cbn; lra
    | reflexivity | | cbn; lra |].
  { intros o other Hin Ho Hne.
    destruct Hin as [<-|[<-|[]]].
    - rewrite H0 in Ho. injection Ho as <-.
      apply VectorLength_above; [lra|].
      cbn [VectorCreate X Y Z3 position apart1 Agent_init].
      rewrite Hx0, Hy0, Hz0. lra.
    - rewrite H1 in Ho. injection Ho as <-. now contradiction Hne. }
  rewrite Ht1 in Hx1, Hy1. cbn in Hx1, Hy1, Hal1, Hid1.
  assert (H0' : heap w2 !! 0%nat = Some a0).
  { erewrite update_frame; [exact H0|exact Hu1|lia|lia]. }
  assert (Hlen2 : (2 <= length (heap w2))%nat).
  { apply lookup_lt_Some in H1'. lia. }
  assert (Hstep : simulator_step example_uuid4 (Some flat_plane) aging_state
                  = Some ([0; 1]%nat ++
                          (match res0 with Some c => [] ++ [c] | None => [] end
                           ++ match res1 with Some c => [c] | None => [] end),
                          mkState w2 (Some [0; 1]%nat))).
  { unfold simulator_step, aging_state. cbn [self_agents world simulator_loop].
    fold w0. rewrite Hu0, Hu1. destruct res0, res1; reflexivity. }
  eexists _, _, a0, a1. split; [exact Hstep|]. cbn [world self_agents].
  split; [exact H0'|]. split; [exact Hal0|]. split; [now left|].
  split; [reflexivity|]. split; [exact H1'|]. split; [exact Hal1|].
  destruct (RunScript_senses_dead example_uuid4 zero_seed (Some 42%Z) 2
              (Some flat_plane) 5 0.5 0.8 0.05 0.12 0.01
              (mkState w2 (Some [0; 1]%nat)) [0%nat] [] 1%nat 0%nat a1 a0)
    as (st2 & a1' & Hrun & Ha1' & Hin);
    [reflexivity | exact NoDup_01 | repeat constructor; cbn; lia | lra
    | exact H1' | exact Hal1 | now left | exact H0' | exact Hal0
    | rewrite Hid0, Hid1; discriminate | |].
  { apply VectorLength_upper; [lra|].
    cbn [VectorCreate X Y Z3]. rewrite Hx0, Hy0, Hz0, Hx1, Hy1, Hz1. lra. }
  exists st2, a1', (Distance (position a1) (position a0)).
  split; [exact Hrun|]. split; [exact Ha1'|exact Hin].
Qed.

(** [update] in terms of [aged] and [spawn_step]. *)
Lemma update_unfold (uuid4 : nat -> N) (self : nat) (agents : list nat)
    (surface : option Surface) (p : Params) (w : World) :
  update uuid4 self agents surface p w =
  match heap w !! self with
  | None => None
  | Some a =>
      if negb (is_alive a) then Some (None, w)
      else
        match sense (heap w) a agents surface (vision_radius p) with
        | None => None
        | Some a1 =>
            match decide (heap w) a1 (max_speed p) (max_slope p)
                    (alignment_weight p) (separation_weight p) (jitter p)
                    (rng w) with
            | None => None
            | Some (a2, g2) =>
                let a4 := aged a2 surface in
                if dies p a4 then
                  Some (None,
                        mkWorld (<[self := set_is_alive a4 false]> (heap w)) g2)
                else
                  match spawn_step uuid4 (heap w) a4 surface p g2 with
                  | (Some c, g') =>
                      Some (Some (length (heap w)),
                            mkWorld (<[self := a4]> (heap w) ++ [c]) g')
                  | (None, g') =>
                      Some (None, mkWorld (<[self := a4]> (heap w)) g')
                  end
            end
        end
  end.
Proof.
  unfold update, spawn_step, aged.
  destruct (heap w !! self) as [a|]; [|reflexivity].
  destruct (negb (is_alive a)); [reflexivity|].
  destruct (sense _ _ _ _ _) as [a1|]; [|reflexivity].
  destruct (decide _ _ _ _ _ _ _ _) as [[a2 g2]|]; [|reflexivity].
  cbn zeta. destruct (dies _ _); [reflexivity|].
  destruct (random g2) as [x g3]. destruct (Rlt_dec _ _); [|reflexivity].
  now destruct (spawn_agent_near _ _ _ _ _) as [[c|] g4].
Qed.

(** ** Determinism: a run does not depend on the uuids *)

Section Reid.

Variables ua ub : nat -> N.
Hypothesis ua_inj : forall i j, ua i = ua j -> i = j.
Hypothesis ub_inj : forall i j, ub i = ub j -> i = j.

Lemma reheap_lookup (h : list Agent) (r : nat) :
  reheap ub h !! r = (fun a => set_id a (ub r)) <$> (h !! r).
Proof. unfold reheap. apply list_lookup_imap. Qed.

Lemma reheap_length (h : list Agent) : length (reheap ub h) = length h.
Proof. unfold reheap. apply length_imap. Qed.

Lemma reheap_insert (h : list Agent) (r : nat) (a : Agent) :
  <[r := set_id a (ub r)]> (reheap ub h) = reheap ub (<[r := a]> h).
Proof.
  apply list_eq. intros k. rewrite reheap_lookup.
  destruct (Nat.eq_dec k r) as [->|Hne].
  - destruct (lt_dec r (length h)) as [Hlt|Hge].
    + rewrite !list_lookup_insert_eq by (rewrite ?reheap_length; lia).
      reflexivity.
    + rewrite !list_insert_ge by (rewrite ?reheap_length; lia).
      apply reheap_lookup.
  - rewrite !list_lookup_insert_ne by congruence. apply reheap_lookup.
Qed.

Lemma reheap_snoc (h : list Agent) (c : Agent) :
  reheap ub h ++ [set_id c (ub (length h))] = reheap ub (h ++ [c]).
Proof.
  unfold reheap. rewrite imap_app. cbn. now rewrite Nat.add_0_r.
Qed.

Lemma scan_neighbors_reheap (h : list Agent) (self : Agent) (s : nat)
    (radius : R) (agents : list nat) :
  heap_ids_ok ua h -> id self = ua s ->
  scan_neighbors (reheap ub h) (set_id self (ub s)) radius agents =
  scan_neighbors h self radius agents.
Proof.
  intros Hids Hself. induction agents as [|o rest IH]; cbn [scan_neighbors];
    [reflexivity|].
  rewrite reheap_lookup. destruct (h !! o) as [other|] eqn:Ho; [|reflexivity].
  cbn [fmap option_fmap option_map]. rewrite IH.
  destruct (scan_neighbors h self radius rest) as [tl|]; [|reflexivity].
  cbn [id position set_id].
  rewrite (Hids o other Ho), Hself.
  replace (N.eqb (ub o) (ub s)) with (N.eqb (ua o) (ua s)); [reflexivity|].
  destruct (N.eqb_spec (ua o) (ua s)) as [H|H], (N.eqb_spec (ub o) (ub s)) as [H'|H'];
    try reflexivity.
  - apply ua_inj in H. subst. now contradiction H'.
  - apply ub_inj in H'. subst. now contradiction H.
Qed.


Lemma sense_geometry_set_id (a : Agent) (i : N) (surface : option Surface) :
  sense_geometry (set_id a i) surface = set_id (sense_geometry a surface) i.
Proof.
  unfold sense_geometry. cbn [position set_id].
  destruct (get_uv surface (position a)); [|reflexivity].
  destruct (sample_curvature _ _), (sample_slope _ _ _). reflexivity.
Qed.

Lemma sense_reheap (h : list Agent) (a : Agent) (s : nat) (agents : list nat)
    (surface : option Surface) (vr : option R) :
  heap_ids_ok ua h -> id a = ua s ->
  sense (reheap ub h) (set_id a (ub s)) agents surface vr =
  (fun a' => set_id a' (ub s)) <$> sense h a agents surface vr.
Proof.
  intros Hids Hid. unfold sense. rewrite sense_geometry_set_id.
  destruct vr as [radius|]; [|reflexivity].
  change (set_neighbors (set_id (sense_geometry a surface) (ub s)) [])
    with (set_id (set_neighbors (sense_geometry a surface) []) (ub s)).
  rewrite scan_neighbors_reheap;
    [|exact Hids|cbn; rewrite sense_geometry_id; exact Hid].
  now destruct (scan_neighbors _ _ _ _).
Qed.

Lemma accumulate_away_reheap (h : list Agent) (a : Agent) (i : N)
    (nbs : list (nat * R)) (acc : V3) :
  accumulate_away (reheap ub h) (set_id a i) nbs acc =
  accumulate_away h a nbs acc.
Proof.
  revert acc. induction nbs as [|[o dist] rest IH]; intros acc;
    cbn [accumulate_away]; [reflexivity|].
  rewrite reheap_lookup. destruct (h !! o) as [other|]; [|reflexivity].
  cbn [fmap option_fmap option_map position set_id].
  destruct (Rgt_dec _ _); [|apply IH].
  destruct (VectorUnitize _); [apply IH|reflexivity].
Qed.

Lemma decide_reheap (h : list Agent) (a : Agent) (i : N)
    (max_speed max_slope alignment_weight separation_weight jitter : R)
    (g : Rng) :
  decide (reheap ub h) (set_id a i) max_speed max_slope alignment_weight
    separation_weight jitter g =
  (fun r : Agent * Rng => (set_id (fst r) i, snd r)) <$>
    decide h a max_speed max_slope alignment_weight separation_weight jitter g.
Proof.
  unfold decide. cbn [is_alive velocity set_id].
  destruct (negb (is_alive a)); [reflexivity|].
  change (slope_resistance (set_id a i) max_slope)
    with (slope_resistance a max_slope).
  change (curvature_alignment (set_id a i)) with (curvature_alignment a).
  destruct (curvature_alignment a _ _) as [v2|]; [|reflexivity].
  unfold separation. cbn [neighbors set_id].
  rewrite accumulate_away_reheap.
  destruct (match neighbors a with [] => _ | _ => _ end) as [v3|];
    [|reflexivity].
  destruct (clamp_speed max_speed v3) as [v4|]; [|reflexivity].
  now destruct (jitter_if_stuck jitter v4 g).
Qed.

Lemma aged_set_id (a : Agent) (i : N) (surface : option Surface) :
  aged (set_id a i) surface = set_id (aged a surface) i.
Proof.
  unfold aged, move. cbn [is_alive set_id]. now destruct (is_alive a).
Qed.

Lemma spawn_step_reheap (h : list Agent) (a : Agent) (i : N)
    (surface : option Surface) (p : Params) (g : Rng) :
  spawn_step ub (reheap ub h) (set_id a i) surface p g =
  (let r := spawn_step ua h a surface p g in
   ((fun c => set_id c (ub (length h))) <$> fst r, snd r)).
Proof.
  unfold spawn_step. rewrite reheap_length.
  change (spawn_probability p (set_id a i)) with (spawn_probability p a).
  destruct (random g) as [x g3]. destruct (Rlt_dec _ _); [|reflexivity].
  unfold spawn_agent_near. cbn [position set_id].
  destruct (uniform (- 0.2) 0.2 g3) as [jx g1].
  destruct (uniform (- 0.2) 0.2 g1) as [jy g2].
  destruct surface as [srf|]; [|reflexivity].
  destruct (uniform (-0.05) 0.05 g2) as [vx g4].
  now destruct (uniform (-0.05) 0.05 g4) as [vy g5].
Qed.


Lemma update_reheap (self : nat) (agents : list nat)
    (surface : option Surface) (p : Params) (w : World) :
  heap_ids_ok ua (heap w) ->
  update ub self agents surface p (reworld ub w) =
  (fun r : option nat * World => (fst r, reworld ub (snd r))) <$>
    update ua self agents surface p w.
Proof.
  intros Hids. rewrite !update_unfold.
  change (heap (reworld ub w)) with (reheap ub (heap w)).
  change (rng (reworld ub w)) with (rng w).
  rewrite reheap_lookup. destruct (heap w !! self) as [a|] eqn:Hl;
    [|reflexivity].
  cbn [fmap option_fmap option_map is_alive set_id].
  destruct (negb (is_alive a)); [reflexivity|].
  rewrite (sense_reheap _ _ _ _ _ _ Hids (Hids _ _ Hl)).
  destruct (sense _ _ _ _ _) as [a1|]; [|reflexivity].
  cbn [fmap option_fmap option_map]. rewrite decide_reheap.
  destruct (decide _ _ _ _ _ _ _ _) as [[a2 g2]|]; [|reflexivity].
  cbn [fmap option_fmap option_map fst snd]. cbn zeta.
  rewrite aged_set_id.
  change (dies p (set_id (aged a2 surface) (ub self)))
    with (dies p (aged a2 surface)).
  destruct (dies p (aged a2 surface)).
  - cbn. unfold reworld. cbn [heap rng]. rewrite <- reheap_insert. reflexivity.
  - rewrite spawn_step_reheap. cbn zeta.
    destruct (spawn_step ua (heap w) (aged a2 surface) surface p g2)
      as [[c|] g'];
      cbn [fmap option_fmap option_map fst snd]; rewrite ?reheap_length;
      unfold reworld; cbn [heap rng].
    + rewrite <- reheap_snoc, length_insert, reheap_insert. reflexivity.
    + rewrite <- reheap_insert. reflexivity.
Qed.


Lemma update_ids_ok (self : nat) (agents : list nat)
    (surface : option Surface) (p : Params) (w w' : World) (res : option nat) :
  heap_ids_ok ua (heap w) ->
  update ua self agents surface p w = Some (res, w') ->
  heap_ids_ok ua (heap w').
Proof.
  intros Hids. rewrite update_unfold.
  destruct (heap w !! self) as [a|] eqn:Hl; [|discriminate].
  destruct (is_alive a) eqn:Ha; cbn [negb]; [|now intros [= _ <-]].
  destruct (sense _ _ _ _ _) as [a1|] eqn:Hs; [|discriminate].
  destruct (decide _ _ _ _ _ _ _ _) as [[a2 g2]|] eqn:Hd; [|discriminate].
  destruct (aged_fields _ _ _ _ _ _ _ _ _ Ha Hs Hd) as (Hid & _).
  pose proof (lookup_lt_Some _ _ _ Hl) as Hlt.
  assert (Hins : forall b, id b = id a ->
            heap_ids_ok ua (<[self := b]> (heap w))).
  { intros b Hb r x Hr. destruct (Nat.eq_dec r self) as [->|Hne].
    - rewrite list_lookup_insert_eq in Hr by exact Hlt. injection Hr as <-.
      rewrite Hb. now apply Hids.
    - rewrite list_lookup_insert_ne in Hr by congruence. now apply Hids. }
  cbn zeta. destruct (dies p (aged a2 surface)).
  - intros [= _ <-]. cbn [heap]. apply Hins. exact Hid.
  - destruct (spawn_step _ _ _ _ _ _) as [[c|] g'] eqn:Hsp; intros [= _ <-];
      cbn [heap]; [|apply Hins; exact Hid].
    destruct (spawn_step_init _ _ _ _ _ _ _ _ Hsp) as (pos & vel & ->).
    intros r x Hr. destruct (lt_dec r (length (heap w))) as [Hr_lt|Hr_ge].
    + rewrite lookup_app_l in Hr by now rewrite length_insert.
      eapply Hins; eauto.
    + rewrite lookup_app_r in Hr by (rewrite length_insert; lia).
      rewrite length_insert in Hr.
      destruct (r - length (heap w))%nat as [|k] eqn:Hk; cbn in Hr;
        [|now destruct k].
      injection Hr as <-. cbn. f_equal. lia.
Qed.

Lemma RunScript_loop_reheap (all todo : list nat) (surface : option Surface)
    (p : Params) (w : World) (act new : list nat) :
  heap_ids_ok ua (heap w) ->
  RunScript_loop ub all todo surface p (reworld ub w) act new =
  (fun r : list nat * list nat * World =>
     (fst (fst r), snd (fst r), reworld ub (snd r))) <$>
    RunScript_loop ua all todo surface p w act new.
Proof.
  revert w act new. induction todo as [|x todo IH]; intros w act new Hids;
    cbn [RunScript_loop]; [reflexivity|].
  rewrite update_reheap by exact Hids.
  destruct (update ua x all surface p w) as [[spawned w1]|] eqn:Hu;
    [|reflexivity].
  cbn [fmap option_fmap option_map fst snd].
  change (heap (reworld ub w1)) with (reheap ub (heap w1)). rewrite reheap_lookup.
  destruct (heap w1 !! x) as [a|]; [|reflexivity].
  cbn [fmap option_fmap option_map is_alive set_id].
  apply IH. eapply update_ids_ok; eauto.
Qed.

Lemma RunScript_loop_ids_ok (all todo : list nat) (surface : option Surface)
    (p : Params) (w w' : World) (act new act' new' : list nat) :
  heap_ids_ok ua (heap w) ->
  RunScript_loop ua all todo surface p w act new = Some (act', new', w') ->
  heap_ids_ok ua (heap w').
Proof.
  revert w act new. induction todo as [|x todo IH]; intros w act new Hids;
    cbn [RunScript_loop].
  - now intros [= _ _ <-].
  - destruct (update ua x all surface p w) as [[spawned w1]|] eqn:Hu;
      [|discriminate].
    destruct (heap w1 !! x) as [a|]; [|discriminate].
    apply IH. eapply update_ids_ok; eauto.
Qed.

Lemma heap_ids_ok_snoc (h : list Agent) (pos vel : V3) :
  heap_ids_ok ua h ->
  heap_ids_ok ua (h ++ [Agent_init (ua (length h)) pos vel]).
Proof.
  intros Hids r x Hr. destruct (lt_dec r (length h)) as [Hlt|Hge].
  - rewrite lookup_app_l in Hr by exact Hlt. now apply Hids.
  - rewrite lookup_app_r in Hr by lia.
    destruct (r - length h)%nat as [|k] eqn:Hk; cbn in Hr; [|now destruct k].
    injection Hr as <-. cbn. f_equal. lia.
Qed.

Lemma build_agents_loop_reheap (n : nat) (s : Surface) (w : World)
    (made : list nat) :
  build_agents_loop ub n s (reworld ub w) made =
  (let r := build_agents_loop ua n s w made in (fst r, reworld ub (snd r))).
Proof.
  revert w made. induction n as [|n IH]; intros w made;
    cbn [build_agents_loop]; [reflexivity|].
  change (rng (reworld ub w)) with (rng w).
  change (heap (reworld ub w)) with (reheap ub (heap w)).
  destruct (uniform _ _ (rng w)) as [u g1]. destruct (uniform _ _ g1) as [v g2].
  destruct (uniform _ _ g2) as [vx g3]. destruct (uniform _ _ g3) as [vy g4].
  rewrite reheap_length.
  change (Agent_init (ub (length (heap w))) (EvaluateSurface s u v)
            (mkV3 vx vy 0))
    with (set_id (Agent_init (ua (length (heap w))) (EvaluateSurface s u v)
                    (mkV3 vx vy 0)) (ub (length (heap w)))).
  rewrite reheap_snoc. apply (IH (mkWorld _ g4)).
Qed.

Lemma build_agents_loop_ids_ok (n : nat) (s : Surface) (w : World)
    (made : list nat) :
  heap_ids_ok ua (heap w) ->
  heap_ids_ok ua (heap (snd (build_agents_loop ua n s w made))).
Proof.
  revert w made. induction n as [|n IH]; intros w made Hids;
    cbn [build_agents_loop]; [exact Hids|].
  destruct (uniform _ _ (rng w)) as [u g1]. destruct (uniform _ _ g1) as [v g2].
  destruct (uniform _ _ g2) as [vx g3]. destruct (uniform _ _ g3) as [vy g4].
  apply IH. cbn [heap]. now apply heap_ids_ok_snoc.
Qed.

Lemma RunScript_reheap (random_seed : Z -> nat -> R) (seed : option Z) (N : Z)
    (reset : bool) (surface : option Surface) (vr : option R)
    (max_speed max_slope alignment_weight separation_weight jitter : R)
    (st : State) :
  heap_ids_ok ua (heap (world st)) ->
  RunScript ub random_seed seed N reset surface vr max_speed max_slope
    alignment_weight separation_weight jitter (restate ub st) =
  restate ub <$>
    RunScript ua random_seed seed N reset surface vr max_speed max_slope
      alignment_weight separation_weight jitter st.
Proof.
  intros Hids. unfold RunScript.
  cbn [restate world self_agents reworld heap rng].
  set (g0 := seed_everything random_seed seed (rng (world st))).
  set (p := RunScript_params _ _ _ _ _ _).
  assert (Hbuild :
    build_agents ub N surface (mkWorld (reheap ub (heap (world st))) g0) =
    (let r := build_agents ua N surface (mkWorld (heap (world st)) g0) in
     (fst r, reworld ub (snd r)))).
  { unfold build_agents. destruct surface as [s|]; [|reflexivity].
    apply (build_agents_loop_reheap _ s (mkWorld (heap (world st)) g0)). }
  assert (Hbuild_ok :
    heap_ids_ok ua
      (heap (snd (build_agents ua N surface (mkWorld (heap (world st)) g0))))).
  { unfold build_agents. destruct surface as [s|]; [|exact Hids].
    now apply build_agents_loop_ids_ok. }
  assert (Hloop : forall l w, heap_ids_ok ua (heap w) ->
    match RunScript_loop ub l l surface p (reworld ub w) [] [] with
    | Some (act, new, w2) => Some (mkState w2 (Some (act ++ new)))
    | None => None
    end =
    restate ub <$>
    match RunScript_loop ua l l surface p w [] [] with
    | Some (act, new, w2) => Some (mkState w2 (Some (act ++ new)))
    | None => None
    end).
  { intros l w Hw. rewrite RunScript_loop_reheap by exact Hw.
    now destruct (RunScript_loop ua l l surface p w [] []) as [[[act new] w2]|]. }
  destruct (self_agents st) as [l|]; [destruct reset|].
  - rewrite Hbuild.
    destruct (build_agents ua N surface _) as [l' w1]. cbn zeta. cbn [fst snd].
    apply Hloop. exact Hbuild_ok.
  - apply (Hloop l (mkWorld (heap (world st)) g0)). exact Hids.
  - rewrite Hbuild.
    destruct (build_agents ua N surface _) as [l' w1]. cbn zeta. cbn [fst snd].
    apply Hloop. exact Hbuild_ok.
Qed.

Lemma RunScript_ids_ok (random_seed : Z -> nat -> R) (seed : option Z) (N : Z)
    (reset : bool) (surface : option Surface) (vr : option R)
    (max_speed max_slope alignment_weight separation_weight jitter : R)
    (st st' : State) :
  heap_ids_ok ua (heap (world st)) ->
  RunScript ua random_seed seed N reset surface vr max_speed max_slope
    alignment_weight separation_weight jitter st = Some st' ->
  heap_ids_ok ua (heap (world st')).
Proof.
  intros Hids. unfold RunScript.
  set (g0 := seed_everything random_seed seed (rng (world st))).
  assert (Hbuild_ok :
    heap_ids_ok ua
      (heap (snd (build_agents ua N surface (mkWorld (heap (world st)) g0))))).
  { unfold build_agents. destruct surface as [s|]; [|exact Hids].
    now apply build_agents_loop_ids_ok. }
  destruct (match self_agents st with
            | Some l => if reset then build_agents ua N surface _ else (l, _)
            | None => build_agents ua N surface _
            end) as [l w1] eqn:Hpop.
  assert (Hw1 : heap_ids_ok ua (heap w1)).
  { destruct (self_agents st) as [l0|]; [destruct reset|].
    - now rewrite Hpop in Hbuild_ok.
    - now injection Hpop as _ <-.
    - now rewrite Hpop in Hbuild_ok. }
  destruct (RunScript_loop _ _ _ _ _ _ _ _) as [[[act new] w2]|] eqn:Hloop;
    [|discriminate].
  intros [= <-]. cbn [world]. eapply RunScript_loop_ids_ok; eauto.
Qed.


Lemma run_reheap (random_seed : Z -> nat -> R) (seed : option Z) (N : Z)
    (reset : bool) (surface : option Surface) (vr : option R)
    (max_speed max_slope alignment_weight separation_weight jitter : R)
    (steps : nat) (st : State) :
  heap_ids_ok ua (heap (world st)) ->
  run ub random_seed seed N reset surface vr max_speed max_slope
    alignment_weight separation_weight jitter steps (restate ub st) =
  restate ub <$>
    run ua random_seed seed N reset surface vr max_speed max_slope
      alignment_weight separation_weight jitter steps st.
Proof.
  revert st. induction steps as [|n IH]; intros st Hids; cbn [run];
    [reflexivity|].
  rewrite RunScript_reheap by exact Hids.
  destruct (RunScript ua _ _ _ _ _ _ _ _ _ _ _ st) as [st'|] eqn:Hrun;
    [|reflexivity].
  cbn [fmap option_fmap option_map]. apply IH.
  eapply RunScript_ids_ok; eauto.
Qed.

Lemma population_restate (st : State) :
  population (restate ub st) =
  map (fun r => (fun a => set_id a (ub r)) <$> heap (world st) !! r)
    (match self_agents st with Some l => l | None => [] end).
Proof.
  unfold population. cbn [restate self_agents world reworld heap].
  destruct (self_agents st) as [l|]; [|reflexivity].
  apply map_ext. intros r. apply reheap_lookup.
Qed.

Lemma final_positions_restate (st : State) :
  final_positions (restate ub st) = final_positions st.
Proof.
  unfold final_positions. rewrite population_restate. unfold population.
  destruct (self_agents st) as [l|]; [|reflexivity].
  rewrite !map_map. apply map_ext. intros r.
  now destruct (heap (world st) !! r).
Qed.

Lemma final_velocities_restate (st : State) :
  final_velocities (restate ub st) = final_velocities st.
Proof.
  unfold final_velocities. rewrite population_restate. unfold population.
  destruct (self_agents st) as [l|]; [|reflexivity].
  rewrite !map_map. apply map_ext. intros r.
  now destruct (heap (world st) !! r).
Qed.

Lemma population_size_restate (st : State) :
  population_size (restate ub st) = population_size st.
Proof.
  unfold population_size. rewrite population_restate. unfold population.
  destruct (self_agents st) as [l|]; now rewrite ?length_map.
Qed.

End Reid.

(** ** Runs complete *)

Section RunTotal.

Variable uuid4 : nat -> N.
Variable random_seed : Z -> nat -> R.

Lemma build_agents_loop_valid (n : nat) (s : Surface) (w : World)
    (made : list nat) :
  refs_valid (heap w) made ->
  refs_valid (heap (snd (build_agents_loop uuid4 n s w made)))
    (fst (build_agents_loop uuid4 n s w made)).
Proof.
  revert w made. induction n as [|n IH]; intros w made Hv;
    cbn [build_agents_loop]; [exact Hv|].
  destruct (uniform _ _ (rng w)) as [u g1]. destruct (uniform _ _ g1) as [v g2].
  destruct (uniform _ _ g2) as [vx g3]. destruct (uniform _ _ g3) as [vy g4].
  apply IH. cbn [heap]. unfold refs_valid in *. apply Forall_app. split.
  - eapply Forall_impl; [exact Hv|]. cbn. intros r Hr.
    rewrite length_app. cbn. lia.
  - repeat constructor. rewrite length_app. cbn. lia.
Qed.

Lemma build_agents_valid (N : Z) (surface : option Surface) (w : World) :
  refs_valid (heap (snd (build_agents uuid4 N surface w)))
    (fst (build_agents uuid4 N surface w)).
Proof.
  unfold build_agents. destruct surface as [s|]; [|constructor].
  apply build_agents_loop_valid. constructor.
Qed.

(** [RunScript] completes on a well-formed component when [max_speed] is
    not negative, and leaves a well-formed component. *)
Lemma RunScript_total (seed : option Z) (N : Z) (reset : bool)
    (surface : option Surface) (vr : option R)
    (max_speed max_slope alignment_weight separation_weight jitter : R)
    (st : State) :
  state_ok st -> 0 <= max_speed ->
  exists st',
    RunScript uuid4 random_seed seed N reset surface vr max_speed max_slope
      alignment_weight separation_weight jitter st = Some st' /\
    state_ok st'.
Proof.
  intros Hok Hm. unfold RunScript.
  set (w0 := mkWorld (heap (world st))
               (seed_everything random_seed seed (rng (world st)))).
  set (p := RunScript_params _ _ _ _ _ _).
  pose proof (build_agents_valid N surface w0) as Hb.
  destruct (match self_agents st with
            | Some l => if reset then build_agents uuid4 N surface w0 else (l, w0)
            | None => build_agents uuid4 N surface w0
            end) as [l w1] eqn:Hpop.
  assert (Hv : refs_valid (heap w1) l).
  { unfold state_ok in Hok.
    destruct (self_agents st) as [l0|]; [destruct reset|].
    - now rewrite Hpop in Hb.
    - injection Hpop as <- <-. exact Hok.
    - now rewrite Hpop in Hb. }
  destruct (RunScript_loop_total uuid4 l l surface p w1 [] [] Hv Hv Hm)
    as (act' & new' & w' & Hloop).
  rewrite Hloop. eexists. split; [reflexivity|].
  unfold state_ok. cbn [self_agents world].
  pose proof (RunScript_loop_length _ _ _ _ _ _ _ _ _ _ _ Hloop) as Hlen.
  destruct (RunScript_loop_active _ _ _ _ _ _ _ _ _ _ _ Hloop)
    as (act1 & -> & Hsub).
  rewrite (RunScript_loop_new _ _ _ _ _ _ _ _ _ _ _ Hloop).
  cbn [app]. unfold refs_valid in *. apply Forall_app. split.
  - apply Forall_forall. intros r Hr.
    pose proof (elem_of_sublist _ _ _ Hr Hsub) as Hr'.
    rewrite Forall_forall in Hv. specialize (Hv r Hr'). cbn in Hv. lia.
  - apply Forall_forall. intros r Hr. apply list_elem_of_In, in_seq in Hr. lia.
Qed.

Lemma run_total (seed : option Z) (N : Z) (reset : bool)
    (surface : option Surface) (vr : option R)
    (max_speed max_slope alignment_weight separation_weight jitter : R)
    (steps : nat) (st : State) :
  state_ok st -> 0 <= max_speed ->
  exists st',
    run uuid4 random_seed seed N reset surface vr max_speed max_slope
      alignment_weight separation_weight jitter steps st = Some st' /\
    state_ok st'.
Proof.
  intros Hok Hm. revert st Hok. induction steps as [|n IH]; intros st Hok;
    cbn [run]; [eauto|].
  destruct (RunScript_total seed N reset surface vr max_speed max_slope
              alignment_weight separation_weight jitter st Hok Hm)
    as (st1 & -> & Hok1).
  apply IH. exact Hok1.
Qed.

End RunTotal.

(** C3: two runs with the same seed, the same inputs and the same number of
    steps end with the same positions, the same velocities and the same
    population size, whatever uuids the two runs draw (uuids do not repeat
    within a run). *)
Theorem run_deterministic (ua ub : nat -> N) (random_seed : Z -> nat -> R)
    (seed : option Z) (N : Z) (reset : bool) (surface : option Surface)
    (vr : option R)
    (max_speed max_slope alignment_weight separation_weight jitter : R)
    (steps : nat) :
  (forall i j, ua i = ua j -> i = j) ->
  (forall i j, ub i = ub j -> i = j) ->
  0 <= max_speed ->
  exists sa sb,
    run ua random_seed seed N reset surface vr max_speed max_slope
      alignment_weight separation_weight jitter steps
      (fresh_component random_seed) = Some sa /\
    run ub random_seed seed N reset surface vr max_speed max_slope
      alignment_weight separation_weight jitter steps
      (fresh_component random_seed) = Some sb /\
    final_positions sa = final_positions sb /\
    final_velocities sa = final_velocities sb /\
    population_size sa = population_size sb.
Proof.
  intros Ha Hb Hm.
  destruct (run_total ua random_seed seed N reset surface vr max_speed
              max_slope alignment_weight separation_weight jitter steps
              (fresh_component random_seed) I Hm) as (sa & Hrun & _).
  exists sa, (restate ub sa). split; [exact Hrun|]. split.
  - change (fresh_component random_seed)
      with (restate ub (fresh_component random_seed)).
    rewrite (run_reheap ua ub Ha Hb); [now rewrite Hrun|].
    intros r a Hr. destruct r; discriminate.
  - rewrite final_positions_restate, final_velocities_restate,
      population_size_restate. auto.
Qed.

Lemma run_deterministic_witness :
  (forall i j, example_uuid4 i = example_uuid4 j -> i = j) /\
  (forall i j, other_uuid4 i = other_uuid4 j -> i = j) /\
  0 <= 0.5 /\
  exists sa sb,
    run example_uuid4 zero_seed (Some 42%Z) 3 false (Some flat_plane) (Some 1)
      0.5 0.8 0.05 0.12 0.01 2 (fresh_component zero_seed) = Some sa /\
    run other_uuid4 zero_seed (Some 42%Z) 3 false (Some flat_plane) (Some 1)
      0.5 0.8 0.05 0.12 0.01 2 (fresh_component zero_seed) = Some sb /\
    final_positions sa = final_positions sb /\
    population_size sa = population_size sb.
Proof.
  assert (Ha : forall i j, example_uuid4 i = example_uuid4 j -> i = j).
  { unfold example_uuid4. intros i j H. apply Nat2N.inj in H. lia. }
  assert (Hb : forall i j, other_uuid4 i = other_uuid4 j -> i = j).
  { unfold other_uuid4. intros i j H. apply Nat2N.inj in H. lia. }
  assert (Hm : 0 <= 0.5) by lra.
  split; [exact Ha|]. split; [exact Hb|]. split; [exact Hm|].
  destruct (run_deterministic example_uuid4 other_uuid4 zero_seed (Some 42%Z) 3
              false (Some flat_plane) (Some 1) 0.5 0.8 0.05 0.12 0.01 2
              Ha Hb Hm) as (sa & sb & Hra & Hrb & Hp & _ & Hn).
  exists sa, sb. auto.
Defined.

(** ** The states a run reaches *)

Section Reachable.

Variable uuid4 : nat -> N.
Variable random_seed : Z -> nat -> R.

(** [build_agents] appends its agents to the heap and returns them in the
    order of their construction. *)
Lemma build_agents_loop_shape (n : nat) (s : Surface) (w : World)
    (made : list nat) :
  let r := build_agents_loop uuid4 n s w made in
  fst r = made ++ seq (length (heap w)) n /\
  length (heap (snd r)) = (length (heap w) + n)%nat /\
  (Forall path_ok (heap w) -> Forall path_ok (heap (snd r))).
Proof.
  revert w made. induction n as [|n IH]; intros w made;
    cbn [build_agents_loop seq].
  - cbn. rewrite app_nil_r, Nat.add_0_r. auto.
  - destruct (uniform _ _ (rng w)) as [u g1].
    destruct (uniform _ _ g1) as [v g2].
    destruct (uniform _ _ g2) as [vx g3]. destruct (uniform _ _ g3) as [vy g4].
    set (a := Agent_init _ _ _).
    destruct (IH (mkWorld (heap w ++ [a]) g4) (made ++ [length (heap w)]))
      as (H1 & H2 & H3).
    cbn zeta. rewrite H1, H2. cbn [heap]. rewrite length_app. cbn [length].
    rewrite <- app_assoc. cbn [app].
    replace (length (heap w) + 1)%nat with (S (length (heap w))) by lia.
    split; [reflexivity|]. split; [lia|].
    intros Hok. apply H3. apply Forall_app. split; [exact Hok|].
    repeat constructor.
Qed.

Lemma RunScript_invariant (seed : option Z) (N : Z) (reset : bool)
    (surface : option Surface) (vr : option R)
    (max_speed max_slope alignment_weight separation_weight jitter : R)
    (st st' : State) :
  population_ok st -> Forall path_ok (heap (world st)) ->
  RunScript uuid4 random_seed seed N reset surface vr max_speed max_slope
    alignment_weight separation_weight jitter st = Some st' ->
  population_ok st' /\ Forall path_ok (heap (world st')).
Proof.
  intros Hpop Hpath. unfold RunScript.
  set (w0 := mkWorld (heap (world st))
               (seed_everything random_seed seed (rng (world st)))).
  set (p := RunScript_params _ _ _ _ _ _).
  assert (Hb : let r := build_agents uuid4 N surface w0 in
               NoDup (fst r) /\ refs_valid (heap (snd r)) (fst r) /\
               Forall path_ok (heap (snd r))).
  { unfold build_agents. destruct surface as [s|].
    - destruct (build_agents_loop_shape (Z.to_nat N) s w0 []) as (H1 & H2 & H3).
      cbn zeta. rewrite H1. cbn [app]. split; [apply NoDup_seq|].
      split; [|now apply H3].
      apply Forall_forall. intros r Hr. apply list_elem_of_In, in_seq in Hr.
      rewrite H2. lia.
    - cbn. split; [constructor|]. split; [constructor|exact Hpath]. }
  destruct (match self_agents st with
            | Some l => if reset then build_agents uuid4 N surface w0 else (l, w0)
            | None => build_agents uuid4 N surface w0
            end) as [l w1] eqn:Hl.
  assert (Hl_ok : NoDup l /\ refs_valid (heap w1) l /\ Forall path_ok (heap w1)).
  { unfold population_ok in Hpop.
    destruct (self_agents st) as [l0|]; [destruct reset|].
    - now rewrite Hl in Hb.
    - injection Hl as <- <-. destruct Hpop. auto.
    - now rewrite Hl in Hb. }
  destruct Hl_ok as (Hnd & Hv & Hok).
  destruct (RunScript_loop _ _ _ _ _ _ _ _) as [[[act' new'] w']|] eqn:Hloop;
    [|discriminate].
  intros [= <-]. unfold population_ok. cbn [self_agents world].
  pose proof (RunScript_loop_length _ _ _ _ _ _ _ _ _ _ _ Hloop) as Hlen.
  destruct (RunScript_loop_active _ _ _ _ _ _ _ _ _ _ _ Hloop)
    as (act1 & -> & Hsub).
  rewrite (RunScript_loop_new _ _ _ _ _ _ _ _ _ _ _ Hloop). cbn [app].
  assert (Hact : forall r, r ∈ act1 -> (r < length (heap w1))%nat).
  { intros r Hr. pose proof (elem_of_sublist _ _ _ Hr Hsub) as Hr'.
    unfold refs_valid in Hv. rewrite Forall_forall in Hv. now apply Hv. }
  split; [split|].
  - apply NoDup_app. split; [eapply sublist_NoDup; eauto|].
    split; [|apply NoDup_seq].
    intros r Hr Hr'. apply Hact in Hr. apply list_elem_of_In, in_seq in Hr'. lia.
  - apply Forall_app. split; apply Forall_forall; intros r Hr.
    + apply Hact in Hr. cbn. lia.
    + apply list_elem_of_In, in_seq in Hr. cbn. lia.
  - apply (RunScript_loop_path uuid4 l l surface p w1 w' [] [] _ _ Hnd Hok Hloop).
Qed.

(** Every state a run reaches from the fresh component is well formed: the
    population is a list of distinct objects of the heap, and the path of
    every object ends at its position. *)
Lemma run_invariant (seed : option Z) (N : Z) (reset : bool)
    (surface : option Surface) (vr : option R)
    (max_speed max_slope alignment_weight separation_weight jitter : R)
    (steps : nat) (st : State) :
  run uuid4 random_seed seed N reset surface vr max_speed max_slope
    alignment_weight separation_weight jitter steps
    (fresh_component random_seed) = Some st ->
  population_ok st /\ Forall path_ok (heap (world st)).
Proof.
  assert (Hgen : forall st0,
    population_ok st0 -> Forall path_ok (heap (world st0)) ->
    run uuid4 random_seed seed N reset surface vr max_speed max_slope
      alignment_weight separation_weight jitter steps st0 = Some st ->
    population_ok st /\ Forall path_ok (heap (world st))).
  { induction steps as [|n IH]; intros st0 Hpop Hpath; cbn [run].
    - intros [= <-]. auto.
    - destruct (RunScript _ _ _ _ _ _ _ _ _ _ _ _ st0) as [st1|] eqn:Hrun;
        [|discriminate].
      destruct (RunScript_invariant _ _ _ _ _ _ _ _ _ _ _ _ Hpop Hpath Hrun).
      now apply IH. }
  apply Hgen; [exact I|constructor].
Qed.

End Reachable.

(** ** The decision stage in floating-point arithmetic *)

(** [decide] is the decision stage with the exact helpers. *)
Lemma decide_with_exact : decide_with exact_ops = decide.
Proof. reflexivity. Qed.

Lemma VectorLength_dot (a b : V3) :
  X a * X b + Y a * Y b + Z3 a * Z3 b <= VectorLength a * VectorLength b.
Proof.
  pose proof (VectorLength_nonneg a) as Ha.
  pose proof (VectorLength_nonneg b) as Hb.
  pose proof (VectorLength_sqr a) as Hsa.
  pose proof (VectorLength_sqr b) as Hsb.
  set (la := VectorLength a) in *. set (lb := VectorLength b) in *.
  clearbody la lb.
  destruct a as [ax ay az], b as [bx by' bz]. cbn [X Y Z3] in *.
  destruct (Rle_dec (ax * bx + ay * by' + az * bz) (la * lb)) as [H|H];
    [exact H|exfalso].
  apply Rnot_le_lt in H.
  assert (Hp : 0 <= la * lb) by (apply Rmult_le_pos; assumption).
  assert (Hsq : (la * lb) * (la * lb)
                < (ax * bx + ay * by' + az * bz) * (ax * bx + ay * by' + az * bz))
    by nra.
  assert (Hcs : (ax * bx + ay * by' + az * bz) * (ax * bx + ay * by' + az * bz)
                <= (la * la) * (lb * lb)).
  { rewrite Hsa, Hsb.
    pose proof (Rle_0_sqr (ax * by' - ay * bx)).
    pose proof (Rle_0_sqr (ax * bz - az * bx)).
    pose proof (Rle_0_sqr (ay * bz - az * by')).
    unfold Rsqr in *. nra. }
  nra.
Qed.

(** The triangle inequality. *)
Lemma VectorLength_triangle (a b : V3) :
  VectorLength (VectorAdd a b) <= VectorLength a + VectorLength b.
Proof.
  pose proof (VectorLength_nonneg a) as Ha.
  pose proof (VectorLength_nonneg b) as Hb.
  apply VectorLength_upper; [lra|].
  pose proof (VectorLength_dot a b) as Hdot.
  pose proof (VectorLength_sqr a) as Hsa.
  pose proof (VectorLength_sqr b) as Hsb.
  cbn [X Y Z3 VectorAdd]. nra.
Qed.

Lemma VectorCreate_swap_length (a b : V3) :
  VectorLength (VectorCreate a b) = VectorLength (VectorCreate b a).
Proof.
  unfold VectorLength. f_equal. cbn [X Y Z3 VectorCreate]. ring.
Qed.

(** A vector within [d] of another has a length within [d] of its length. *)
Lemma VectorLength_near (a b : V3) (d : R) :
  VectorLength (VectorCreate a b) <= d ->
  VectorLength b - d <= VectorLength a <= VectorLength b + d.
Proof.
  intros Hd. split.
  - pose proof (VectorLength_triangle a (VectorCreate b a)) as Ht.
    replace (VectorAdd a (VectorCreate b a)) with b in Ht
      by (apply V3_eq; cbn; ring).
    rewrite (VectorCreate_swap_length b a) in Ht. lra.
  - pose proof (VectorLength_triangle b (VectorCreate a b)) as Ht.
    replace (VectorAdd b (VectorCreate a b)) with a in Ht
      by (apply V3_eq; cbn; ring).
    lra.
Qed.

Lemma VectorCreate_diag_length (a : V3) : VectorLength (VectorCreate a a) = 0.
Proof.
  apply VectorLength_val; [lra|]. cbn [X Y Z3 VectorCreate]. ring.
Qed.

Lemma V3_normalize_length (v : V3) :
  0 < VectorLength v -> VectorLength (V3_normalize v) = 1.
Proof.
  intros Hpos. apply (VectorUnitize_length v). now apply VectorUnitize_pos.
Qed.

Lemma VectorUnitize_None (v : V3) :
  VectorUnitize v = None <-> VectorLength v = 0.
Proof.
  unfold VectorUnitize. pose proof (VectorLength_nonneg v).
  destruct (Rlt_dec 0 (VectorLength v)); split; intros H0;
    try reflexivity; try discriminate H0; lra.
Qed.

(** The exact helpers are accurate to every error. *)
Lemma exact_ops_accurate (eps : R) : 0 <= eps -> accurate eps exact_ops.
Proof.
  intros He. constructor; cbn [exact_ops vlength vunitize vscale vadd].
  - intros v. rewrite Rminus_diag, Rabs_R0.
    apply Rmult_le_pos; [exact He|apply VectorLength_nonneg].
  - apply VectorUnitize_None.
  - intros v u Hu. rewrite (VectorUnitize_normalize _ _ Hu).
    now rewrite VectorCreate_diag_length.
  - intros v s. rewrite VectorCreate_diag_length.
    apply Rmult_le_pos; [exact He|apply VectorLength_nonneg].
  - intros a b. rewrite VectorCreate_diag_length.
    apply Rmult_le_pos; [exact He|apply VectorLength_nonneg].
Qed.

(** Helpers that scale a thousandth too long are accurate to a thousandth. *)
Lemma long_ops_accurate : accurate (/ 1000) long_ops.
Proof.
  assert (He : 0 <= / 1000) by lra.
  constructor; cbn [long_ops vlength vunitize vscale vadd].
  - intros v. rewrite Rminus_diag, Rabs_R0.
    apply Rmult_le_pos; [exact He|apply VectorLength_nonneg].
  - apply VectorUnitize_None.
  - intros v u Hu. rewrite (VectorUnitize_normalize _ _ Hu).
    now rewrite VectorCreate_diag_length.
  - intros v s.
    replace (VectorCreate (VectorScale v (s * (1 + / 1000))) (VectorScale v s))
      with (VectorScale (VectorScale v s) (/ 1000))
      by (apply V3_eq; cbn; ring).
    rewrite VectorLength_scale, Rabs_pos_eq by exact He. lra.
  - intros a b. rewrite VectorCreate_diag_length.
    apply Rmult_le_pos; [exact He|apply VectorLength_nonneg].
Qed.

Section Accurate.

Variable eps : R.
Variable o : VectorOps.
Hypothesis Heps : 0 <= eps.
Hypothesis Hacc : accurate eps o.

Lemma vlength_range (v : V3) :
  (1 - eps) * VectorLength v <= vlength o v <= (1 + eps) * VectorLength v.
Proof.
  pose proof (vlength_accurate eps o Hacc v) as H.
  unfold Rabs in H. destruct (Rcase_abs _) in H; nra.
Qed.

Lemma vlength_gt_pos (v : V3) (c : R) :
  0 <= c -> vlength o v > c -> 0 < VectorLength v.
Proof.
  intros Hc Hgt. pose proof (VectorLength_nonneg v) as Hn.
  destruct (Req_dec (VectorLength v) 0) as [H0|H0]; [|lra].
  pose proof (vlength_range v) as Hr. rewrite H0 in Hr. lra.
Qed.

Lemma vunitize_some (v : V3) :
  0 < VectorLength v -> exists u, vunitize o v = Some u.
Proof.
  intros Hpos. destruct (vunitize o v) as [u|] eqn:Hu; [eauto|].
  apply (vunitize_defined eps o Hacc) in Hu. lra.
Qed.

Lemma vunitize_length (v u : V3) :
  vunitize o v = Some u -> 1 - eps <= VectorLength u <= 1 + eps.
Proof.
  intros Hu.
  assert (Hpos : 0 < VectorLength v).
  { pose proof (VectorLength_nonneg v).
    destruct (Req_dec (VectorLength v) 0) as [H0|H0]; [|lra].
    apply (vunitize_defined eps o Hacc) in H0. congruence. }
  pose proof (VectorLength_near _ _ _ (vunitize_accurate eps o Hacc v u Hu))
    as Hn.
  rewrite (V3_normalize_length v Hpos) in Hn. exact Hn.
Qed.

Lemma vscale_range (v : V3) (s : R) :
  (1 - eps) * (Rabs s * VectorLength v) <= VectorLength (vscale o v s)
  <= (1 + eps) * (Rabs s * VectorLength v).
Proof.
  pose proof (VectorLength_near _ _ _ (vscale_accurate eps o Hacc v s)) as Hn.
  rewrite VectorLength_scale in Hn. lra.
Qed.

Lemma vadd_upper (a b : V3) :
  VectorLength (vadd o a b) <= (1 + eps) * (VectorLength a + VectorLength b).
Proof.
  pose proof (VectorLength_near _ _ _ (vadd_accurate eps o Hacc a b)) as Hn.
  pose proof (VectorLength_triangle a b) as Ht.
  pose proof (VectorLength_nonneg (VectorAdd a b)).
  assert (eps * VectorLength (VectorAdd a b)
          <= eps * (VectorLength a + VectorLength b))
    by (apply Rmult_le_compat_l; lra).
  lra.
Qed.

Lemma curvature_alignment_with_total (self : Agent) (w : R) (v : V3) :
  exists v2, curvature_alignment_with o self w v = Some v2.
Proof.
  unfold curvature_alignment_with.
  destruct (Rgt_dec _ _) as [Hgt|]; [|eauto].
  destruct (vunitize_some (curvature_dir self)) as [u ->]; [|eauto].
  eapply vlength_gt_pos; [|exact Hgt]. lra.
Qed.

Lemma accumulate_away_with_total (h : list Agent) (self : Agent)
    (nbs : list (nat * R)) (away : V3) :
  neighbors_valid h nbs ->
  exists r, accumulate_away_with o h self nbs away = Some r.
Proof.
  intros Hv. revert away. induction Hv as [|[r dist] nbs Hr _ IH];
    intros away; cbn [accumulate_away_with]; [eauto|].
  cbn [fst] in Hr. destruct (lookup_lt_is_Some_2 h r Hr) as (other & ->).
  destruct (Rgt_dec _ _) as [Hgt|]; [|apply IH].
  destruct (vunitize_some (vcreate o (position self) (position other)))
    as [u ->]; [|apply IH].
  eapply vlength_gt_pos; [|exact Hgt]. lra.
Qed.

Lemma separation_with_total (h : list Agent) (self : Agent) (w : R) (v : V3) :
  neighbors_valid h (neighbors self) ->
  exists v3, separation_with o h self w v = Some v3.
Proof.
  intros Hv. unfold separation_with.
  destruct (neighbors self) as [|nb nbs] eqn:Hn; [eauto|].
  destruct (accumulate_away_with_total h self (nb :: nbs) V3_zero Hv)
    as [away ->].
  destruct (Rgt_dec _ _) as [Hgt|]; [|eauto].
  destruct (vunitize_some away) as [u ->]; [|eauto].
  eapply vlength_gt_pos; [|exact Hgt]. lra.
Qed.

Lemma clamp_speed_with_total (max_speed : R) (v : V3) :
  0 <= max_speed -> exists v', clamp_speed_with o max_speed v = Some v'.
Proof.
  intros Hm. unfold clamp_speed_with.
  destruct (Rgt_dec _ _) as [Hgt|]; [|eauto].
  destruct (vunitize_some v) as [u ->]; [|eauto].
  eapply vlength_gt_pos; [exact Hm|exact Hgt].
Qed.

(** The clamped velocity: its true length and the length the helper
    measures. *)
Lemma clamp_speed_with_bound (max_speed : R) (v v' : V3) :
  0 <= max_speed -> clamp_speed_with o max_speed v = Some v' ->
  (1 - eps) * VectorLength v' <= max_speed * (1 + eps) ^ 2 /\
  vlength o v' <= max_speed * (1 + eps) ^ 3.
Proof.
  intros Hm. unfold clamp_speed_with. cbn [pow].
  assert (Hk : 1 <= (1 + eps) * ((1 + eps) * 1)) by nra.
  assert (Hk3 : 1 <= (1 + eps) * ((1 + eps) * ((1 + eps) * 1))) by nra.
  destruct (Rgt_dec (vlength o v) max_speed) as [Hgt|Hle].
  - destruct (vunitize o v) as [u|] eqn:Hu; [|discriminate].
    intros [= <-].
    pose proof (vunitize_length v u Hu) as [_ Hul].
    pose proof (vscale_range u max_speed) as [_ Hs].
    rewrite (Rabs_pos_eq max_speed Hm) in Hs.
    pose proof (VectorLength_nonneg u) as Hu0.
    pose proof (VectorLength_nonneg (vscale o u max_speed)) as Hv0.
    assert (Hmu : max_speed * VectorLength u <= max_speed * (1 + eps))
      by (apply Rmult_le_compat_l; assumption).
    assert (Hb : VectorLength (vscale o u max_speed)
                 <= max_speed * ((1 + eps) * ((1 + eps) * 1))) by nra.
    split; [nra|].
    pose proof (vlength_range (vscale o u max_speed)) as [_ Hl].
    assert ((1 + eps) * VectorLength (vscale o u max_speed)
            <= (1 + eps) * (max_speed * ((1 + eps) * ((1 + eps) * 1))))
      by (apply Rmult_le_compat_l; lra).
    lra.
  - intros [= <-]. pose proof (vlength_range v) as [Hl _].
    split; nra.
Qed.

Lemma jitter_if_stuck_with_spec (jitter : R) (v : V3) (g : Rng) :
  (1e-4 <= vlength o v /\ jitter_if_stuck_with o jitter v g = (v, g)) \/
  (vlength o v < 1e-4 /\
   jitter_if_stuck_with o jitter v g =
   (vadd o v
      (mkV3 (- jitter + (jitter - - jitter) * tape g (drawn g))
            (- jitter + (jitter - - jitter) * tape g (S (drawn g))) 0),
    mkRng (tape g) (S (S (drawn g))))).
Proof.
  unfold jitter_if_stuck_with.
  destruct (Rlt_dec (vlength o v) 1e-4) as [Hlt|Hge].
  - right. split; [exact Hlt|reflexivity].
  - left. split; [lra|reflexivity].
Qed.

End Accurate.

(** With helpers that round, the clamped velocity can be longer than
    [max_speed]: the clamp of (3, 0, 0) at 0.5 with [long_ops]. *)
Lemma clamp_speed_with_overshoots :
  clamp_speed_with long_ops 0.5 (mkV3 3 0 0)
  = Some (VectorScale (V3_normalize (mkV3 3 0 0)) (0.5 * (1 + / 1000))) /\
  VectorLength (VectorScale (V3_normalize (mkV3 3 0 0)) (0.5 * (1 + / 1000)))
  > 0.5.
Proof.
  assert (H3 : VectorLength (mkV3 3 0 0) = 3)
    by (apply VectorLength_val; [lra|cbn; ring]).
  split.
  - unfold clamp_speed_with. cbn [long_ops vlength vunitize vscale].
    rewrite H3. destruct (Rgt_dec 3 0.5); [|lra].
    rewrite VectorUnitize_pos by (rewrite H3; lra). reflexivity.
  - rewrite VectorLength_scale, V3_normalize_length by (rewrite H3; lra).
    rewrite Rabs_pos_eq by lra. lra.
Qed.

(** C4 (amended): for a living agent, [max_speed >= 0] and vector helpers
    accurate to the relative error [eps], the decision stage completes; the
    velocity [v4] it has after the speed clamp satisfies
    [(1 - eps) |v4| <= max_speed (1 + eps)^2], and the length
    [rs.VectorLength] measures of it is at most [max_speed (1 + eps)^3]:
    [max_speed] up to rounding, and exactly that when nothing rounds
    ([eps = 0]).  If the measured
    speed is [1e-4] or more the jitter does nothing and the final velocity
    is [v4]; otherwise the final velocity is [rs.VectorAdd] of [v4] and a
    perturbation (jx, jy, 0) of two uniform draws from [-jitter, jitter],
    each at most [|jitter|] in absolute value for samples in [0, 1]. *)
Theorem decide_speed_bound (eps : R) (o : VectorOps) (h : list Agent)
    (self : Agent)
    (max_speed max_slope alignment_weight separation_weight jitter : R)
    (g : Rng) :
  0 <= eps -> accurate eps o ->
  is_alive self = true -> neighbors_valid h (neighbors self) ->
  0 <= max_speed ->
  exists a' g' v4,
    decide_with o h self max_speed max_slope alignment_weight
      separation_weight jitter g = Some (a', g') /\
    (1 - eps) * VectorLength v4 <= max_speed * (1 + eps) ^ 2 /\
    vlength o v4 <= max_speed * (1 + eps) ^ 3 /\
    ((1e-4 <= vlength o v4 /\ velocity a' = v4 /\ g' = g /\
      vlength o (velocity a') <= max_speed * (1 + eps) ^ 3) \/
     (vlength o v4 < 1e-4 /\
      exists jx jy,
        velocity a' = vadd o v4 (mkV3 jx jy 0) /\
        jx = - jitter + (jitter - - jitter) * tape g (drawn g) /\
        jy = - jitter + (jitter - - jitter) * tape g (S (drawn g)) /\
        g' = mkRng (tape g) (S (S (drawn g))) /\
        (0 <= tape g (drawn g) <= 1 -> Rabs jx <= Rabs jitter) /\
        (0 <= tape g (S (drawn g)) <= 1 -> Rabs jy <= Rabs jitter))).
Proof.
  intros He Hacc Ha Hv Hm. unfold decide_with. rewrite Ha. cbn [negb].
  destruct (curvature_alignment_with_total eps o Hacc self alignment_weight
              (vscale o (velocity self) (slope_resistance self max_slope)))
    as [v2 ->].
  destruct (separation_with_total eps o Hacc h self separation_weight v2 Hv)
    as [v3 ->].
  destruct (clamp_speed_with_total eps o Hacc max_speed v3 Hm) as [v4 Hc].
  rewrite Hc.
  destruct (clamp_speed_with_bound eps o He Hacc _ _ _ Hm Hc) as [Hb1 Hb2].
  destruct (jitter_if_stuck_with_spec o jitter v4 g) as [[Hge ->]|[Hlt ->]].
  - eexists _, g, v4. split; [reflexivity|]. split; [exact Hb1|].
    split; [exact Hb2|]. left. cbn [velocity set_velocity]. auto.
  - eexists _, _, v4. split; [reflexivity|]. split; [exact Hb1|].
    split; [exact Hb2|]. right.
    split; [exact Hlt|]. eexists _, _. cbn [velocity set_velocity].
    split; [reflexivity|]. split; [reflexivity|]. split; [reflexivity|].
    split; [reflexivity|]. split; apply uniform_symmetric_bound.
Qed.

Lemma decide_speed_bound_witness :
  0 <= / 1000 /\ accurate (/ 1000) long_ops /\
  is_alive runner = true /\ neighbors_valid [runner] (neighbors runner) /\
  0 <= 0.5 /\
  exists a' g',
    decide_with long_ops [runner] runner 0.5 0.8 0.05 0.12 0.01 zero_tape
    = Some (a', g').
Proof.
  assert (He : 0 <= / 1000) by lra.
  assert (Hv : neighbors_valid [runner] (neighbors runner)) by constructor.
  assert (Hm : 0 <= 0.5) by lra.
  split; [exact He|]. split; [exact long_ops_accurate|].
  split; [reflexivity|]. split; [exact Hv|]. split; [exact Hm|].
  destruct (decide_speed_bound (/ 1000) long_ops [runner] runner 0.5 0.8 0.05
              0.12 0.01 zero_tape He long_ops_accurate eq_refl Hv Hm)
    as (a' & g' & _ & Hd & _).
  exists a', g'. exact Hd.
Defined.

(** * Further properties of agent_builder.py and agent_simulator.py *)

(** ** Sensing *)

Lemma Distance_sym (p q : V3) : Distance p q = Distance q p.
Proof.
  unfold Distance, VectorLength. f_equal. cbn. ring.
Qed.

(** X1: with a vision radius, [sense] records exactly the agents of [agents]
    with another id whose distance to the sensing agent is at most the
    radius, each with that distance; an agent is recorded whether it is
    alive or dead. *)
Theorem sense_records_exactly (h : list Agent) (self : Agent)
    (agents : list nat) (surface : option Surface) (radius : R) :
  refs_valid h agents ->
  exists a',
    sense h self agents surface (Some radius) = Some a' /\
    forall o d,
      In (o, d) (neighbors a') <->
      In o agents /\
      exists other, h !! o = Some other /\ id other <> id self /\
        d = Distance (position self) (position other) /\ d <= radius.
Proof.
  intros Hv.
  destruct (sense_total h self agents surface (Some radius) Hv) as [a' Hs].
  exists a'. split; [exact Hs|].
  destruct (sense_inv _ _ _ _ _ _ Hs) as (nb & -> & Hscan).
  cbn [neighbors set_neighbors].
  set (a0 := set_neighbors (sense_geometry self surface) []) in Hscan.
  assert (Hid : id a0 = id self) by apply sense_geometry_id.
  assert (Hpos : position a0 = position self) by apply sense_geometry_position.
  intros o d. split.
  - intros Hin.
    destruct (scan_neighbors_elem _ _ _ _ _ _ _ Hscan Hin)
      as (Ho & other & Hl & Hne & Hd & Hle).
    split; [exact Ho|]. exists other. rewrite <- Hid, <- Hpos. auto.
  - intros (Ho & other & Hl & Hne & -> & Hle).
    rewrite <- Hpos. eapply scan_neighbors_includes; eauto; congruence.
Qed.

Lemma sense_records_exactly_witness :
  refs_valid apart_heap [0; 1]%nat /\
  exists a',
    sense apart_heap apart0 [0; 1]%nat None (Some 5) = Some a' /\
    In (1%nat, Distance (position apart0) (position apart1)) (neighbors a').
Proof.
  assert (Hv : refs_valid apart_heap [0; 1]%nat) by (repeat constructor).
  split; [exact Hv|].
  destruct (sense_records_exactly apart_heap apart0 [0; 1]%nat None 5 Hv)
    as (a' & Hs & Hiff).
  exists a'. split; [exact Hs|]. apply Hiff. split; [right; now left|].
  exists apart1. split; [reflexivity|]. split; [discriminate|].
  split; [reflexivity|]. apply VectorLength_upper; [lra|]. cbn. lra.
Defined.

Lemma scan_neighbors_sublist (h : list Agent) (self : Agent) (radius : R)
    (agents : list nat) (nb : list (nat * R)) :
  scan_neighbors h self radius agents = Some nb ->
  sublist (map fst nb) agents.
Proof.
  revert nb. induction agents as [|o rest IH]; intros nb;
    cbn [scan_neighbors].
  - intros [= <-]. constructor.
  - destruct (h !! o) as [other|]; [|discriminate].
    destruct (scan_neighbors h self radius rest) as [tl|]; [|discriminate].
    specialize (IH tl eq_refl).
    destruct (N.eqb _ _); [intros [= <-]; now apply sublist_cons|].
    destruct (Rle_dec _ _); intros [= <-].
    + cbn. now apply sublist_skip.
    + now apply sublist_cons.
Qed.

(** X2: the neighbours are listed in the order of the population, each
    agent of the population at most as often as it occurs there, and an
    agent never records itself. *)
Theorem sense_neighbors_in_order (h : list Agent) (self a' : Agent)
    (s : nat) (agents : list nat) (surface : option Surface) (vr : option R) :
  h !! s = Some self ->
  sense h self agents surface vr = Some a' ->
  sublist (map fst (neighbors a')) agents /\
  ~ In s (map fst (neighbors a')).
Proof.
  intros Hself Hs.
  destruct (sense_inv _ _ _ _ _ _ Hs) as (nb & -> & Hscan).
  cbn [neighbors set_neighbors]. destruct vr as [radius|].
  - split; [eapply scan_neighbors_sublist; eauto|].
    intros Hin. apply in_map_iff in Hin as ([o d] & Ho & Hin). cbn in Ho.
    subst o.
    destruct (scan_neighbors_elem _ _ _ _ _ _ _ Hscan Hin)
      as (_ & other & Hl & Hne & _).
    apply Hne. cbn. rewrite sense_geometry_id. congruence.
  - subst nb. split; [apply sublist_nil_l|intros []].
Qed.

Lemma sense_neighbors_in_order_witness :
  apart_heap !! 0%nat = Some apart0 /\
  exists a',
    sense apart_heap apart0 [0; 1]%nat None (Some 5) = Some a' /\
    ~ In 0%nat (map fst (neighbors a')).
Proof.
  split; [reflexivity|].
  destruct (sense_total apart_heap apart0 [0; 1]%nat None (Some 5))
    as [a' Hs]; [repeat constructor|].
  exists a'. split; [exact Hs|].
  exact (proj2 (sense_neighbors_in_order apart_heap apart0 a' 0 [0; 1]%nat None
                  (Some 5) eq_refl Hs)).
Defined.

(** X3: sensing is a frame for the kinematic state: it never changes the
    id, the position, the velocity, the age, the alive flag or the path of
    the agent. *)
Theorem sense_frame (h : list Agent) (self a' : Agent) (agents : list nat)
    (surface : option Surface) (vr : option R) :
  sense h self agents surface vr = Some a' ->
  id a' = id self /\ position a' = position self /\
  velocity a' = velocity self /\ age a' = age self /\
  is_alive a' = is_alive self /\ path a' = path self.
Proof.
  intros Hs. destruct (sense_inv _ _ _ _ _ _ Hs) as (nb & -> & _).
  destruct (sense_geometry_frame self surface)
    as (H1 & H2 & H3 & H4 & H5 & H6 & _).
  cbn. repeat split; assumption.
Qed.

Lemma sense_frame_witness :
  exists a',
    sense [projected_agent] projected_agent [0%nat] (Some no_projection)
      (Some 1) = Some a' /\
    position a' = mkV3 1 2 0 /\ age a' = 3%Z.
Proof.
  destruct (sense_total [projected_agent] projected_agent [0%nat]
              (Some no_projection) (Some 1)) as [a' Hs]; [repeat constructor|].
  exists a'. split; [exact Hs|].
  destruct (sense_frame _ _ _ _ _ _ Hs) as (_ & Hp & _ & Ha & _).
  split; [exact Hp|exact Ha].
Defined.

(** X4: on one heap in which the ids are pairwise different, sensing is
    symmetric: with the same radius, [b] is among the neighbours [a] senses
    exactly when [a] is among the neighbours [b] senses, and both record
    the same distance. *)
Theorem sense_symmetric (h : list Agent) (agents : list nat)
    (sa sb : option Surface) (radius : R) (ra rb : nat) (a b a' b' : Agent)
    (d : R) :
  h !! ra = Some a -> h !! rb = Some b ->
  In ra agents -> In rb agents -> id a <> id b ->
  sense h a agents sa (Some radius) = Some a' ->
  sense h b agents sb (Some radius) = Some b' ->
  (In (rb, d) (neighbors a') <-> In (ra, d) (neighbors b')).
Proof.
  intros Ha Hb Hina Hinb Hne Hsa Hsb.
  destruct (sense_inv _ _ _ _ _ _ Hsa) as (na & -> & Hscan_a).
  destruct (sense_inv _ _ _ _ _ _ Hsb) as (nb & -> & Hscan_b).
  cbn [neighbors set_neighbors].
  set (a0 := set_neighbors (sense_geometry a sa) []) in *.
  set (b0 := set_neighbors (sense_geometry b sb) []) in *.
  assert (Hida : id a0 = id a) by apply sense_geometry_id.
  assert (Hposa : position a0 = position a) by apply sense_geometry_position.
  assert (Hidb : id b0 = id b) by apply sense_geometry_id.
  assert (Hposb : position b0 = position b) by apply sense_geometry_position.
  split; intros Hin.
  - destruct (scan_neighbors_elem _ _ _ _ _ _ _ Hscan_a Hin)
      as (_ & other & Hl & _ & -> & Hle).
    assert (other = b) as -> by congruence.
    rewrite Hposa, Distance_sym, <- Hposb in Hle |- *.
    eapply scan_neighbors_includes; eauto; congruence.
  - destruct (scan_neighbors_elem _ _ _ _ _ _ _ Hscan_b Hin)
      as (_ & other & Hl & _ & -> & Hle).
    assert (other = a) as -> by congruence.
    rewrite Hposb, Distance_sym, <- Hposa in Hle |- *.
    eapply scan_neighbors_includes; eauto; congruence.
Qed.

Lemma sense_symmetric_witness :
  apart_heap !! 0%nat = Some apart0 /\ apart_heap !! 1%nat = Some apart1 /\
  In 0%nat [0; 1]%nat /\ In 1%nat [0; 1]%nat /\ id apart0 <> id apart1 /\
  exists a' b',
    sense apart_heap apart0 [0; 1]%nat None (Some 5) = Some a' /\
    sense apart_heap apart1 [0; 1]%nat None (Some 5) = Some b' /\
    (In (1%nat, 3) (neighbors a') <-> In (0%nat, 3) (neighbors b')).
Proof.
  assert (Hv : refs_valid apart_heap [0; 1]%nat) by (repeat constructor).
  assert (Hne : id apart0 <> id apart1) by discriminate.
  split; [reflexivity|]. split; [reflexivity|]. split; [now left|].
  split; [right; now left|]. split; [exact Hne|].
  destruct (sense_total apart_heap apart0 [0; 1]%nat None (Some 5) Hv)
    as [a' Hsa].
  destruct (sense_total apart_heap apart1 [0; 1]%nat None (Some 5) Hv)
    as [b' Hsb].
  exists a', b'. split; [exact Hsa|]. split; [exact Hsb|].
  exact (sense_symmetric apart_heap [0; 1]%nat None None 5 0 1 apart0 apart1
           a' b' 3 eq_refl eq_refl (or_introl eq_refl)
           (or_intror (or_introl eq_refl)) Hne Hsa Hsb).
Defined.

(** ** The decision stage *)

(** X5: the slope resistance.  For a positive [max_slope] the factor lies
    between 0.2 and 1; for [max_slope = 0] the factor is 1 (the division is
    never made); for a negative [max_slope] the factor is at least 1 and the
    stage does not damp at all. *)
Theorem slope_resistance_range (self : Agent) (max_slope : R) :
  0 <= slope_magnitude self ->
  (0 < max_slope -> 0.2 <= slope_resistance self max_slope <= 1) /\
  (max_slope = 0 -> slope_resistance self max_slope = 1) /\
  (max_slope < 0 -> 1 <= slope_resistance self max_slope).
Proof.
  intros Hs. unfold slope_resistance.
  destruct (Req_dec_T max_slope 0) as [H0|H0].
  - split; [lra|]. split; [reflexivity|lra].
  - assert (Hmax : forall x, 0.2 <= Rmax 0.2 x /\ x <= Rmax 0.2 x /\
                             (x <= 1 -> Rmax 0.2 x <= 1)).
    { intros x. unfold Rmax. destruct (Rle_dec 0.2 x); lra. }
    destruct (Hmax (1 - slope_magnitude self / max_slope)) as (H1 & H2 & H3).
    split; [|split; [contradiction|]].
    + intros Hpos.
      assert (Hq : 0 <= slope_magnitude self / max_slope).
      { apply Rmult_le_pos; [exact Hs|]. left. now apply Rinv_0_lt_compat. }
      assert (Hr : Rmax 0.2 (1 - slope_magnitude self / max_slope) <= 1)
        by (apply H3; lra).
      lra.
    + intros Hneg.
      assert (Hq : slope_magnitude self / max_slope <= 0).
      { unfold Rdiv. assert (/ max_slope < 0) by now apply Rinv_lt_0_compat.
        nra. }
      lra.
Qed.

Lemma slope_resistance_range_witness :
  0 <= slope_magnitude projected_agent /\ 0 < 0.8 /\
  0.2 <= slope_resistance projected_agent 0.8 <= 1.
Proof.
  assert (Hs : 0 <= slope_magnitude projected_agent) by (cbn; lra).
  assert (Hm : 0 < 0.8) by lra.
  split; [exact Hs|]. split; [exact Hm|].
  exact (proj1 (slope_resistance_range projected_agent 0.8 Hs) Hm).
Defined.

(** A vector scaled by [w] after it is unitized: its length is [|w|] up to
    the rounding of the two helpers. *)
Lemma vscale_vunitize_length (eps : R) (o : VectorOps) (v u : V3) (w : R) :
  0 <= eps <= 1 -> accurate eps o -> vunitize o v = Some u ->
  Rabs w * (1 - eps) ^ 2 <= VectorLength (vscale o u w)
  <= Rabs w * (1 + eps) ^ 2.
Proof.
  intros He Hacc Hu. cbn [pow].
  pose proof (vunitize_length eps o Hacc v u Hu) as [Hl Hh].
  pose proof (vscale_range eps o Hacc u w) as [Hsl Hsh].
  pose proof (Rabs_pos w) as Hw.
  pose proof (VectorLength_nonneg u) as Hu0.
  assert (H1 : Rabs w * (1 - eps) <= Rabs w * VectorLength u)
    by (apply Rmult_le_compat_l; lra).
  assert (H2 : Rabs w * VectorLength u <= Rabs w * (1 + eps))
    by (apply Rmult_le_compat_l; lra).
  assert (H3 : (1 - eps) * (Rabs w * (1 - eps))
               <= (1 - eps) * (Rabs w * VectorLength u))
    by (apply Rmult_le_compat_l; lra).
  assert (H4 : (1 + eps) * (Rabs w * VectorLength u)
               <= (1 + eps) * (Rabs w * (1 + eps)))
    by (apply Rmult_le_compat_l; lra).
  split; lra.
Qed.

(** X6: the two steering terms add vectors of bounded length.  With vector
    helpers accurate to the relative error [eps], the curvature alignment
    never fails; it leaves the velocity as it is when the measured length of
    the curvature direction is not above [1e-6], and otherwise the velocity
    is [rs.VectorAdd] of it and an increment at most
    [4 |alignment_weight| (1 + eps)^2] long.  The separation (on neighbours
    of the heap) never fails; it leaves the velocity as it is or the
    velocity is [rs.VectorAdd] of it and an increment whose length is
    [|separation_weight|] up to the factors [(1 - eps)^2] and
    [(1 + eps)^2]. *)
Theorem steering_terms_bounded (eps : R) (o : VectorOps) (h : list Agent)
    (self : Agent) (alignment_weight separation_weight : R) (v : V3) :
  0 <= eps <= 1 -> accurate eps o ->
  neighbors_valid h (neighbors self) ->
  (exists v2,
     curvature_alignment_with o self alignment_weight v = Some v2 /\
     (v2 = v \/
      exists inc, v2 = vadd o v inc /\
        VectorLength inc <= 4 * Rabs alignment_weight * (1 + eps) ^ 2) /\
     (vlength o (curvature_dir self) <= 1e-6 -> v2 = v)) /\
  (exists v3,
     separation_with o h self separation_weight v = Some v3 /\
     (v3 = v \/
      exists inc, v3 = vadd o v inc /\
        Rabs separation_weight * (1 - eps) ^ 2 <= VectorLength inc
        <= Rabs separation_weight * (1 + eps) ^ 2)).
Proof.
  intros He Hacc Hv. split.
  - unfold curvature_alignment_with.
    destruct (Rgt_dec (vlength o (curvature_dir self)) 1e-6) as [Hgt|Hle].
    + destruct (vunitize o (curvature_dir self)) as [u|] eqn:Hu.
      * eexists. split; [reflexivity|]. split; [|lra]. right.
        eexists. split; [reflexivity|].
        set (w := alignment_weight * _).
        pose proof (vscale_vunitize_length eps o _ u w He Hacc Hu) as [_ Hh].
        assert (Hw : Rabs w <= 4 * Rabs alignment_weight).
        { unfold w. rewrite Rabs_mult. pose proof (Rabs_pos alignment_weight).
          destruct (Rlt_dec _ _);
            [rewrite (Rabs_pos_eq 4) by lra|rewrite (Rabs_pos_eq 1) by lra];
            lra. }
        assert (Hk : 0 <= (1 + eps) ^ 2) by (cbn [pow]; nra).
        assert (Rabs w * (1 + eps) ^ 2
                <= 4 * Rabs alignment_weight * (1 + eps) ^ 2)
          by (apply Rmult_le_compat_r; assumption).
        lra.
      * destruct (vunitize_some eps o Hacc (curvature_dir self)) as [u Hu'];
          [|congruence].
        eapply (vlength_gt_pos eps o Hacc); [|exact Hgt]. lra.
    + exists v. split; [reflexivity|]. split; [now left|reflexivity].
  - destruct (separation_with_total eps o Hacc h self separation_weight v Hv)
      as [v3 Hs].
    exists v3. split; [exact Hs|]. unfold separation_with in Hs.
    destruct (neighbors self) as [|nb rest]; [left; congruence|].
    destruct (accumulate_away_with _ _ _ _ _) as [away|]; [|discriminate].
    destruct (Rgt_dec _ _); [|left; congruence].
    destruct (vunitize o away) as [u|] eqn:Hu; [|discriminate].
    injection Hs as <-. right. eexists. split; [reflexivity|].
    exact (vscale_vunitize_length eps o _ u separation_weight He Hacc Hu).
Qed.

Lemma steering_terms_bounded_witness :
  0 <= / 1000 <= 1 /\ accurate (/ 1000) long_ops /\
  neighbors_valid apart_heap (neighbors apart0_sensed) /\
  exists v3,
    separation_with long_ops apart_heap apart0_sensed 0.12 V3_zero = Some v3 /\
    (v3 = V3_zero \/
     exists inc, v3 = VectorAdd V3_zero inc /\
       Rabs 0.12 * (1 - / 1000) ^ 2 <= VectorLength inc
       <= Rabs 0.12 * (1 + / 1000) ^ 2).
Proof.
  assert (He : 0 <= / 1000 <= 1) by lra.
  assert (Hv : neighbors_valid apart_heap (neighbors apart0_sensed)).
  { repeat constructor. }
  split; [exact He|]. split; [exact long_ops_accurate|]. split; [exact Hv|].
  exact (proj2 (steering_terms_bounded (/ 1000) long_ops apart_heap
                  apart0_sensed 0.05 0.12 V3_zero He long_ops_accurate Hv)).
Defined.

(** X7: the speed clamp with vector helpers accurate to the relative error
    [eps], for a non-negative [max_speed].  It never fails; a velocity whose
    measured length is within the limit is returned as it is; otherwise the
    result has the length [max_speed] up to the factors [(1 - eps)^2] and
    [(1 + eps)^2] and lies within [max_speed ((1 + eps)^2 - 1)] of the
    velocity rescaled exactly: the direction is kept up to rounding. *)
Theorem clamp_speed_with_spec (eps : R) (o : VectorOps) (max_speed : R)
    (v : V3) :
  0 <= eps <= 1 -> accurate eps o -> 0 <= max_speed ->
  exists v',
    clamp_speed_with o max_speed v = Some v' /\
    (vlength o v <= max_speed -> v' = v) /\
    (vlength o v > max_speed ->
     max_speed * (1 - eps) ^ 2 <= VectorLength v'
     <= max_speed * (1 + eps) ^ 2 /\
     VectorLength (VectorCreate v' (VectorScale (V3_normalize v) max_speed))
     <= max_speed * ((1 + eps) ^ 2 - 1)).
Proof.
  intros He Hacc Hm. unfold clamp_speed_with.
  destruct (Rgt_dec (vlength o v) max_speed) as [Hgt|Hle].
  - destruct (vunitize_some eps o Hacc v) as [u Hu];
      [eapply (vlength_gt_pos eps o Hacc); [exact Hm|exact Hgt]|].
    rewrite Hu. eexists. split; [reflexivity|]. split; [lra|]. intros _.
    pose proof (vscale_vunitize_length eps o v u max_speed He Hacc Hu) as Hlen.
    rewrite (Rabs_pos_eq max_speed Hm) in Hlen. split; [exact Hlen|].
    replace (VectorCreate (vscale o u max_speed)
               (VectorScale (V3_normalize v) max_speed))
      with (VectorAdd
              (VectorCreate (vscale o u max_speed) (VectorScale u max_speed))
              (VectorScale (VectorCreate u (V3_normalize v)) max_speed))
      by (apply V3_eq; cbn; ring).
    eapply Rle_trans; [apply VectorLength_triangle|].
    pose proof (vscale_accurate eps o Hacc u max_speed) as H1.
    pose proof (vunitize_accurate eps o Hacc v u Hu) as H2.
    pose proof (vunitize_length eps o Hacc v u Hu) as [_ Hul].
    rewrite VectorLength_scale, (Rabs_pos_eq max_speed Hm) in H1 |- *.
    assert (H3 : max_speed * VectorLength u <= max_speed * (1 + eps))
      by (apply Rmult_le_compat_l; lra).
    assert (H4 : eps * (max_speed * VectorLength u)
                 <= eps * (max_speed * (1 + eps)))
      by (apply Rmult_le_compat_l; lra).
    assert (H5 : max_speed * VectorLength (VectorCreate u (V3_normalize v))
                 <= max_speed * eps)
      by (apply Rmult_le_compat_l; lra).
    cbn [pow]. nra.
  - exists v. split; [reflexivity|]. split; [reflexivity|lra].
Qed.

Lemma clamp_speed_with_spec_witness :
  0 <= / 1000 <= 1 /\ accurate (/ 1000) long_ops /\ 0 <= 0.5 /\
  exists v',
    clamp_speed_with long_ops 0.5 (mkV3 3 0 0) = Some v' /\
    0.5 * (1 - / 1000) ^ 2 <= VectorLength v' <= 0.5 * (1 + / 1000) ^ 2.
Proof.
  assert (He : 0 <= / 1000 <= 1) by lra.
  assert (Hm : 0 <= 0.5) by lra.
  split; [exact He|]. split; [exact long_ops_accurate|]. split; [exact Hm|].
  destruct (clamp_speed_with_spec (/ 1000) long_ops 0.5 (mkV3 3 0 0) He
              long_ops_accurate Hm) as (v' & Hc & _ & Hgt).
  exists v'. split; [exact Hc|]. apply Hgt.
  cbn [long_ops vlength].
  assert (H3 : VectorLength (mkV3 3 0 0) = 3)
    by (apply VectorLength_val; [lra|cbn; ring]).
  rewrite H3. lra.
Defined.

Lemma jitter_vector_length (j x y : R) :
  0 <= x <= 1 -> 0 <= y <= 1 ->
  VectorLength (mkV3 (- j + (j - - j) * x) (- j + (j - - j) * y) 0)
  <= sqrt 2 * Rabs j.
Proof.
  intros Hx Hy.
  assert (H2 : sqrt 2 * sqrt 2 = 2) by (apply sqrt_sqrt; lra).
  pose proof (sqrt_pos 2). pose proof (Rabs_pos j).
  apply VectorLength_upper; [nra|]. cbn [X Y Z3].
  replace (sqrt 2 * Rabs j * (sqrt 2 * Rabs j))
    with ((sqrt 2 * sqrt 2) * (Rabs j * Rabs j)) by ring.
  rewrite H2. replace (Rabs j * Rabs j) with (j * j)
    by (unfold Rabs; destruct (Rcase_abs j); ring).
  assert (Hxx : (- j + (j - - j) * x) * (- j + (j - - j) * x) <= j * j).
  { replace ((- j + (j - - j) * x) * (- j + (j - - j) * x))
      with (j * j * ((2 * x - 1) * (2 * x - 1))) by ring.
    pose proof (Rle_0_sqr j) as Hj. unfold Rsqr in Hj.
    assert (Hq : (2 * x - 1) * (2 * x - 1) <= 1) by nra.
    rewrite <- (Rmult_1_r (j * j)) at 2. now apply Rmult_le_compat_l. }
  assert (Hyy : (- j + (j - - j) * y) * (- j + (j - - j) * y) <= j * j).
  { replace ((- j + (j - - j) * y) * (- j + (j - - j) * y))
      with (j * j * ((2 * y - 1) * (2 * y - 1))) by ring.
    pose proof (Rle_0_sqr j) as Hj. unfold Rsqr in Hj.
    assert (Hq : (2 * y - 1) * (2 * y - 1) <= 1) by nra.
    rewrite <- (Rmult_1_r (j * j)) at 2. now apply Rmult_le_compat_l. }
  lra.
Qed.

(** X8: the speed after the whole decision stage.  For a living agent, a
    non-negative [max_speed], samples in the unit interval and vector
    helpers accurate to the relative error [eps < 1], the decision completes
    and the speed [rs.VectorLength] measures of the velocity it leaves is at
    most the larger of [max_speed (1 + eps)^3] and
    [(1 + eps)^2 (1e-4 / (1 - eps) + sqrt 2 |jitter|)]: the jitter can
    exceed the limit only by what it adds to a velocity measured shorter
    than [1e-4]. *)
Theorem decide_speed_limit (eps : R) (o : VectorOps) (h : list Agent)
    (self : Agent)
    (max_speed max_slope alignment_weight separation_weight jitter : R)
    (g : Rng) :
  0 <= eps < 1 -> accurate eps o ->
  is_alive self = true -> neighbors_valid h (neighbors self) ->
  0 <= max_speed -> unit_tape g ->
  exists a' g',
    decide_with o h self max_speed max_slope alignment_weight
      separation_weight jitter g = Some (a', g') /\
    vlength o (velocity a')
    <= Rmax (max_speed * (1 + eps) ^ 3)
         ((1 + eps) ^ 2 * (1e-4 / (1 - eps) + sqrt 2 * Rabs jitter)).
Proof.
  intros He Hacc Ha Hv Hm Ht. unfold decide_with. rewrite Ha. cbn [negb].
  assert (He0 : 0 <= eps) by lra.
  destruct (curvature_alignment_with_total eps o Hacc self alignment_weight
              (vscale o (velocity self) (slope_resistance self max_slope)))
    as [v2 ->].
  destruct (separation_with_total eps o Hacc h self separation_weight v2 Hv)
    as [v3 ->].
  destruct (clamp_speed_with_total eps o Hacc max_speed v3 Hm) as [v4 Hc].
  rewrite Hc.
  destruct (clamp_speed_with_bound eps o He0 Hacc _ _ _ Hm Hc) as [_ Hb].
  destruct (jitter_if_stuck_with_spec o jitter v4 g) as [[Hge ->]|[Hlt ->]];
    eexists _, _; (split; [reflexivity|]); cbn [velocity set_velocity].
  - eapply Rle_trans; [exact Hb|apply Rmax_l].
  - eapply Rle_trans; [|apply Rmax_r].
    set (jv := mkV3 _ _ 0).
    assert (Hj : VectorLength jv <= sqrt 2 * Rabs jitter)
      by (apply jitter_vector_length; apply Ht).
    pose proof (vlength_range eps o Hacc v4) as [Hl4 _].
    pose proof (vlength_range eps o Hacc (vadd o v4 jv)) as [_ Hl5].
    pose proof (vadd_upper eps o He0 Hacc v4 jv) as Hadd.
    pose proof (VectorLength_nonneg v4) as H40.
    assert (Hq : (1e-4 / (1 - eps)) * (1 - eps) = 1e-4) by (field; lra).
    assert (H4 : VectorLength v4 <= 1e-4 / (1 - eps)).
    { apply (Rmult_le_reg_r (1 - eps)); [lra|]. rewrite Hq. lra. }
    assert (H5 : (1 + eps) * (VectorLength v4 + VectorLength jv)
                 <= (1 + eps) * (1e-4 / (1 - eps) + sqrt 2 * Rabs jitter))
      by (apply Rmult_le_compat_l; lra).
    assert (H6 : (1 + eps) * VectorLength (vadd o v4 jv)
                 <= (1 + eps) * ((1 + eps)
                       * (1e-4 / (1 - eps) + sqrt 2 * Rabs jitter)))
      by (apply Rmult_le_compat_l; lra).
    cbn [pow]. lra.
Qed.

Lemma zero_tape_unit : unit_tape zero_tape.
Proof. intros n. cbn. lra. Qed.

Lemma decide_speed_limit_witness :
  0 <= / 1000 < 1 /\ accurate (/ 1000) long_ops /\
  is_alive runner = true /\ neighbors_valid [runner] (neighbors runner) /\
  0 <= 0.5 /\ unit_tape zero_tape /\
  exists a' g',
    decide_with long_ops [runner] runner 0.5 0.8 0.05 0.12 0.01 zero_tape
    = Some (a', g') /\
    VectorLength (velocity a')
    <= Rmax (0.5 * (1 + / 1000) ^ 3)
         ((1 + / 1000) ^ 2 * (1e-4 / (1 - / 1000) + sqrt 2 * Rabs 0.01)).
Proof.
  assert (He : 0 <= / 1000 < 1) by lra.
  assert (Hv : neighbors_valid [runner] (neighbors runner)) by constructor.
  assert (Hm : 0 <= 0.5) by lra.
  split; [exact He|]. split; [exact long_ops_accurate|].
  split; [reflexivity|]. split; [exact Hv|]. split; [exact Hm|].
  split; [exact zero_tape_unit|].
  exact (decide_speed_limit (/ 1000) long_ops [runner] runner 0.5 0.8 0.05
           0.12 0.01 zero_tape He long_ops_accurate eq_refl Hv Hm
           zero_tape_unit).
Defined.

(** X9: what the decision touches.  It assigns the velocity and nothing
    else of the agent, reads the tape without changing it, and draws no
    sample or exactly two (the jitter); for a dead agent it does nothing at
    all. *)
Theorem decide_frame (h : list Agent) (self a' : Agent)
    (max_speed max_slope alignment_weight separation_weight jitter : R)
    (g g' : Rng) :
  decide h self max_speed max_slope alignment_weight separation_weight jitter g
    = Some (a', g') ->
  a' = set_velocity self (velocity a') /\
  tape g' = tape g /\
  (drawn g' = drawn g \/ drawn g' = S (S (drawn g))) /\
  (is_alive self = false -> a' = self /\ g' = g).
Proof.
  unfold decide. destruct (is_alive self) eqn:Ha; cbn [negb].
  - destruct (curvature_alignment _ _ _) as [v2|]; [|discriminate].
    destruct (separation _ _ _ _) as [v3|]; [|discriminate].
    destruct (clamp_speed _ _) as [v4|]; [|discriminate].
    destruct (jitter_if_stuck_spec jitter v4 g) as [[_ ->]|[_ ->]];
      intros [= <- <-]; cbn; (split; [reflexivity|]);
      (split; [reflexivity|]); (split; [auto|discriminate]).
  - intros [= <- <-]. split; [now destruct self|]. split; [reflexivity|].
    split; [now left|]. auto.
Qed.

Lemma decide_frame_witness :
  exists a' g',
    decide apart_heap apart0 0.5 0.8 0.05 0.12 0.01 zero_tape = Some (a', g') /\
    position a' = V3_zero /\ drawn g' = 2%nat.
Proof.
  destruct (decide_total apart_heap apart0 0.5 0.8 0.05 0.12 0.01 zero_tape)
    as (a' & g' & Hd); [constructor|lra|].
  exists a', g'. split; [exact Hd|].
  destruct (decide_frame _ _ _ _ _ _ _ _ _ _ Hd) as (Heq & _ & _ & _).
  split; [now rewrite Heq|].
  rewrite decide_at_rest in Hd by (reflexivity || lra).
  now injection Hd as _ <-.
Defined.

(** X10: when the decision raises.  For a living agent with valid
    neighbours, [decide] raises exactly when [max_speed] is negative and the
    velocity is the zero vector when it reaches the clamp:
    [rs.VectorUnitize] of the zero vector is [None] and
    [rs.VectorScale(None, max_speed)] raises. *)
Theorem decide_raises_iff (h : list Agent) (self : Agent)
    (max_speed max_slope alignment_weight separation_weight jitter : R)
    (g : Rng) :
  is_alive self = true -> neighbors_valid h (neighbors self) ->
  (decide h self max_speed max_slope alignment_weight separation_weight
     jitter g = None <->
   max_speed < 0 /\
   exists v2,
     curvature_alignment self alignment_weight
       (VectorScale (velocity self) (slope_resistance self max_slope))
     = Some v2 /\
     separation h self separation_weight v2 = Some V3_zero).
Proof.
  intros Ha Hv. unfold decide. rewrite Ha. cbn [negb].
  destruct (curvature_alignment_total self alignment_weight
              (VectorScale (velocity self) (slope_resistance self max_slope)))
    as [v2 ->].
  destruct (separation_total h self separation_weight v2 Hv) as [v3 Hs].
  rewrite Hs. unfold clamp_speed, VectorUnitize.
  pose proof (VectorLength_nonneg v3) as Hn.
  destruct (Rgt_dec (VectorLength v3) max_speed) as [Hgt|Hle].
  - destruct (Rlt_dec 0 (VectorLength v3)) as [Hpos|Hz].
    + destruct (jitter_if_stuck _ _ _). split; [discriminate|].
      intros (_ & v2' & [= <-] & Hs'). rewrite Hs in Hs'.
      injection Hs' as ->. rewrite VectorLength_zero in Hpos. lra.
    + split; [|reflexivity]. intros _. split; [lra|].
      exists v2. split; [reflexivity|]. rewrite Hs. f_equal.
      apply VectorLength_eq_0. lra.
  - destruct (jitter_if_stuck _ _ _). split; [discriminate|].
    intros (Hneg & _). lra.
Qed.

Lemma decide_raises_iff_witness :
  is_alive apart0 = true /\ neighbors_valid apart_heap (neighbors apart0) /\
  decide apart_heap apart0 (-1) 0.8 0.05 0.12 0.01 zero_tape = None.
Proof.
  assert (Hv : neighbors_valid apart_heap (neighbors apart0)) by constructor.
  split; [reflexivity|]. split; [exact Hv|].
  apply (decide_raises_iff apart_heap apart0 (-1) 0.8 0.05 0.12 0.01 zero_tape
           eq_refl Hv).
  split; [lra|]. exists V3_zero. split.
  - rewrite curvature_alignment_none by reflexivity. f_equal.
    apply V3_eq; cbn; ring.
  - now rewrite separation_nil.
Defined.

(** ** One update *)

(** X11: an update touches one object.  It leaves every other object of
    the heap as it is, removes none, appends at most one (the spawned child,
    whose reference it returns), and leaves the tape of the generator as it
    is. *)
Theorem update_touches_self_only (uuid4 : nat -> N) (self : nat)
    (agents : list nat) (surface : option Surface) (p : Params)
    (w w' : World) (res : option nat) :
  update uuid4 self agents surface p w = Some (res, w') ->
  (forall r, r <> self -> (r < length (heap w))%nat ->
     heap w' !! r = heap w !! r) /\
  match res with
  | Some c => c = length (heap w) /\ length (heap w') = S (length (heap w))
  | None => length (heap w') = length (heap w)
  end /\
  tape (rng w') = tape (rng w).
Proof.
  intros Hu. split; [|split].
  - intros r Hne Hlt. eapply update_frame; eauto.
  - destruct res as [c|].
    + eapply update_spawned; eauto.
    + eapply update_not_spawned; eauto.
  - eapply update_tape; eauto.
Qed.

Lemma update_touches_self_only_witness :
  exists res w',
    update example_uuid4 0 [0; 1]%nat None default_params
      (mkWorld apart_heap zero_tape) = Some (res, w') /\
    heap w' !! 1%nat = Some apart1.
Proof.
  destruct (update_total example_uuid4 0 [0; 1]%nat None default_params
              (mkWorld apart_heap zero_tape)) as (res & w' & Hu);
    [cbn; lia|repeat constructor|cbn; lra|].
  exists res, w'. split; [exact Hu|].
  destruct (update_touches_self_only _ _ _ _ _ _ _ _ Hu) as (Hf & _).
  rewrite Hf; [reflexivity|lia|cbn; lia].
Defined.

(** X12: where an update moves an agent that is not projected.  When no
    point projects on the surface (or there is no surface), the update of a
    living agent completes and the new position is [rs.PointAdd] of the old
    position and the velocity the decision stage has just left; that
    position is appended to the path. *)
Theorem update_moves_by_velocity (uuid4 : nat -> N) (self : nat)
    (agents : list nat) (surface : option Surface) (p : Params) (w : World)
    (a : Agent) :
  heap w !! self = Some a -> is_alive a = true ->
  refs_valid (heap w) agents -> 0 <= max_speed p ->
  (forall q, get_uv surface q = None) ->
  exists res w' a',
    update uuid4 self agents surface p w = Some (res, w') /\
    heap w' !! self = Some a' /\
    position a' = PointAdd (position a) (velocity a') /\
    path a' = path a ++ [position a'].
Proof.
  intros Hl Ha Hv Hm Hproj.
  destruct (update_total uuid4 self agents surface p w) as (res & w' & Hu);
    [eapply lookup_lt_Some; eauto | assumption | assumption |].
  destruct (update_alive_result _ _ _ _ _ _ _ _ _ Hl Ha Hu)
    as (a1 & a2 & g2 & Hs & Hd & Hl').
  exists res, w'. eexists. split; [exact Hu|]. split; [exact Hl'|].
  destruct (aged_fields _ _ _ _ _ _ _ _ _ Ha Hs Hd)
    as (_ & _ & _ & Hpath & _).
  destruct (sense_inv _ _ _ _ _ _ Hs) as (nb & Ha1 & _).
  destruct (sense_geometry_frame a surface) as (_ & Hpos & _ & _ & Hal & _).
  destruct (decide_sets_velocity _ _ _ _ _ _ _ _ _ _ Hd) as (v & Ha2).
  assert (Hmove : position (aged a2 surface)
                  = PointAdd (position a) (velocity a2)
                  /\ velocity (aged a2 surface) = velocity a2).
  { subst a2 a1. unfold aged, move.
    cbn [is_alive set_velocity set_neighbors]. rewrite Hal, Ha. cbn [negb].
    cbn [position velocity set_velocity set_neighbors set_age set_path
         set_position]. rewrite Hpos.
    specialize (Hproj (PointAdd (position a) v)). unfold get_uv in Hproj.
    destruct surface as [s|]; [rewrite Hproj|]; split; reflexivity. }
  destruct Hmove as [Hp Hvel].
  cbn [position velocity path set_is_alive]. rewrite Hp, Hvel.
  split; [reflexivity|]. rewrite Hpath, Hp. reflexivity.
Qed.

Lemma update_moves_by_velocity_witness :
  let w := mkWorld apart_heap zero_tape in
  heap w !! 0%nat = Some apart0 /\ is_alive apart0 = true /\
  refs_valid (heap w) [0; 1]%nat /\ 0 <= max_speed default_params /\
  (forall q, get_uv None q = None) /\
  exists res w' a',
    update example_uuid4 0 [0; 1]%nat None default_params w = Some (res, w') /\
    heap w' !! 0%nat = Some a' /\
    position a' = PointAdd V3_zero (velocity a').
Proof.
  cbn zeta.
  assert (Hv : refs_valid apart_heap [0; 1]%nat) by (repeat constructor).
  assert (Hm : 0 <= max_speed default_params) by (cbn; lra).
  split; [reflexivity|]. split; [reflexivity|]. split; [exact Hv|].
  split; [exact Hm|]. split; [reflexivity|].
  destruct (update_moves_by_velocity example_uuid4 0 [0; 1]%nat None
              default_params (mkWorld apart_heap zero_tape) apart0
              eq_refl eq_refl Hv Hm (fun _ => eq_refl))
    as (res & w' & a' & Hu & Hl & Hp & _).
  exists res, w', a'. split; [exact Hu|]. split; [exact Hl|exact Hp].
Defined.

(** ** Properties of every object, kept by every step *)

Section ObjectInvariants.

Variable uuid4 : nat -> N.
Variable random_seed : Z -> nat -> R.
Variable P : Params -> Agent -> Prop.

(** Every new agent has the property. *)
Hypothesis P_init : forall p u pos vel, P p (Agent_init u pos vel).

(** The update of a living agent keeps the property. *)
Hypothesis P_step :
  forall p h agents surface g a a1 a2 g2,
    P p a -> is_alive a = true ->
    sense h a agents surface (vision_radius p) = Some a1 ->
    decide h a1 (max_speed p) (max_slope p) (alignment_weight p)
      (separation_weight p) (jitter p) g = Some (a2, g2) ->
    P p (set_is_alive (aged a2 surface) (negb (dies p (aged a2 surface)))).

Lemma update_Forall (self : nat) (agents : list nat)
    (surface : option Surface) (p : Params) (w w' : World) (res : option nat) :
  Forall (P p) (heap w) ->
  update uuid4 self agents surface p w = Some (res, w') ->
  Forall (P p) (heap w').
Proof.
  intros Hall. rewrite update_unfold.
  destruct (heap w !! self) as [a|] eqn:Hl; [|discriminate].
  assert (Pa : P p a).
  { rewrite Forall_forall in Hall. apply Hall.
    eapply list_elem_of_lookup_2; eauto. }
  destruct (is_alive a) eqn:Ha; cbn [negb]; [|now intros [= _ <-]].
  destruct (sense _ _ _ _ _) as [a1|] eqn:Hs; [|discriminate].
  destruct (decide _ _ _ _ _ _ _ _) as [[a2 g2]|] eqn:Hd; [|discriminate].
  pose proof (P_step p _ _ _ _ _ _ _ _ Pa Ha Hs Hd) as Pa'.
  destruct (aged_fields _ _ _ _ _ _ _ _ _ Ha Hs Hd) as (_ & _ & Hal & _).
  cbn zeta. destruct (dies p (aged a2 surface)); cbn [negb] in Pa'.
  - intros [= _ <-]. cbn [heap]. now apply Forall_insert.
  - assert (Heta : set_is_alive (aged a2 surface) true = aged a2 surface).
    { rewrite <- Hal. now destruct (aged a2 surface). }
    rewrite Heta in Pa'.
    destruct (spawn_step _ _ _ _ _ _) as [[c|] g'] eqn:Hsp; intros [= _ <-];
      cbn [heap]; [|now apply Forall_insert].
    apply Forall_app. split; [now apply Forall_insert|].
    destruct (spawn_step_init _ _ _ _ _ _ _ _ Hsp) as (pos & vel & ->).
    repeat constructor. apply P_init.
Qed.

Lemma RunScript_loop_Forall (all todo : list nat) (surface : option Surface)
    (p : Params) (w w' : World) (act new act' new' : list nat) :
  Forall (P p) (heap w) ->
  RunScript_loop uuid4 all todo surface p w act new = Some (act', new', w') ->
  Forall (P p) (heap w').
Proof.
  revert w act new. induction todo as [|x todo IH]; intros w act new Hall;
    cbn [RunScript_loop].
  - now intros [= _ _ <-].
  - destruct (update uuid4 x all surface p w) as [[spawned w1]|] eqn:Hu;
      [|discriminate].
    destruct (heap w1 !! x) as [a|]; [|discriminate].
    apply IH. eapply update_Forall; eauto.
Qed.

Lemma simulator_loop_Forall (all todo : list nat) (surface : option Surface)
    (w w' : World) (new new' : list nat) :
  Forall (P default_params) (heap w) ->
  simulator_loop uuid4 all todo surface w new = Some (new', w') ->
  Forall (P default_params) (heap w').
Proof.
  revert w new. induction todo as [|x todo IH]; intros w new Hall;
    cbn [simulator_loop].
  - now intros [= _ <-].
  - destruct (update uuid4 x all surface default_params w)
      as [[spawned w1]|] eqn:Hu; [|discriminate].
    apply IH. eapply update_Forall; eauto.
Qed.

Lemma build_agents_Forall (p : Params) (N : Z) (surface : option Surface)
    (w : World) :
  Forall (P p) (heap w) ->
  Forall (P p) (heap (snd (build_agents uuid4 N surface w))).
Proof.
  unfold build_agents. destruct surface as [s|]; [|auto].
  generalize (@nil nat). generalize (Z.to_nat N). intros n. revert w.
  induction n as [|n IH]; intros w made Hall; cbn [build_agents_loop];
    [exact Hall|].
  destruct (uniform _ _ (rng w)) as [u g1]. destruct (uniform _ _ g1) as [v g2].
  destruct (uniform _ _ g2) as [vx g3]. destruct (uniform _ _ g3) as [vy g4].
  apply IH. cbn [heap]. apply Forall_app. split; [exact Hall|].
  repeat constructor. apply P_init.
Qed.

Lemma RunScript_Forall (seed : option Z) (N : Z) (reset : bool)
    (surface : option Surface) (vr : option R)
    (max_speed max_slope alignment_weight separation_weight jitter : R)
    (st st' : State) :
  let p := RunScript_params vr max_speed max_slope alignment_weight
             separation_weight jitter in
  Forall (P p) (heap (world st)) ->
  RunScript uuid4 random_seed seed N reset surface vr max_speed max_slope
    alignment_weight separation_weight jitter st = Some st' ->
  Forall (P p) (heap (world st')).
Proof.
  intros p Hall. unfold RunScript.
  set (w0 := mkWorld (heap (world st)) _).
  pose proof (build_agents_Forall p N surface w0 Hall) as Hb.
  destruct (match self_agents st with
            | Some l => if reset then build_agents uuid4 N surface w0 else (l, w0)
            | None => build_agents uuid4 N surface w0
            end) as [l w1] eqn:Hl.
  assert (Hw1 : Forall (P p) (heap w1)).
  { destruct (self_agents st) as [l0|]; [destruct reset|].
    - now rewrite Hl in Hb.
    - now injection Hl as _ <-.
    - now rewrite Hl in Hb. }
  fold p. destruct (RunScript_loop _ _ _ _ _ _ _ _) as [[[act' new'] w']|] eqn:Hloop;
    [|discriminate].
  intros [= <-]. cbn [world]. eapply RunScript_loop_Forall; eauto.
Qed.

Lemma run_Forall (seed : option Z) (N : Z) (reset : bool)
    (surface : option Surface) (vr : option R)
    (max_speed max_slope alignment_weight separation_weight jitter : R)
    (steps : nat) (st st' : State) :
  let p := RunScript_params vr max_speed max_slope alignment_weight
             separation_weight jitter in
  Forall (P p) (heap (world st)) ->
  run uuid4 random_seed seed N reset surface vr max_speed max_slope
    alignment_weight separation_weight jitter steps st = Some st' ->
  Forall (P p) (heap (world st')).
Proof.
  intros p. revert st. induction steps as [|n IH]; intros st Hall; cbn [run].
  - now intros [= <-].
  - destruct (RunScript _ _ _ _ _ _ _ _ _ _ _ _ st) as [st1|] eqn:Hrun;
      [|discriminate].
    apply IH. eapply RunScript_Forall; eauto.
Qed.

End ObjectInvariants.

(** ** Invariants of the states a run reaches *)

Lemma age_ok_init (p : Params) (u : N) (pos vel : V3) :
  age_ok p (Agent_init u pos vel).
Proof. unfold age_ok. cbn. lia. Qed.

Lemma age_ok_step (p : Params) (h : list Agent) (agents : list nat)
    (surface : option Surface) (g : Rng) (a a1 a2 : Agent) (g2 : Rng) :
  age_ok p a -> is_alive a = true ->
  sense h a agents surface (vision_radius p) = Some a1 ->
  decide h a1 (max_speed p) (max_slope p) (alignment_weight p)
    (separation_weight p) (jitter p) g = Some (a2, g2) ->
  age_ok p (set_is_alive (aged a2 surface) (negb (dies p (aged a2 surface)))).
Proof.
  intros (H0 & Hlen & Hmax) Ha Hs Hd.
  destruct (aged_fields _ _ _ _ _ _ _ _ _ Ha Hs Hd)
    as (_ & Hage & _ & Hpath & _).
  rewrite Ha in Hmax. unfold age_ok. cbn [age path is_alive set_is_alive].
  rewrite Hpath, length_app, Hage. cbn [length].
  split; [lia|]. split; [lia|].
  unfold dies. rewrite Hage.
  destruct (max_age p <? age a + 1)%Z eqn:Hlt; cbn [orb negb]; [lia|].
  apply Z.ltb_ge in Hlt.
  destruct (Rgt_dec _ _); cbn [negb]; lia.
Qed.

Lemma slope_ok_init (u : N) (pos vel : V3) : slope_ok (Agent_init u pos vel).
Proof. unfold slope_ok. cbn [slope_magnitude slope_vector Agent_init].
  now rewrite VectorLength_zero. Qed.

Lemma sense_geometry_slope_ok (a : Agent) (surface : option Surface) :
  slope_ok a -> slope_ok (sense_geometry a surface).
Proof.
  intros Hok. unfold sense_geometry.
  destruct (get_uv surface (position a)) as [[u v]|] eqn:Huv; [|exact Hok].
  destruct (sample_curvature _ _) as [m d].
  unfold sample_slope. destruct surface as [s|]; unfold slope_ok;
    cbn [slope_magnitude slope_vector set_slope];
    [reflexivity|now rewrite VectorLength_zero].
Qed.

Lemma slope_ok_step (h : list Agent) (agents : list nat)
    (surface : option Surface) (p : Params) (g : Rng) (a a1 a2 : Agent)
    (g2 : Rng) :
  slope_ok a -> is_alive a = true ->
  sense h a agents surface (vision_radius p) = Some a1 ->
  decide h a1 (max_speed p) (max_slope p) (alignment_weight p)
    (separation_weight p) (jitter p) g = Some (a2, g2) ->
  slope_ok (set_is_alive (aged a2 surface) (negb (dies p (aged a2 surface)))).
Proof.
  intros Hok Ha Hs Hd.
  destruct (aged_fields _ _ _ _ _ _ _ _ _ Ha Hs Hd)
    as (_ & _ & _ & _ & _ & _ & _ & _ & Hsv & Hsm & _).
  unfold slope_ok. cbn [slope_magnitude slope_vector set_is_alive].
  rewrite Hsv, Hsm. now apply sense_geometry_slope_ok.
Qed.

Section ReachableStates.

Variable uuid4 : nat -> N.
Variable random_seed : Z -> nat -> R.

Lemma run_ids_ok (seed : option Z) (N : Z) (reset : bool)
    (surface : option Surface) (vr : option R)
    (max_speed max_slope alignment_weight separation_weight jitter : R)
    (steps : nat) (st st' : State) :
  heap_ids_ok uuid4 (heap (world st)) ->
  run uuid4 random_seed seed N reset surface vr max_speed max_slope
    alignment_weight separation_weight jitter steps st = Some st' ->
  heap_ids_ok uuid4 (heap (world st')).
Proof.
  revert st. induction steps as [|n IH]; intros st Hok; cbn [run].
  - now intros [= <-].
  - destruct (RunScript _ _ _ _ _ _ _ _ _ _ _ _ st) as [st1|] eqn:Hrun;
      [|discriminate].
    apply IH. eapply RunScript_ids_ok; eauto.
Qed.

(** X13: no two objects share an id.  When the uuid source never repeats,
    in every state a run reaches two different objects (living or dead, in
    the population or not) have different ids, so that the test
    [other.id == self.id] of the sensing skips the agent itself and nothing
    else. *)
Theorem run_ids_distinct (seed : option Z) (N : Z) (reset : bool)
    (surface : option Surface) (vr : option R)
    (max_speed max_slope alignment_weight separation_weight jitter : R)
    (steps : nat) (st : State) :
  (forall i j, uuid4 i = uuid4 j -> i = j) ->
  run uuid4 random_seed seed N reset surface vr max_speed max_slope
    alignment_weight separation_weight jitter steps
    (fresh_component random_seed) = Some st ->
  forall r1 r2 a1 a2,
    heap (world st) !! r1 = Some a1 -> heap (world st) !! r2 = Some a2 ->
    (id a1 = id a2 <-> r1 = r2).
Proof.
  intros Hinj Hrun r1 r2 a1 a2 H1 H2.
  assert (Hok : heap_ids_ok uuid4 (heap (world st))).
  { eapply run_ids_ok; [|exact Hrun]. intros r a Hr. discriminate. }
  rewrite (Hok _ _ H1), (Hok _ _ H2). split; [apply Hinj|now intros ->].
Qed.

(** X14: ages and paths in the states a run reaches.  Every object has a
    non-negative age that counts the steps of its path (the path has
    [age + 1] points), a living agent is at most 200 steps old and a dead
    one at most 201: no path ever holds more than 202 points. *)
Theorem run_age_bound (seed : option Z) (N : Z) (reset : bool)
    (surface : option Surface) (vr : option R)
    (max_speed max_slope alignment_weight separation_weight jitter : R)
    (steps : nat) (st : State) :
  run uuid4 random_seed seed N reset surface vr max_speed max_slope
    alignment_weight separation_weight jitter steps
    (fresh_component random_seed) = Some st ->
  forall r a, heap (world st) !! r = Some a ->
    (0 <= age a <= 201)%Z /\
    Z.of_nat (length (path a)) = (age a + 1)%Z /\
    (is_alive a = true -> (age a <= 200)%Z) /\
    (length (path a) <= 202)%nat.
Proof.
  intros Hrun r a Hr.
  pose proof (run_Forall uuid4 random_seed age_ok age_ok_init age_ok_step
                seed N reset surface vr max_speed max_slope alignment_weight
                separation_weight jitter steps (fresh_component random_seed) st
                (Forall_nil_2 _) Hrun)
    as Hall.
  rewrite Forall_forall in Hall.
  destruct (Hall a) as (H0 & Hlen & Hmax);
    [eapply list_elem_of_lookup_2; eauto|].
  cbn [max_age RunScript_params default_params] in Hmax.
  destruct (is_alive a); repeat split; try lia; discriminate.
Qed.

(** X15: the cached slope in the states a run reaches.  For every object
    the slope magnitude is the length of its slope vector, hence never
    negative: the slope resistance and the slope death test read a true
    magnitude. *)
Theorem run_slope_cache (seed : option Z) (N : Z) (reset : bool)
    (surface : option Surface) (vr : option R)
    (max_speed max_slope alignment_weight separation_weight jitter : R)
    (steps : nat) (st : State) :
  run uuid4 random_seed seed N reset surface vr max_speed max_slope
    alignment_weight separation_weight jitter steps
    (fresh_component random_seed) = Some st ->
  forall r a, heap (world st) !! r = Some a ->
    slope_magnitude a = VectorLength (slope_vector a) /\
    0 <= slope_magnitude a.
Proof.
  intros Hrun r a Hr.
  pose proof (run_Forall uuid4 random_seed (fun _ => slope_ok)
                (fun _ => slope_ok_init)
                (fun p h agents surface g a a1 a2 g2 =>
                   slope_ok_step h agents surface p g a a1 a2 g2)
                seed N reset surface vr max_speed max_slope alignment_weight
                separation_weight jitter steps (fresh_component random_seed) st
                (Forall_nil_2 _) Hrun)
    as Hall.
  rewrite Forall_forall in Hall.
  assert (Hok : slope_ok a) by (apply Hall; eapply list_elem_of_lookup_2; eauto).
  split; [exact Hok|]. rewrite Hok. apply VectorLength_nonneg.
Qed.

End ReachableStates.

Lemma example_uuid4_inj (i j : nat) : example_uuid4 i = example_uuid4 j -> i = j.
Proof. unfold example_uuid4. intros H. apply Nat2N.inj in H. lia. Qed.

Lemma run_ids_distinct_witness :
  (forall i j, example_uuid4 i = example_uuid4 j -> i = j) /\
  exists st,
    run example_uuid4 zero_seed (Some 42%Z) 3 false (Some flat_plane) (Some 1)
      0.5 0.8 0.05 0.12 0.01 2 (fresh_component zero_seed) = Some st /\
    forall r1 r2 a1 a2,
      heap (world st) !! r1 = Some a1 -> heap (world st) !! r2 = Some a2 ->
      (id a1 = id a2 <-> r1 = r2).
Proof.
  split; [exact example_uuid4_inj|].
  destruct (run_total example_uuid4 zero_seed (Some 42%Z) 3 false
              (Some flat_plane) (Some 1) 0.5 0.8 0.05 0.12 0.01 2
              (fresh_component zero_seed) I ltac:(lra)) as (st & Hrun & _).
  exists st. split; [exact Hrun|].
  exact (run_ids_distinct example_uuid4 zero_seed (Some 42%Z) 3 false
           (Some flat_plane) (Some 1) 0.5 0.8 0.05 0.12 0.01 2 st
           example_uuid4_inj Hrun).
Defined.

Lemma run_age_bound_witness :
  exists st,
    run example_uuid4 zero_seed (Some 42%Z) 3 false (Some flat_plane) (Some 1)
      0.5 0.8 0.05 0.12 0.01 2 (fresh_component zero_seed) = Some st /\
    forall r a, heap (world st) !! r = Some a ->
      (0 <= age a <= 201)%Z /\
      Z.of_nat (length (path a)) = (age a + 1)%Z /\
      (is_alive a = true -> (age a <= 200)%Z) /\
      (length (path a) <= 202)%nat.
Proof.
  destruct (run_total example_uuid4 zero_seed (Some 42%Z) 3 false
              (Some flat_plane) (Some 1) 0.5 0.8 0.05 0.12 0.01 2
              (fresh_component zero_seed) I ltac:(lra)) as (st & Hrun & _).
  exists st. split; [exact Hrun|].
  exact (run_age_bound example_uuid4 zero_seed (Some 42%Z) 3 false
           (Some flat_plane) (Some 1) 0.5 0.8 0.05 0.12 0.01 2 st Hrun).
Defined.

Lemma run_slope_cache_witness :
  exists st,
    run example_uuid4 zero_seed (Some 42%Z) 3 false (Some flat_plane) (Some 1)
      0.5 0.8 0.05 0.12 0.01 2 (fresh_component zero_seed) = Some st /\
    forall r a, heap (world st) !! r = Some a ->
      slope_magnitude a = VectorLength (slope_vector a) /\
      0 <= slope_magnitude a.
Proof.
  destruct (run_total example_uuid4 zero_seed (Some 42%Z) 3 false
              (Some flat_plane) (Some 1) 0.5 0.8 0.05 0.12 0.01 2
              (fresh_component zero_seed) I ltac:(lra)) as (st & Hrun & _).
  exists st. split; [exact Hrun|].
  exact (run_slope_cache example_uuid4 zero_seed (Some 42%Z) 3 false
           (Some flat_plane) (Some 1) 0.5 0.8 0.05 0.12 0.01 2 st Hrun).
Defined.

(** ** The population from one call to the next *)

Section PopulationStructure.

Variable uuid4 : nat -> N.
Variable random_seed : Z -> nat -> R.

Lemma RunScript_unfold (seed : option Z) (N : Z) (reset : bool)
    (surface : option Surface) (vr : option R)
    (max_speed max_slope alignment_weight separation_weight jitter : R)
    (st : State) :
  RunScript uuid4 random_seed seed N reset surface vr max_speed max_slope
    alignment_weight separation_weight jitter st =
  let '(agents, w1) :=
    RunScript_start uuid4 random_seed seed N reset surface st in
  match RunScript_loop uuid4 agents agents surface
          (RunScript_params vr max_speed max_slope alignment_weight
             separation_weight jitter) w1 [] [] with
  | Some (active_agents, new_agents, w2) =>
      Some (mkState w2 (Some (active_agents ++ new_agents)))
  | None => None
  end.
Proof. reflexivity. Qed.

Lemma build_agents_loop_prefix (n : nat) (s : Surface) (w : World)
    (made : list nat) :
  exists new,
    heap (snd (build_agents_loop uuid4 n s w made)) = heap w ++ new /\
    tape (rng (snd (build_agents_loop uuid4 n s w made))) = tape (rng w).
Proof.
  revert w made. induction n as [|n IH]; intros w made; cbn [build_agents_loop].
  - exists []. now rewrite app_nil_r.
  - unfold uniform, random. cbn [fst snd tape drawn].
    match goal with
    | |- context [build_agents_loop uuid4 n s ?w1 ?m1] =>
        destruct (IH w1 m1) as (new & -> & ->)
    end.
    cbn [heap rng tape]. eexists. rewrite <- app_assoc. split; reflexivity.
Qed.

Lemma build_agents_prefix (N : Z) (surface : option Surface) (w : World) :
  exists new,
    heap (snd (build_agents uuid4 N surface w)) = heap w ++ new /\
    tape (rng (snd (build_agents uuid4 N surface w))) = tape (rng w).
Proof.
  unfold build_agents. destruct surface as [s|].
  - apply build_agents_loop_prefix.
  - exists []. now rewrite app_nil_r.
Qed.

(** The population [RunScript] starts from is the kept one in the unchanged
    heap, or a new one appended to the heap. *)
Lemma RunScript_start_cases (seed : option Z) (N : Z) (reset : bool)
    (surface : option Surface) (st : State) :
  let w0 := mkWorld (heap (world st))
              (seed_everything random_seed seed (rng (world st))) in
  let r := RunScript_start uuid4 random_seed seed N reset surface st in
  (reset = false /\ self_agents st = Some (fst r) /\ snd r = w0) \/
  ((reset = true \/ self_agents st = None) /\
   r = build_agents uuid4 N surface w0).
Proof.
  unfold RunScript_start. cbn zeta.
  destruct (self_agents st) as [l|]; [destruct reset|]; auto.
Qed.

Lemma RunScript_start_prefix (seed : option Z) (N : Z) (reset : bool)
    (surface : option Surface) (st : State) :
  let r := RunScript_start uuid4 random_seed seed N reset surface st in
  (exists new, heap (snd r) = heap (world st) ++ new) /\
  tape (rng (snd r))
  = tape (seed_everything random_seed seed (rng (world st))).
Proof.
  cbn zeta.
  destruct (RunScript_start_cases seed N reset surface st)
    as [(_ & _ & ->)|(_ & ->)].
  - split; [exists []; now rewrite app_nil_r|reflexivity].
  - destruct (build_agents_prefix N surface
                (mkWorld (heap (world st))
                   (seed_everything random_seed seed (rng (world st)))))
      as (new & Hh & Ht).
    split; [now exists new|exact Ht].
Qed.

Lemma update_dead_unchanged (self : nat) (agents : list nat)
    (surface : option Surface) (p : Params) (w w' : World) (res : option nat)
    (o : nat) (b : Agent) :
  heap w !! o = Some b -> is_alive b = false ->
  update uuid4 self agents surface p w = Some (res, w') ->
  heap w' !! o = Some b.
Proof.
  intros Ho Hdead Hu. destruct (Nat.eq_dec self o) as [->|Hne].
  - rewrite (update_dead _ _ _ _ _ _ _ Ho Hdead) in Hu.
    now injection Hu as _ <-.
  - rewrite (update_frame _ _ _ _ _ _ _ _ _ Hu); [exact Ho|congruence|].
    eapply lookup_lt_Some; eauto.
Qed.

Lemma simulator_loop_dead_unchanged (all todo : list nat)
    (surface : option Surface) (w w' : World) (new new' : list nat)
    (o : nat) (b : Agent) :
  heap w !! o = Some b -> is_alive b = false ->
  simulator_loop uuid4 all todo surface w new = Some (new', w') ->
  heap w' !! o = Some b.
Proof.
  intros Ho Hdead. revert w new Ho.
  induction todo as [|x todo IH]; intros w new Ho; cbn [simulator_loop].
  - now intros [= _ <-].
  - destruct (update uuid4 x all surface default_params w)
      as [[spawned w1]|] eqn:Hu; [|discriminate].
    apply IH. eapply update_dead_unchanged; eauto.
Qed.

Lemma simulator_step_total (surface : option Surface) (st : State) :
  state_ok st ->
  exists out st', simulator_step uuid4 surface st = Some (out, st').
Proof.
  intros Hok. unfold simulator_step.
  assert (Hv : refs_valid (heap (world st))
                 match self_agents st with Some l => l | None => [] end).
  { unfold state_ok in Hok. destruct (self_agents st); [exact Hok|constructor]. }
  destruct (simulator_loop_total uuid4 _ _ surface (world st) [] Hv Hv)
    as (new' & w' & ->).
  eauto.
Qed.

(** X16: death is final in the builder.  An object that is dead before a
    call of [RunScript] (with or without [reset]) is exactly the same object
    after it: it is never revived, moved or aged. *)
Theorem RunScript_dead_frozen (seed : option Z) (N : Z) (reset : bool)
    (surface : option Surface) (vr : option R)
    (max_speed max_slope alignment_weight separation_weight jitter : R)
    (st st' : State) (o : nat) (b : Agent) :
  heap (world st) !! o = Some b -> is_alive b = false ->
  RunScript uuid4 random_seed seed N reset surface vr max_speed max_slope
    alignment_weight separation_weight jitter st = Some st' ->
  heap (world st') !! o = Some b.
Proof.
  intros Ho Hdead. rewrite RunScript_unfold.
  destruct (RunScript_start_prefix seed N reset surface st) as ((nw & Hh) & _).
  destruct (RunScript_start _ _ _ _ _ _ _) as [l w1]. cbn [snd] in Hh.
  destruct (RunScript_loop _ _ _ _ _ _ _ _) as [[[act' new'] w2]|] eqn:Hloop;
    [|discriminate].
  intros [= <-]. cbn [world].
  eapply RunScript_loop_dead_unchanged; [|exact Hdead|exact Hloop].
  rewrite Hh. now apply lookup_app_l_Some.
Qed.

(** X17: death is final in the simulator.  An object that is dead before
    the step of agent_simulator.py is exactly the same object after it,
    although the step calls [update] on it. *)
Theorem simulator_step_dead_frozen (surface : option Surface)
    (st st' : State) (out : list nat) (o : nat) (b : Agent) :
  heap (world st) !! o = Some b -> is_alive b = false ->
  simulator_step uuid4 surface st = Some (out, st') ->
  heap (world st') !! o = Some b.
Proof.
  intros Ho Hdead. unfold simulator_step.
  destruct (simulator_loop _ _ _ _ _ _) as [[new' w']|] eqn:Hloop;
    [|discriminate].
  intros [= _ <-]. cbn [world].
  eapply simulator_loop_dead_unchanged; eauto.
Qed.

(** X18: the builder steps its population only.  Without [reset], an object
    of the heap that is not in the population (an agent dropped when it
    died, or one the simulator spawned) is left as it is by [RunScript]. *)
Theorem RunScript_outside_unchanged (seed : option Z) (N : Z)
    (surface : option Surface) (vr : option R)
    (max_speed max_slope alignment_weight separation_weight jitter : R)
    (st st' : State) (l : list nat) (r : nat) :
  self_agents st = Some l -> ~ In r l ->
  (r < length (heap (world st)))%nat ->
  RunScript uuid4 random_seed seed N false surface vr max_speed max_slope
    alignment_weight separation_weight jitter st = Some st' ->
  heap (world st') !! r = heap (world st) !! r.
Proof.
  intros Hsa Hnin Hlt. unfold RunScript. rewrite Hsa.
  destruct (RunScript_loop _ _ _ _ _ _ _ _) as [[[act' new'] w2]|] eqn:Hloop;
    [|discriminate].
  intros [= <-]. cbn [world].
  now rewrite (RunScript_loop_frame _ _ _ _ _ _ _ _ _ _ _ _ Hloop Hnin Hlt).
Qed.

Lemma update_child (self : nat) (agents : list nat) (surface : option Surface)
    (p : Params) (w w' : World) (c : nat) :
  update uuid4 self agents surface p w = Some (Some c, w') ->
  exists pos vel, heap w' !! c = Some (Agent_init (uuid4 c) pos vel).
Proof.
  rewrite update_unfold.
  destruct (heap w !! self) as [a|] eqn:Hl; [|discriminate].
  destruct (negb (is_alive a)); [discriminate|].
  destruct (sense _ _ _ _ _) as [a1|]; [|discriminate].
  destruct (decide _ _ _ _ _ _ _ _) as [[a2 g2]|]; [|discriminate].
  cbn zeta. destruct (dies _ _); [discriminate|].
  destruct (spawn_step _ _ _ _ _ _) as [[ch|] g'] eqn:Hsp; [|discriminate].
  intros [= <- <-]. cbn [heap].
  destruct (spawn_step_init _ _ _ _ _ _ _ _ Hsp) as (pos & vel & ->).
  exists pos, vel. rewrite lookup_app_r; rewrite length_insert; [|lia].
  now rewrite Nat.sub_diag.
Qed.

Lemma RunScript_loop_children (all todo : list nat) (surface : option Surface)
    (p : Params) (w w' : World) (act new act' new' : list nat) :
  refs_valid (heap w) todo ->
  RunScript_loop uuid4 all todo surface p w act new = Some (act', new', w') ->
  forall c, (length (heap w) <= c < length (heap w'))%nat ->
    exists pos vel, heap w' !! c = Some (Agent_init (uuid4 c) pos vel).
Proof.
  revert w act new. induction todo as [|x todo IH]; intros w act new Hv;
    cbn [RunScript_loop].
  - intros [= _ _ <-] c Hc. lia.
  - destruct (update uuid4 x all surface p w) as [[spawned w1]|] eqn:Hu;
      [|discriminate].
    destruct (heap w1 !! x) as [ax|] eqn:Hx; [|discriminate].
    intros Hloop c Hc. apply Forall_cons in Hv as [Hxv Hv].
    pose proof (update_length _ _ _ _ _ _ _ _ Hu) as Hlen.
    assert (Hv1 : refs_valid (heap w1) todo).
    { eapply Forall_impl; [exact Hv|]. cbn. intros; lia. }
    destruct (le_lt_dec (length (heap w1)) c) as [Hge|Hlt].
    + eapply IH; [exact Hv1|exact Hloop|lia].
    + destruct spawned as [c'|].
      * destruct (update_spawned _ _ _ _ _ _ _ _ Hu) as [-> Hl1].
        assert (c = length (heap w)) as -> by lia.
        destruct (update_child _ _ _ _ _ _ _ Hu) as (pos & vel & Hc').
        exists pos, vel.
        rewrite (RunScript_loop_frame _ _ _ _ _ _ _ _ _ _ _ _ Hloop);
          [exact Hc'| |lia].
        intros Hin. apply list_elem_of_In in Hin.
        unfold refs_valid in Hv. rewrite Forall_forall in Hv.
        apply Hv in Hin. lia.
      * pose proof (update_not_spawned _ _ _ _ _ _ _ Hu). lia.
Qed.

Lemma RunScript_loop_filter (all todo : list nat) (surface : option Surface)
    (p : Params) (w w' : World) (act new act' new' : list nat) :
  NoDup todo ->
  RunScript_loop uuid4 all todo surface p w act new = Some (act', new', w') ->
  act' = act ++ List.filter (alive_in (heap w')) todo.
Proof.
  revert w act new. induction todo as [|x todo IH]; intros w act new Hnd;
    cbn [RunScript_loop List.filter].
  - intros [= <- _ _]. now rewrite app_nil_r.
  - destruct (update uuid4 x all surface p w) as [[spawned w1]|] eqn:Hu;
      [|discriminate].
    destruct (heap w1 !! x) as [ax|] eqn:Hx; [|discriminate]. intros Hloop.
    apply NoDup_cons in Hnd as [Hnin Hnd]. rewrite list_elem_of_In in Hnin.
    assert (Hfin : heap w' !! x = Some ax).
    { rewrite (RunScript_loop_frame _ _ _ _ _ _ _ _ _ _ _ _ Hloop Hnin);
        [exact Hx|eapply lookup_lt_Some; eauto]. }
    assert (Hal : alive_in (heap w') x = is_alive ax)
      by (unfold alive_in; now rewrite Hfin).
    rewrite (IH _ _ _ Hnd Hloop), Hal.
    destruct (is_alive ax); [now rewrite <- app_assoc|reflexivity].
Qed.

Lemma RunScript_loop_growth (all todo : list nat) (surface : option Surface)
    (p : Params) (w w' : World) (act new act' new' : list nat) :
  RunScript_loop uuid4 all todo surface p w act new = Some (act', new', w') ->
  (length (heap w') <= length (heap w) + length todo)%nat.
Proof.
  revert w act new. induction todo as [|x todo IH]; intros w act new;
    cbn [RunScript_loop].
  - intros [= _ _ <-]. lia.
  - destruct (update uuid4 x all surface p w) as [[spawned w1]|] eqn:Hu;
      [|discriminate].
    destruct (heap w1 !! x) as [ax|]; [|discriminate]. intros Hloop.
    apply IH in Hloop. cbn [length].
    destruct spawned as [c|].
    + destruct (update_spawned _ _ _ _ _ _ _ _ Hu) as [_ Hl1]. lia.
    + pose proof (update_not_spawned _ _ _ _ _ _ _ Hu). lia.
Qed.

Lemma RunScript_loop_tape (all todo : list nat) (surface : option Surface)
    (p : Params) (w w' : World) (act new act' new' : list nat) :
  RunScript_loop uuid4 all todo surface p w act new = Some (act', new', w') ->
  tape (rng w') = tape (rng w).
Proof.
  revert w act new. induction todo as [|x todo IH]; intros w act new;
    cbn [RunScript_loop].
  - now intros [= _ _ <-].
  - destruct (update uuid4 x all surface p w) as [[spawned w1]|] eqn:Hu;
      [|discriminate].
    destruct (heap w1 !! x) as [ax|]; [|discriminate]. intros Hloop.
    rewrite (IH _ _ _ Hloop). eapply update_tape; eauto.
Qed.

(** X19: the population a call of [RunScript] leaves.  Without [reset], for
    a population of distinct objects of the heap, the new population is the
    old one without the agents that are dead after the call, in the same
    order, followed by the agents created in the call in the order of their
    creation; every agent of the new population is alive. *)
Theorem RunScript_population (seed : option Z) (N : Z)
    (surface : option Surface) (vr : option R)
    (max_speed max_slope alignment_weight separation_weight jitter : R)
    (st st' : State) (l : list nat) :
  self_agents st = Some l -> NoDup l -> refs_valid (heap (world st)) l ->
  RunScript uuid4 random_seed seed N false surface vr max_speed max_slope
    alignment_weight separation_weight jitter st = Some st' ->
  let h' := heap (world st') in
  let n := length (heap (world st)) in
  self_agents st'
  = Some (List.filter (alive_in h') l ++ seq n (length h' - n)) /\
  forall l', self_agents st' = Some l' ->
    forall r, In r l' -> alive_in h' r = true.
Proof.
  intros Hsa Hnd Hv. unfold RunScript. rewrite Hsa.
  destruct (RunScript_loop _ _ _ _ _ _ _ _) as [[[act' new'] w2]|] eqn:Hloop;
    [|discriminate].
  intros [= <-]. cbn [world self_agents heap].
  pose proof (RunScript_loop_filter _ _ _ _ _ _ _ _ _ _ Hnd Hloop) as Hact.
  pose proof (RunScript_loop_new _ _ _ _ _ _ _ _ _ _ _ Hloop) as Hnew.
  pose proof (RunScript_loop_length _ _ _ _ _ _ _ _ _ _ _ Hloop) as Hlen.
  cbn [app heap] in Hact, Hnew, Hlen. subst act' new'.
  split; [reflexivity|]. intros l' [= <-] r Hin.
  apply in_app_or in Hin as [Hin|Hin].
  - apply filter_In in Hin. tauto.
  - apply in_seq in Hin.
    eapply RunScript_loop_children in Hloop as (pos & vel & Hr);
      [|exact Hv|cbn [heap]; split; [apply Hin|lia]].
    unfold alive_in. now rewrite Hr.
Qed.

Lemma RunScript_has_population (seed : option Z) (N : Z) (reset : bool)
    (surface : option Surface) (vr : option R)
    (max_speed max_slope alignment_weight separation_weight jitter : R)
    (st st' : State) :
  RunScript uuid4 random_seed seed N reset surface vr max_speed max_slope
    alignment_weight separation_weight jitter st = Some st' ->
  exists l', self_agents st' = Some l'.
Proof.
  rewrite RunScript_unfold.
  destruct (RunScript_start _ _ _ _ _ _ _) as [l w1].
  destruct (RunScript_loop _ _ _ _ _ _ _ _) as [[[act' new'] w2]|];
    [|discriminate].
  intros [= <-]. eauto.
Qed.

(** X20: growth in one call.  Without [reset], every agent of the
    population spawns at most once in a call of [RunScript]: the heap grows
    by at most the size of the population, and the new population is at most
    twice the old one. *)
Theorem RunScript_growth_bound (seed : option Z) (N : Z)
    (surface : option Surface) (vr : option R)
    (max_speed max_slope alignment_weight separation_weight jitter : R)
    (st st' : State) (l l' : list nat) :
  self_agents st = Some l ->
  RunScript uuid4 random_seed seed N false surface vr max_speed max_slope
    alignment_weight separation_weight jitter st = Some st' ->
  self_agents st' = Some l' ->
  (length (heap (world st)) <= length (heap (world st'))
   <= length (heap (world st)) + length l)%nat /\
  (length l' <= 2 * length l)%nat.
Proof.
  intros Hsa. unfold RunScript. rewrite Hsa.
  destruct (RunScript_loop _ _ _ _ _ _ _ _) as [[[act' new'] w2]|] eqn:Hloop;
    [|discriminate].
  intros [= <-]. cbn [world self_agents heap]. intros [= <-].
  pose proof (RunScript_loop_growth _ _ _ _ _ _ _ _ _ _ Hloop) as Hg.
  pose proof (RunScript_loop_new _ _ _ _ _ _ _ _ _ _ _ Hloop) as Hnew.
  pose proof (RunScript_loop_length _ _ _ _ _ _ _ _ _ _ _ Hloop) as Hlen.
  destruct (RunScript_loop_active _ _ _ _ _ _ _ _ _ _ _ Hloop)
    as (act1 & -> & Hsub).
  apply sublist_length in Hsub.
  cbn [app heap] in Hg, Hnew, Hlen. subst new'.
  rewrite length_app, length_seq. cbn [app]. lia.
Qed.

(** X21: a reset abandons the old population.  When [reset] is set (or the
    component has no population yet), [RunScript] leaves every object of the
    old heap as it is, and the new population holds only objects created in
    this call. *)
Theorem RunScript_reset_abandons (seed : option Z) (N : Z) (reset : bool)
    (surface : option Surface) (vr : option R)
    (max_speed max_slope alignment_weight separation_weight jitter : R)
    (st st' : State) :
  reset = true \/ self_agents st = None ->
  RunScript uuid4 random_seed seed N reset surface vr max_speed max_slope
    alignment_weight separation_weight jitter st = Some st' ->
  (forall r, (r < length (heap (world st)))%nat ->
     heap (world st') !! r = heap (world st) !! r) /\
  forall l', self_agents st' = Some l' ->
    forall r, In r l' -> (length (heap (world st)) <= r)%nat.
Proof.
  intros Hreset. rewrite RunScript_unfold.
  destruct (RunScript_start_cases seed N reset surface st)
    as [(Hf & Hsa & _)|(_ & Hb)];
    [destruct Hreset; congruence|].
  destruct (build_agents_prefix N surface
              (mkWorld (heap (world st))
                 (seed_everything random_seed seed (rng (world st)))))
    as (nw & Hh & _).
  assert (Hl : fst (RunScript_start uuid4 random_seed seed N reset surface st)
               = seq (length (heap (world st)))
                   (length (fst (RunScript_start uuid4 random_seed seed N
                                   reset surface st)))).
  { rewrite Hb. unfold build_agents. destruct surface as [s|]; [|reflexivity].
    destruct (build_agents_loop_shape uuid4 (Z.to_nat N) s
                (mkWorld (heap (world st))
                   (seed_everything random_seed seed (rng (world st)))) [])
      as (Hr & _).
    cbn [app heap] in Hr. rewrite Hr at 1. f_equal.
    rewrite Hr. now rewrite length_seq. }
  rewrite <- Hb in Hh.
  destruct (RunScript_start _ _ _ _ _ _ _) as [l w1].
  cbn [fst snd heap] in Hl, Hh.
  destruct (RunScript_loop _ _ _ _ _ _ _ _) as [[[act' new'] w2]|] eqn:Hloop;
    [|discriminate].
  intros [= <-]. cbn [world self_agents].
  assert (Hlow : forall r, In r l -> (length (heap (world st)) <= r)%nat).
  { intros r Hin. rewrite Hl in Hin. apply in_seq in Hin. lia. }
  split.
  - intros r Hr.
    rewrite (RunScript_loop_frame _ _ _ _ _ _ _ _ _ _ _ _ Hloop).
    + rewrite Hh. now apply lookup_app_l.
    + intros Hin. apply Hlow in Hin. lia.
    + rewrite Hh, length_app. lia.
  - intros l' [= <-] r Hin.
    pose proof (RunScript_loop_new _ _ _ _ _ _ _ _ _ _ _ Hloop) as Hnew.
    destruct (RunScript_loop_active _ _ _ _ _ _ _ _ _ _ _ Hloop)
      as (act1 & -> & Hsub).
    cbn [app] in Hnew, Hin. subst new'.
    apply in_app_or in Hin as [Hin|Hin].
    + apply Hlow. apply list_elem_of_In.
      eapply elem_of_sublist; [|exact Hsub]. now apply list_elem_of_In.
    + apply in_seq in Hin. rewrite Hh, length_app in Hin. lia.
Qed.

(** X22: nothing to build.  When a new population is due ([reset], or the
    first call), the seed is one [seed_everything] accepts and there is no
    surface or [N] is not positive, [RunScript] completes with an empty
    population, whatever the steering inputs are: the heap is left as it is
    and the generator is only re-seeded. *)
Theorem RunScript_builds_nothing (seed : option Z) (N : Z) (reset : bool)
    (surface : option Surface) (vr : option R)
    (max_speed max_slope alignment_weight separation_weight jitter : R)
    (st : State) :
  seed_in_range seed ->
  reset = true \/ self_agents st = None ->
  surface = None \/ (N <= 0)%Z ->
  RunScript uuid4 random_seed seed N reset surface vr max_speed max_slope
    alignment_weight separation_weight jitter st
  = Some (mkState
            (mkWorld (heap (world st))
               (seed_everything random_seed seed (rng (world st))))
            (Some [])).
Proof.
  intros _ Hreset Hnone.
  assert (Hb : build_agents uuid4 N surface
                 (mkWorld (heap (world st))
                    (seed_everything random_seed seed (rng (world st))))
               = ([], mkWorld (heap (world st))
                        (seed_everything random_seed seed (rng (world st))))).
  { unfold build_agents. destruct surface as [s|]; [|reflexivity].
    destruct Hnone as [|HN]; [discriminate|].
    replace (Z.to_nat N) with 0%nat by lia. reflexivity. }
  rewrite RunScript_unfold.
  destruct (RunScript_start_cases seed N reset surface st)
    as [(Hf & Hsa & _)|(_ & ->)];
    [destruct Hreset; congruence|].
  rewrite Hb. reflexivity.
Qed.

(** X23: every call re-seeds.  With a seed given, [RunScript] does not
    depend on the state of the generator it finds: the same samples are
    replayed in every call, and the generator it leaves reads the tape of
    the seed. *)
Theorem RunScript_reseeds (s : Z) (N : Z) (reset : bool)
    (surface : option Surface) (vr : option R)
    (max_speed max_slope alignment_weight separation_weight jitter : R)
    (st st' : State) :
  RunScript uuid4 random_seed (Some s) N reset surface vr max_speed max_slope
    alignment_weight separation_weight jitter st = Some st' ->
  tape (rng (world st')) = random_seed s /\
  forall g,
    RunScript uuid4 random_seed (Some s) N reset surface vr max_speed
      max_slope alignment_weight separation_weight jitter
      (mkState (mkWorld (heap (world st)) g) (self_agents st)) = Some st'.
Proof.
  intros Hrun. split; [|intros g; exact Hrun].
  revert Hrun. rewrite RunScript_unfold.
  destruct (RunScript_start_prefix (Some s) N reset surface st) as (_ & Ht).
  destruct (RunScript_start _ _ _ _ _ _ _) as [l w1]. cbn [snd] in Ht.
  destruct (RunScript_loop _ _ _ _ _ _ _ _) as [[[act' new'] w2]|] eqn:Hloop;
    [|discriminate].
  intros [= <-]. cbn [world].
  rewrite (RunScript_loop_tape _ _ _ _ _ _ _ _ _ _ Hloop). exact Ht.
Qed.

End PopulationStructure.

Lemma fallen_state_ok : state_ok fallen_state.
Proof. repeat constructor. Qed.

Lemma RunScript_dead_frozen_witness :
  exists st',
    RunScript example_uuid4 zero_seed (Some 42%Z) 3 false None (Some 5)
      0.5 0.8 0.05 0.12 0.01 fallen_state = Some st' /\
    heap (world st') !! 0%nat = Some fallen.
Proof.
  destruct (RunScript_total example_uuid4 zero_seed (Some 42%Z) 3 false None
              (Some 5) 0.5 0.8 0.05 0.12 0.01 fallen_state fallen_state_ok
              ltac:(lra)) as (st' & Hrun & _).
  exists st'. split; [exact Hrun|].
  exact (RunScript_dead_frozen example_uuid4 zero_seed (Some 42%Z) 3 false
           None (Some 5) 0.5 0.8 0.05 0.12 0.01 fallen_state st' 0%nat fallen
           eq_refl eq_refl Hrun).
Defined.

Lemma simulator_step_dead_frozen_witness :
  exists out st',
    simulator_step example_uuid4 None fallen_state = Some (out, st') /\
    heap (world st') !! 0%nat = Some fallen.
Proof.
  destruct (simulator_step_total example_uuid4 None fallen_state
              fallen_state_ok) as (out & st' & Hstep).
  exists out, st'. split; [exact Hstep|].
  exact (simulator_step_dead_frozen example_uuid4 None fallen_state st' out
           0%nat fallen eq_refl eq_refl Hstep).
Defined.

Lemma RunScript_outside_unchanged_witness :
  let st := mkState (mkWorld apart_heap zero_tape) (Some [0%nat]) in
  exists st',
    RunScript example_uuid4 zero_seed (Some 42%Z) 3 false None (Some 5)
      0.5 0.8 0.05 0.12 0.01 st = Some st' /\
    heap (world st') !! 1%nat = Some apart1.
Proof.
  cbn zeta.
  destruct (RunScript_total example_uuid4 zero_seed (Some 42%Z) 3 false None
              (Some 5) 0.5 0.8 0.05 0.12 0.01
              (mkState (mkWorld apart_heap zero_tape) (Some [0%nat]))
              ltac:(repeat constructor) ltac:(lra)) as (st' & Hrun & _).
  exists st'. split; [exact Hrun|].
  rewrite (RunScript_outside_unchanged example_uuid4 zero_seed (Some 42%Z) 3
             None (Some 5) 0.5 0.8 0.05 0.12 0.01
             (mkState (mkWorld apart_heap zero_tape) (Some [0%nat])) st'
             [0%nat] 1%nat eq_refl ltac:(cbn; lia) ltac:(cbn; lia) Hrun).
  reflexivity.
Defined.

Lemma RunScript_population_witness :
  exists st',
    RunScript example_uuid4 zero_seed (Some 42%Z) 3 false None (Some 5)
      0.5 0.8 0.05 0.12 0.01 fallen_state = Some st' /\
    self_agents st'
    = Some (List.filter (alive_in (heap (world st'))) [0; 1]%nat
            ++ seq 2 (length (heap (world st')) - 2)).
Proof.
  destruct (RunScript_total example_uuid4 zero_seed (Some 42%Z) 3 false None
              (Some 5) 0.5 0.8 0.05 0.12 0.01 fallen_state fallen_state_ok
              ltac:(lra)) as (st' & Hrun & _).
  exists st'. split; [exact Hrun|].
  exact (proj1 (RunScript_population example_uuid4 zero_seed (Some 42%Z) 3
                  None (Some 5) 0.5 0.8 0.05 0.12 0.01 fallen_state st'
                  [0; 1]%nat eq_refl NoDup_01 fallen_state_ok Hrun)).
Defined.

Lemma RunScript_growth_bound_witness :
  exists st' l',
    RunScript example_uuid4 zero_seed (Some 42%Z) 3 false (Some flat_plane)
      (Some 1) 0.5 0.8 0.05 0.12 0.01 near_state = Some st' /\
    self_agents st' = Some l' /\ (length l' <= 4)%nat.
Proof.
  destruct (RunScript_total example_uuid4 zero_seed (Some 42%Z) 3 false
              (Some flat_plane) (Some 1) 0.5 0.8 0.05 0.12 0.01 near_state
              ltac:(repeat constructor) ltac:(lra)) as (st' & Hrun & _).
  destruct (RunScript_has_population _ _ _ _ _ _ _ _ _ _ _ _ _ _ Hrun)
    as (l' & Hsa).
  exists st', l'. split; [exact Hrun|]. split; [exact Hsa|].
  exact (proj2 (RunScript_growth_bound example_uuid4 zero_seed (Some 42%Z) 3
                  (Some flat_plane) (Some 1) 0.5 0.8 0.05 0.12 0.01
                  near_state st' [0; 1]%nat l' eq_refl Hrun Hsa)).
Defined.

Lemma RunScript_reset_abandons_witness :
  exists st',
    RunScript example_uuid4 zero_seed (Some 42%Z) 3 true (Some flat_plane)
      (Some 1) 0.5 0.8 0.05 0.12 0.01 near_state = Some st' /\
    heap (world st') !! 0%nat = Some near0 /\
    forall l', self_agents st' = Some l' ->
      forall r, In r l' -> (2 <= r)%nat.
Proof.
  destruct (RunScript_total example_uuid4 zero_seed (Some 42%Z) 3 true
              (Some flat_plane) (Some 1) 0.5 0.8 0.05 0.12 0.01 near_state
              ltac:(repeat constructor) ltac:(lra)) as (st' & Hrun & _).
  exists st'. split; [exact Hrun|].
  destruct (RunScript_reset_abandons example_uuid4 zero_seed (Some 42%Z) 3
              true (Some flat_plane) (Some 1) 0.5 0.8 0.05 0.12 0.01
              near_state st' (or_introl eq_refl) Hrun) as (Hold & Hnew).
  split; [|exact Hnew]. rewrite Hold; [reflexivity|cbn; lia].
Defined.

Lemma RunScript_builds_nothing_witness :
  seed_in_range (Some 42%Z) /\
  RunScript example_uuid4 zero_seed (Some 42%Z) 3 true None (Some 1)
    (-1) 0.8 0.05 0.12 0.01 near_state
  = Some (mkState (mkWorld [near0; near1] (mkRng (zero_seed 42%Z) 0))
            (Some [])).
Proof.
  assert (Hs : seed_in_range (Some 42%Z)) by (cbn; lia).
  split; [exact Hs|].
  exact (RunScript_builds_nothing example_uuid4 zero_seed (Some 42%Z) 3 true
           None (Some 1) (-1) 0.8 0.05 0.12 0.01 near_state Hs
           (or_introl eq_refl) (or_introl eq_refl)).
Defined.

Lemma RunScript_reseeds_witness :
  exists st',
    RunScript example_uuid4 zero_seed (Some 42%Z) 3 false (Some flat_plane)
      (Some 1) 0.5 0.8 0.05 0.12 0.01 near_state = Some st' /\
    tape (rng (world st')) = zero_seed 42%Z.
Proof.
  destruct (RunScript_total example_uuid4 zero_seed (Some 42%Z) 3 false
              (Some flat_plane) (Some 1) 0.5 0.8 0.05 0.12 0.01 near_state
              ltac:(repeat constructor) ltac:(lra)) as (st' & Hrun & _).
  exists st'. split; [exact Hrun|].
  exact (proj1 (RunScript_reseeds example_uuid4 zero_seed 42%Z 3 false
                  (Some flat_plane) (Some 1) 0.5 0.8 0.05 0.12 0.01
                  near_state st' Hrun)).
Defined.

(** ** Constructing agents *)

Lemma uniform_between (a b : R) (g : Rng) :
  a <= b -> 0 <= tape g (drawn g) <= 1 -> a <= fst (uniform a b g) <= b.
Proof. intros Hab Hx. unfold uniform, random. cbn [fst]. nra. Qed.

Lemma uniform_velocity_bound (x : R) :
  0 <= x <= 1 -> Rabs (-0.05 + (0.05 - -0.05) * x) <= 0.05.
Proof.
  intros Hx. unfold Rabs. destruct (Rcase_abs _); lra.
Qed.

(** X24: the random point of the surface.  Without a surface
    [generate_random_point_on_surface] returns [None] and draws nothing;
    with one, for samples in the unit interval and an increasing domain, it
    draws two samples and returns the point of the surface at parameters
    within the domain.  It is the point [build_agents] places its next agent
    at. *)
Theorem generate_random_point_in_domain (s : Surface) (g : Rng) :
  unit_tape g ->
  fst (SurfaceDomain s false) <= snd (SurfaceDomain s false) ->
  fst (SurfaceDomain s true) <= snd (SurfaceDomain s true) ->
  generate_random_point_on_surface None g = (None, g) /\
  (exists u v,
     generate_random_point_on_surface (Some s) g
     = (Some (EvaluateSurface s u v), mkRng (tape g) (S (S (drawn g)))) /\
     fst (SurfaceDomain s false) <= u <= snd (SurfaceDomain s false) /\
     fst (SurfaceDomain s true) <= v <= snd (SurfaceDomain s true)) /\
  forall uuid4 n w made,
    rng w = g ->
    build_agents_loop uuid4 (S n) s w made =
    match generate_random_point_on_surface (Some s) g with
    | (Some pos, g2) =>
        let '(vx, g3) := uniform (-0.05) 0.05 g2 in
        let '(vy, g4) := uniform (-0.05) 0.05 g3 in
        build_agents_loop uuid4 n s
          (mkWorld
             (heap w ++ [Agent_init (uuid4 (length (heap w))) pos (mkV3 vx vy 0)])
             g4)
          (made ++ [length (heap w)])
    | (None, g2) => build_agents_loop uuid4 n s (mkWorld (heap w) g2) made
    end.
Proof.
  intros Ht HU HV. split; [reflexivity|]. split.
  - unfold generate_random_point_on_surface.
    pose proof (uniform_between _ _ g HU (Ht _)) as Hu.
    destruct (uniform _ _ g) as [u g1] eqn:Eu.
    assert (Hg1 : g1 = mkRng (tape g) (S (drawn g)))
      by (unfold uniform, random in Eu; now injection Eu as _ <-).
    subst g1.
    pose proof (uniform_between _ _ (mkRng (tape g) (S (drawn g))) HV (Ht _))
      as Hv.
    destruct (uniform _ _ (mkRng _ _)) as [v g2] eqn:Ev.
    assert (Hg2 : g2 = mkRng (tape g) (S (S (drawn g))))
      by (unfold uniform, random in Ev; now injection Ev as _ <-).
    subst g2. exists u, v. cbn [fst] in Hu, Hv. auto.
  - intros uuid4 n w made <-. reflexivity.
Qed.

Lemma generate_random_point_in_domain_witness :
  exists u v,
    generate_random_point_on_surface (Some flat_plane) zero_tape
    = (Some (EvaluateSurface flat_plane u v), mkRng (fun _ => 0) 2) /\
    -10 <= u <= 10 /\ -10 <= v <= 10.
Proof.
  destruct (generate_random_point_in_domain flat_plane zero_tape
              zero_tape_unit ltac:(cbn; lra) ltac:(cbn; lra))
    as (_ & (u & v & H & Hu & Hv) & _).
  exists u, v. split; [exact H|]. split; [exact Hu|exact Hv].
Defined.

Section Construction.

Variable uuid4 : nat -> N.

Lemma build_agents_loop_spec (n : nat) (s : Surface) (w : World)
    (made : list nat) :
  unit_tape (rng w) ->
  fst (SurfaceDomain s false) <= snd (SurfaceDomain s false) ->
  fst (SurfaceDomain s true) <= snd (SurfaceDomain s true) ->
  fst (build_agents_loop uuid4 n s w made) = made ++ seq (length (heap w)) n /\
  rng (snd (build_agents_loop uuid4 n s w made))
  = mkRng (tape (rng w)) (drawn (rng w) + 4 * n) /\
  exists new,
    heap (snd (build_agents_loop uuid4 n s w made)) = heap w ++ new /\
    length new = n /\
    forall k a, new !! k = Some a ->
      id a = uuid4 (length (heap w) + k)%nat /\ built_on s a.
Proof.
  intros Ht HU HV. revert w made Ht.
  induction n as [|n IH]; intros w made Ht.
  - cbn [build_agents_loop fst snd seq]. rewrite app_nil_r, Nat.mul_0_r, Nat.add_0_r.
    split; [reflexivity|]. split; [now destruct (rng w)|].
    exists []. rewrite app_nil_r. split; [reflexivity|]. split; [reflexivity|].
    intros k a Hk. rewrite lookup_nil in Hk. discriminate.
  - cbn [build_agents_loop].
    pose proof (uniform_between _ _ (rng w) HU (Ht _)) as Hu.
    pose proof (uniform_between _ _ (mkRng (tape (rng w)) (S (drawn (rng w))))
                  HV (Ht _)) as Hv.
    pose proof (uniform_velocity_bound _ (Ht (S (S (drawn (rng w)))))) as Hvx.
    pose proof (uniform_velocity_bound _ (Ht (S (S (S (drawn (rng w)))))))
      as Hvy.
    unfold uniform, random in *. cbn [fst snd tape drawn] in *.
    match goal with
    | |- context [build_agents_loop uuid4 n s ?w1 ?m1] =>
        destruct (IH w1 m1 Ht) as (Hfst & Hrng & new & Hheap & Hlen & Hall)
    end.
    rewrite Hfst, Hrng, Hheap. cbn [heap rng tape drawn].
    rewrite length_app. cbn [length]. split; [|split].
    + rewrite <- app_assoc. cbn [app seq]. now rewrite Nat.add_1_r.
    + f_equal. lia.
    + eexists (_ :: new). split; [now rewrite <- app_assoc|].
      split; [cbn [length]; now rewrite Hlen|].
      intros [|k] a Hk.
      * cbn in Hk. injection Hk as <-. cbn [id Agent_init].
        split; [now rewrite Nat.add_0_r|].
        eexists _, _, _, _. split; [reflexivity|]. auto.
      * cbn in Hk. destruct (Hall k a Hk) as (Hid & Hb).
        split; [|exact Hb]. rewrite Hid. cbn [heap]. rewrite length_app.
        cbn [length]. f_equal. lia.
Qed.

(** X25: the initial population.  On a surface with increasing domains and
    for samples in the unit interval, [build_agents] appends exactly
    [max N 0] agents to the heap, returns their references in the order of
    construction and draws four samples for each; every one of them is new
    (age 0, alive, its path the singleton of its position) at a point of the
    surface with parameters in the domain, with a velocity of at most 0.05
    along x and along y, and carries the uuid of its construction. *)
Theorem build_agents_spec (N : Z) (s : Surface) (w : World) :
  unit_tape (rng w) ->
  fst (SurfaceDomain s false) <= snd (SurfaceDomain s false) ->
  fst (SurfaceDomain s true) <= snd (SurfaceDomain s true) ->
  let r := build_agents uuid4 N (Some s) w in
  fst r = seq (length (heap w)) (Z.to_nat N) /\
  rng (snd r) = mkRng (tape (rng w)) (drawn (rng w) + 4 * Z.to_nat N) /\
  exists new,
    heap (snd r) = heap w ++ new /\ length new = Z.to_nat N /\
    forall k a, new !! k = Some a ->
      id a = uuid4 (length (heap w) + k)%nat /\ built_on s a.
Proof.
  intros Ht HU HV. cbn zeta. unfold build_agents.
  exact (build_agents_loop_spec (Z.to_nat N) s w [] Ht HU HV).
Qed.

End Construction.

Lemma build_agents_spec_witness :
  let r := build_agents example_uuid4 3 (Some flat_plane)
             (mkWorld apart_heap zero_tape) in
  fst r = [2; 3; 4]%nat /\
  rng (snd r) = mkRng (fun _ => 0) 12 /\
  exists new, heap (snd r) = apart_heap ++ new /\ length new = 3%nat.
Proof.
  destruct (build_agents_spec example_uuid4 3 flat_plane
              (mkWorld apart_heap zero_tape) zero_tape_unit
              ltac:(cbn; lra) ltac:(cbn; lra))
    as (Hfst & Hrng & new & Hheap & Hlen & _).
  cbn zeta. split; [exact Hfst|]. split; [exact Hrng|].
  exists new. split; [exact Hheap|exact Hlen].
Defined.

(** X26: the child of a spawn.  For samples in the unit interval
    [spawn_agent_near] leaves the tape as it is.  Without a surface it
    returns no agent, yet has drawn two samples.  With a surface it draws
    four and returns a new agent: the parent's position displaced by at most
    [|offset|] along x and along y, replaced by its closest point on the
    surface when there is one, with a velocity of at most 0.05 along x and
    along y. *)
Theorem spawn_agent_near_spec (uuid : N) (agent : Agent)
    (surface : option Surface) (offset : R) (g : Rng) :
  unit_tape g ->
  let r := spawn_agent_near uuid agent surface offset g in
  tape (snd r) = tape g /\
  match surface with
  | None => fst r = None /\ drawn (snd r) = (drawn g + 2)%nat
  | Some s =>
      drawn (snd r) = (drawn g + 4)%nat /\
      exists jx jy vx vy,
        Rabs jx <= Rabs offset /\ Rabs jy <= Rabs offset /\
        Rabs vx <= 0.05 /\ Rabs vy <= 0.05 /\
        let q := PointAdd (position agent) (mkV3 jx jy 0) in
        fst r = Some (Agent_init uuid
                        match SurfaceClosestPoint s q with
                        | Some (u, v) => EvaluateSurface s u v
                        | None => q
                        end (mkV3 vx vy 0))
  end.
Proof.
  intros Ht. cbn zeta. unfold spawn_agent_near, uniform, random.
  cbn [fst snd tape drawn].
  pose proof (uniform_symmetric_bound offset _ (Ht (drawn g))) as Hjx.
  pose proof (uniform_symmetric_bound offset _ (Ht (S (drawn g)))) as Hjy.
  pose proof (uniform_velocity_bound _ (Ht (S (S (drawn g))))) as Hvx.
  pose proof (uniform_velocity_bound _ (Ht (S (S (S (drawn g)))))) as Hvy.
  destruct surface as [s|]; cbn [fst snd tape drawn].
  - split; [reflexivity|]. split; [lia|].
    eexists _, _, _, _. split; [exact Hjx|]. split; [exact Hjy|].
    split; [exact Hvx|]. split; [exact Hvy|]. reflexivity.
  - split; [reflexivity|]. split; [reflexivity|lia].
Qed.

Lemma spawn_agent_near_spec_witness :
  fst (spawn_agent_near 7%N apart0 None 0.2 zero_tape) = None /\
  drawn (snd (spawn_agent_near 7%N apart0 None 0.2 zero_tape)) = 2%nat.
Proof.
  exact (proj2 (spawn_agent_near_spec 7%N apart0 None 0.2 zero_tape
                  zero_tape_unit)).
Defined.

(** ** The simulator script and the two components together *)

Lemma path_ok_step (p : Params) (h : list Agent) (agents : list nat)
    (surface : option Surface) (g : Rng) (a a1 a2 : Agent) (g2 : Rng) :
  path_ok a -> is_alive a = true ->
  sense h a agents surface (vision_radius p) = Some a1 ->
  decide h a1 (max_speed p) (max_slope p) (alignment_weight p)
    (separation_weight p) (jitter p) g = Some (a2, g2) ->
  path_ok (set_is_alive (aged a2 surface) (negb (dies p (aged a2 surface)))).
Proof.
  intros _ Ha Hs Hd.
  destruct (aged_fields _ _ _ _ _ _ _ _ _ Ha Hs Hd)
    as (_ & _ & _ & Hpath & _).
  unfold path_ok. cbn [path position set_is_alive].
  rewrite Hpath. apply last_snoc.
Qed.

Lemma path_ok_nonempty (a : Agent) : path_ok a -> path_nonempty a = true.
Proof.
  unfold path_ok, path_nonempty. now destruct (path a).
Qed.

Lemma filter_path_nonempty (objs : list Agent) :
  Forall path_ok objs -> List.filter path_nonempty objs = objs.
Proof.
  induction 1 as [|a objs Ha _ IH]; [reflexivity|].
  cbn [List.filter]. now rewrite (path_ok_nonempty a Ha), IH.
Qed.

Lemma deref_total (h : list Agent) (l : list nat) :
  refs_valid h l -> exists objs, deref h l = Some objs.
Proof.
  induction 1 as [|r l Hr _ (objs & IH)]; [now exists []|].
  cbn [deref]. destruct (lookup_lt_is_Some_2 h r Hr) as (a & ->).
  rewrite IH. eauto.
Qed.

Lemma deref_lookup (h : list Agent) (l : list nat) (objs : list Agent) :
  deref h l = Some objs ->
  length objs = length l /\
  forall i r, l !! i = Some r ->
    exists a, h !! r = Some a /\ objs !! i = Some a.
Proof.
  revert objs. induction l as [|x l IH]; intros objs; cbn [deref].
  - intros [= <-]. split; [reflexivity|]. intros i r Hi.
    rewrite lookup_nil in Hi. discriminate.
  - destruct (h !! x) as [a|] eqn:Hx; [|discriminate].
    destruct (deref h l) as [tl|]; [|discriminate]. intros [= <-].
    destruct (IH tl eq_refl) as (Hlen & Hall).
    split; [cbn [length]; now rewrite Hlen|].
    intros [|i] r Hi; cbn in Hi.
    + injection Hi as <-. now exists a.
    + now apply Hall.
Qed.

Lemma deref_Forall (P : Agent -> Prop) (h : list Agent) (l : list nat)
    (objs : list Agent) :
  Forall P h -> deref h l = Some objs -> Forall P objs.
Proof.
  intros Hall. revert objs. induction l as [|x l IH]; intros objs; cbn [deref].
  - intros [= <-]. constructor.
  - destruct (h !! x) as [a|] eqn:Hx; [|discriminate].
    destruct (deref h l) as [tl|]; [|discriminate]. intros [= <-].
    constructor; [|now apply IH].
    rewrite Forall_forall in Hall. apply Hall.
    eapply list_elem_of_lookup_2; eauto.
Qed.

Lemma lookup_map {A B : Type} (f : A -> B) (l : list A) (i : nat) (a : A) :
  l !! i = Some a -> map f l !! i = Some (f a).
Proof.
  revert i. induction l as [|x l IH]; intros [|i] H; cbn in *;
    try discriminate.
  - now injection H as <-.
  - now apply IH.
Qed.

Section Simulator.

Variable AddLine : V3 -> V3 -> option N.
Variable uuid4 : nat -> N.
Variable random_seed : Z -> nat -> R.

Lemma simulator_loop_new (all todo : list nat) (surface : option Surface)
    (w w' : World) (new new' : list nat) :
  simulator_loop uuid4 all todo surface w new = Some (new', w') ->
  new' = new ++ seq (length (heap w)) (length (heap w') - length (heap w)).
Proof.
  revert w new. induction todo as [|x todo IH]; intros w new;
    cbn [simulator_loop].
  - intros [= <- <-]. rewrite Nat.sub_diag. cbn. now rewrite app_nil_r.
  - destruct (update uuid4 x all surface default_params w)
      as [[spawned w1]|] eqn:Hu; [|discriminate].
    intros Hloop.
    pose proof (simulator_loop_length _ _ _ _ _ _ _ _ Hloop) as Hlen.
    rewrite (IH _ _ Hloop). destruct spawned as [c|].
    + destruct (update_spawned _ _ _ _ _ _ _ _ Hu) as [-> Hl1].
      rewrite Hl1, <- app_assoc. f_equal.
      replace (length (heap w') - length (heap w))%nat
        with (S (length (heap w') - S (length (heap w)))) by lia.
      reflexivity.
    + now rewrite (update_not_spawned _ _ _ _ _ _ _ Hu).
Qed.

Lemma simulator_loop_children (all todo : list nat) (surface : option Surface)
    (w w' : World) (new new' : list nat) :
  refs_valid (heap w) todo ->
  simulator_loop uuid4 all todo surface w new = Some (new', w') ->
  forall c, (length (heap w) <= c < length (heap w'))%nat ->
    exists pos vel, heap w' !! c = Some (Agent_init (uuid4 c) pos vel).
Proof.
  revert w new. induction todo as [|x todo IH]; intros w new Hv;
    cbn [simulator_loop].
  - intros [= _ <-] c Hc. lia.
  - destruct (update uuid4 x all surface default_params w)
      as [[spawned w1]|] eqn:Hu; [|discriminate].
    intros Hloop c Hc. apply Forall_cons in Hv as [Hxv Hv].
    pose proof (update_length _ _ _ _ _ _ _ _ Hu) as Hlen.
    assert (Hv1 : refs_valid (heap w1) todo).
    { eapply Forall_impl; [exact Hv|]. cbn. intros; lia. }
    destruct (le_lt_dec (length (heap w1)) c) as [Hge|Hlt].
    + eapply IH; [exact Hv1|exact Hloop|lia].
    + destruct spawned as [c'|].
      * destruct (update_spawned _ _ _ _ _ _ _ _ Hu) as [-> Hl1].
        assert (c = length (heap w)) as -> by lia.
        destruct (update_child _ _ _ _ _ _ _ _ Hu) as (pos & vel & Hc').
        exists pos, vel.
        rewrite (simulator_loop_frame _ _ _ _ _ _ _ _ _ Hloop);
          [exact Hc'| |lia].
        intros Hin. apply list_elem_of_In in Hin.
        unfold refs_valid in Hv. rewrite Forall_forall in Hv.
        apply Hv in Hin. lia.
      * pose proof (update_not_spawned _ _ _ _ _ _ _ Hu). lia.
Qed.

Lemma simulator_loop_path (all todo : list nat) (surface : option Surface)
    (w w' : World) (new new' : list nat) :
  NoDup todo -> Forall path_ok (heap w) ->
  simulator_loop uuid4 all todo surface w new = Some (new', w') ->
  forall r a, In r todo -> heap w !! r = Some a ->
    exists a', heap w' !! r = Some a' /\
      length (path a') =
      (length (path a) + (if is_alive a then 1 else 0))%nat.
Proof.
  revert w new. induction todo as [|x todo IH]; intros w new Hnd Hok;
    cbn [simulator_loop].
  - intros _ r a [].
  - destruct (update uuid4 x all surface default_params w)
      as [[spawned w1]|] eqn:Hu; [|discriminate].
    intros Hloop.
    apply NoDup_cons in Hnd as [Hnin Hnd]. rewrite list_elem_of_In in Hnin.
    destruct (heap w !! x) as [a0|] eqn:Hx0;
      [|apply update_self_valid in Hu; apply lookup_ge_None in Hx0; lia].
    destruct (update_path _ _ _ _ _ _ _ _ _ Hx0 Hok Hu)
      as (Hok1 & a' & Ha' & Hlen).
    intros r a [<-|Hin] Hr.
    + exists a'. split.
      * rewrite (simulator_loop_frame _ _ _ _ _ _ _ _ _ Hloop Hnin);
          [exact Ha'|]. eapply lookup_lt_Some; eauto.
      * rewrite Hx0 in Hr. injection Hr as <-. exact Hlen.
    + eapply IH; [exact Hnd|exact Hok1|exact Hloop|exact Hin|].
      rewrite (update_frame _ _ _ _ _ _ _ _ _ Hu); [assumption| |].
      * intros ->. contradiction.
      * eapply lookup_lt_Some; eauto.
Qed.

(** The list the simulator script visualises. *)
Lemma simulator_step_out (surface : option Surface) (st st' : State)
    (out : list nat) :
  state_ok st ->
  simulator_step uuid4 surface st = Some (out, st') ->
  out = match self_agents st with Some l => l | None => [] end
        ++ seq (length (heap (world st)))
             (length (heap (world st')) - length (heap (world st))) /\
  self_agents st' = self_agents st /\
  refs_valid (heap (world st')) out /\
  (length (heap (world st)) <= length (heap (world st')))%nat /\
  (Forall path_ok (heap (world st)) -> Forall path_ok (heap (world st'))).
Proof.
  intros Hok. unfold simulator_step.
  destruct (simulator_loop _ _ _ _ _ _) as [[new' w']|] eqn:Hloop;
    [|discriminate].
  intros [= <- <-]. cbn [world self_agents].
  pose proof (simulator_loop_new _ _ _ _ _ _ _ Hloop) as Hnew.
  pose proof (simulator_loop_length _ _ _ _ _ _ _ _ Hloop) as Hlen.
  cbn [app] in Hnew. subst new'.
  split; [reflexivity|]. split; [reflexivity|]. split; [|split].
  - apply Forall_app. split.
    + unfold state_ok in Hok.
      destruct (self_agents st) as [l|]; [|constructor].
      eapply Forall_impl; [exact Hok|]. cbn. intros; lia.
    + apply Forall_forall. intros r Hr. apply list_elem_of_In in Hr.
      apply in_seq in Hr. lia.
  - exact Hlen.
  - intros Hp.
    exact (simulator_loop_Forall uuid4 (fun _ => path_ok)
             (fun _ => Agent_init_path_ok)
             (fun p h agents surface g a a1 a2 g2 =>
                path_ok_step p h agents surface g a a1 a2 g2)
             _ _ _ _ _ _ _ Hp Hloop).
Qed.

(** X28: the outputs of the simulator.  On a state whose population refers
    to objects of the heap, each with a path ending at its position (as in
    every state a run reaches), the simulator script completes; its outputs
    [P], [V] and [Paths] have one entry for every agent of [out_agents], in
    the same order: the position, the line from the position to the position
    plus the velocity, and the path, which ends at the position.  The test
    [if agent.path] never drops a path. *)
Theorem simulator_outputs_aligned (surface : option Surface) (st : State) :
  state_ok st -> Forall path_ok (heap (world st)) ->
  exists out st',
    simulator_script AddLine uuid4 surface st = Some (out, st') /\
    length (out_points out) = length (out_agents out) /\
    length (out_vectors out) = length (out_agents out) /\
    length (out_paths out) = length (out_agents out) /\
    forall i r, out_agents out !! i = Some r ->
      exists a, heap (world st') !! r = Some a /\
        out_points out !! i = Some (position a) /\
        out_vectors out !! i
        = Some (AddLine (position a) (PointAdd (position a) (velocity a))) /\
        out_paths out !! i = Some (path a) /\
        last (path a) = Some (position a).
Proof.
  intros Hok Hp. unfold simulator_script.
  destruct (simulator_step_total uuid4 surface st Hok) as (l & st' & Hstep).
  rewrite Hstep.
  destruct (simulator_step_out surface st st' l Hok Hstep)
    as (_ & _ & Hv & _ & Hp'). specialize (Hp' Hp).
  unfold simulator_outputs.
  destruct (deref_total _ _ Hv) as (objs & Hd). rewrite Hd.
  pose proof (deref_Forall path_ok _ _ _ Hp' Hd) as Hobjs.
  destruct (deref_lookup _ _ _ Hd) as (Hlen & Hall).
  eexists _, st'. split; [reflexivity|].
  cbn [out_agents out_points out_vectors out_paths].
  rewrite (filter_path_nonempty objs Hobjs), !length_map.
  split; [exact Hlen|]. split; [exact Hlen|]. split; [exact Hlen|].
  intros i r Hi. destruct (Hall i r Hi) as (a & Hr & Hoi).
  exists a. split; [exact Hr|].
  split; [now apply lookup_map|].
  split; [exact (lookup_map (output_vector AddLine) objs i a Hoi)|].
  split; [now apply lookup_map|].
  rewrite Forall_forall in Hp'. apply Hp'.
  eapply list_elem_of_lookup_2; eauto.
Qed.

(** X29: agents spawned in the simulator are orphans.  The step of
    agent_simulator.py lists the agents it spawns after the population, but
    leaves the population of the builder as it is: a spawned agent is new
    after the step and is not in the population, so that a call of
    [RunScript] without [reset] on the state the step leaves does not change
    it. *)
Theorem simulator_spawn_orphaned (surface : option Surface) (st st' : State)
    (l out : list nat) :
  self_agents st = Some l -> refs_valid (heap (world st)) l ->
  simulator_step uuid4 surface st = Some (out, st') ->
  let n := length (heap (world st)) in
  out = l ++ seq n (length (heap (world st')) - n) /\
  self_agents st' = Some l /\
  forall c, (n <= c < length (heap (world st')))%nat ->
    ~ In c l /\
    (exists pos vel,
       heap (world st') !! c = Some (Agent_init (uuid4 c) pos vel)) /\
    forall seed N surface' vr max_speed max_slope alignment_weight
           separation_weight jitter st'',
      RunScript uuid4 random_seed seed N false surface' vr max_speed max_slope
        alignment_weight separation_weight jitter st' = Some st'' ->
      heap (world st'') !! c = heap (world st') !! c.
Proof.
  intros Hsa Hv Hstep. cbn zeta.
  assert (Hok : state_ok st) by (unfold state_ok; now rewrite Hsa).
  destruct (simulator_step_out surface st st' out Hok Hstep)
    as (Hout & Hsa' & _ & _ & _).
  rewrite Hsa in Hout, Hsa'.
  split; [exact Hout|]. split; [exact Hsa'|]. intros c Hc.
  assert (Hnin : ~ In c l).
  { intros Hin. apply list_elem_of_In in Hin.
    unfold refs_valid in Hv. rewrite Forall_forall in Hv.
    apply Hv in Hin. lia. }
  split; [exact Hnin|]. split.
  - revert Hstep. unfold simulator_step. rewrite Hsa.
    destruct (simulator_loop _ _ _ _ _ _) as [[new' w']|] eqn:Hloop;
      [|discriminate].
    intros [= _ <-]. cbn [world] in *.
    eapply simulator_loop_children; eauto.
  - intros seed N surface' vr max_speed max_slope alignment_weight
      separation_weight jitter st''.
    unfold RunScript. rewrite Hsa'.
    destruct (RunScript_loop _ _ _ _ _ _ _ _) as [[[act' new''] w2]|]
      eqn:Hloop; [|discriminate].
    intros [= <-]. cbn [world].
    rewrite (RunScript_loop_frame _ _ _ _ _ _ _ _ _ _ _ _ Hloop Hnin);
      [reflexivity|cbn [heap]; lia].
Qed.

(** X30: both components step the agents.  In one recompute of the
    definition (the builder, then the simulator downstream of it, without
    [reset]) an agent of the population that is alive at the end has moved
    twice: its path is two points longer.  No path grows by more than two
    points, and none shrinks. *)
Theorem recompute_steps_twice (seed : option Z) (N : Z)
    (surface : option Surface) (vr : option R)
    (max_speed max_slope alignment_weight separation_weight jitter : R)
    (simulator_surface : option Surface) (st st2 : State) (out : Outputs)
    (l : list nat) :
  self_agents st = Some l -> NoDup l -> refs_valid (heap (world st)) l ->
  Forall path_ok (heap (world st)) ->
  recompute AddLine uuid4 random_seed seed N false surface vr max_speed
    max_slope alignment_weight separation_weight jitter simulator_surface st
  = Some (out, st2) ->
  forall r a, In r l -> heap (world st) !! r = Some a ->
    exists a2, heap (world st2) !! r = Some a2 /\
      (length (path a) <= length (path a2) <= length (path a) + 2)%nat /\
      (is_alive a2 = true -> length (path a2) = (length (path a) + 2)%nat).
Proof.
  intros Hsa Hnd Hv Hp. unfold recompute.
  destruct (RunScript _ _ _ _ _ _ _ _ _ _ _ _ st) as [st1|] eqn:Hrun;
    [|discriminate].
  assert (Hpop : population_ok st)
    by (unfold population_ok; rewrite Hsa; now split).
  destruct (RunScript_invariant _ _ _ _ _ _ _ _ _ _ _ _ _ _ Hpop Hp Hrun)
    as (Hpop1 & Hp1).
  unfold simulator_script.
  destruct (simulator_step uuid4 simulator_surface st1) as [[agents st2']|]
    eqn:Hstep; [|discriminate].
  destruct (simulator_outputs _ _ _) as [o|]; [|discriminate].
  intros [= _ <-] r a Hin Hr.
  revert Hrun. unfold RunScript. rewrite Hsa.
  destruct (RunScript_loop _ _ _ _ _ _ _ _) as [[[act new] w2]|] eqn:Hloop;
    [|discriminate].
  intros [= <-]. cbn [world self_agents heap] in *.
  set (w0 := mkWorld (heap (world st))
               (seed_everything random_seed seed (rng (world st)))) in *.
  destruct (RunScript_loop_path uuid4 _ _ _ _ w0 _ _ _ _ _ Hnd Hp Hloop)
    as (_ & Hpath).
  destruct (Hpath r a Hin Hr) as (a1 & Hr1 & Hlen1).
  pose proof (RunScript_loop_filter _ _ _ _ _ _ _ _ _ _ _ Hnd Hloop) as Hact.
  cbn [app] in Hact.
  revert Hstep. unfold simulator_step. cbn [self_agents world].
  destruct (simulator_loop _ _ _ _ _ _) as [[new3 w3]|] eqn:Hsl;
    [|discriminate].
  intros [= _ <-]. cbn [world].
  destruct Hpop1 as [Hnd1 _].
  destruct (is_alive a1) eqn:Hal1.
  - assert (Hal : is_alive a = true).
    { destruct (is_alive a) eqn:Hal; [reflexivity|].
      rewrite (RunScript_loop_dead_unchanged uuid4 _ _ _ _ w0 _ _ _ _ _ _ _
                 Hr Hal Hloop) in Hr1.
      injection Hr1 as <-. congruence. }
    rewrite Hal in Hlen1.
    assert (Hin1 : In r (act ++ new)).
    { apply in_or_app. left. rewrite Hact. apply filter_In.
      split; [exact Hin|]. unfold alive_in. now rewrite Hr1. }
    destruct (simulator_loop_path _ _ _ _ _ _ _ Hnd1 Hp1 Hsl r a1 Hin1 Hr1)
      as (a2 & Hr2 & Hlen2).
    rewrite Hal1 in Hlen2. exists a2. split; [exact Hr2|]. split; lia.
  - exists a1. split.
    + eapply simulator_loop_dead_unchanged; eauto.
    + split; [destruct (is_alive a); lia|congruence].
Qed.

End Simulator.

Lemma near_state_ok : state_ok near_state.
Proof. repeat constructor. Qed.

Lemma near_state_paths : Forall path_ok (heap (world near_state)).
Proof. repeat constructor. Qed.

Lemma simulator_outputs_aligned_witness :
  exists out st',
    simulator_script (fun _ _ => None) example_uuid4 (Some flat_plane)
      near_state = Some (out, st') /\
    length (out_points out) = length (out_agents out) /\
    length (out_paths out) = length (out_agents out).
Proof.
  destruct (simulator_outputs_aligned (fun _ _ => None) example_uuid4
              (Some flat_plane) near_state near_state_ok near_state_paths)
    as (out & st' & H & Hp & _ & Hpaths & _).
  exists out, st'. split; [exact H|]. split; [exact Hp|exact Hpaths].
Defined.

Lemma simulator_spawn_orphaned_witness :
  exists out st',
    simulator_step example_uuid4 (Some flat_plane) near_state
    = Some (out, st') /\
    out = [0; 1]%nat ++ seq 2 (length (heap (world st')) - 2) /\
    self_agents st' = Some [0; 1]%nat.
Proof.
  destruct (simulator_step_total example_uuid4 (Some flat_plane) near_state
              near_state_ok) as (out & st' & Hstep).
  exists out, st'. split; [exact Hstep|].
  destruct (simulator_spawn_orphaned example_uuid4 zero_seed
              (Some flat_plane) near_state st' [0; 1]%nat out eq_refl
              near_state_ok Hstep) as (Hout & Hsa & _).
  split; [exact Hout|exact Hsa].
Defined.

Lemma recompute_total (AddLine : V3 -> V3 -> option N) (uuid4 : nat -> N)
    (random_seed : Z -> nat -> R) (seed : option Z) (N : Z) (reset : bool)
    (surface : option Surface) (vr : option R)
    (max_speed max_slope alignment_weight separation_weight jitter : R)
    (simulator_surface : option Surface) (st : State) :
  state_ok st -> 0 <= max_speed ->
  exists out st2,
    recompute AddLine uuid4 random_seed seed N reset surface vr max_speed
      max_slope alignment_weight separation_weight jitter simulator_surface st
    = Some (out, st2).
Proof.
  intros Hok Hm. unfold recompute.
  destruct (RunScript_total uuid4 random_seed seed N reset surface vr
              max_speed max_slope alignment_weight separation_weight jitter
              st Hok Hm) as (st1 & -> & Hok1).
  unfold simulator_script.
  destruct (simulator_step_total uuid4 simulator_surface st1 Hok1)
    as (l & st2 & Hstep).
  rewrite Hstep.
  destruct (simulator_step_out uuid4 simulator_surface st1 st2 l Hok1 Hstep)
    as (_ & _ & Hv & _).
  unfold simulator_outputs. destruct (deref_total _ _ Hv) as (objs & ->).
  eauto.
Qed.

Lemma recompute_steps_twice_witness :
  exists out st2 a2,
    recompute (fun _ _ => None) example_uuid4 zero_seed (Some 42%Z) 3 false
      (Some flat_plane) (Some 1) 0.5 0.8 0.05 0.12 0.01 (Some flat_plane)
      near_state = Some (out, st2) /\
    heap (world st2) !! 0%nat = Some a2 /\
    (1 <= length (path a2) <= 3)%nat.
Proof.
  destruct (recompute_total (fun _ _ => None) example_uuid4 zero_seed
              (Some 42%Z) 3 false (Some flat_plane) (Some 1) 0.5 0.8 0.05
              0.12 0.01 (Some flat_plane) near_state near_state_ok
              ltac:(lra)) as (out & st2 & Hrec).
  destruct (recompute_steps_twice (fun _ _ => None) example_uuid4 zero_seed
              (Some 42%Z) 3 (Some flat_plane) (Some 1) 0.5 0.8 0.05 0.12 0.01
              (Some flat_plane) near_state st2 out [0; 1]%nat eq_refl
              NoDup_01 near_state_ok near_state_paths Hrec 0%nat near0
              ltac:(now left) eq_refl) as (a2 & Hr2 & Hlen & _).
  exists out, st2, a2. split; [exact Hrec|]. split; [exact Hr2|exact Hlen].
Defined.
